(** * ComposerButtonBonanza: the api-initializer, embedded and verified

    A shallow embedding of
    [javascripts/discourse/api-initializers/api-initializer.js]:
    the layout parser ([parseLayoutEntry], [parseLayout]), the action
    resolver ([makeAction] and the four [make*Action] constructors), the
    helpers ([makeButtonIdentifier], [applyTranslation], [setI18nProperty],
    [trimLeading]) and the two registration paths ([addToolbarButton],
    [addPopupMenuButtonWithCondition]) together with the initializer that
    drives them.

    JavaScript objects used as tables ([SECTIONS], [BUTTONS],
    [TOGGLE_GROUPS], [i18nProperties]) are finite maps over strings; the
    [in] operator and bracket lookups also see the names every plain
    object inherits from [Object.prototype].  The layout is parsed before
    anything is written, so the parser sees [Object.prototype] as the host
    provides it; the resolver runs later and also sees what
    [setI18nProperty] has by then written onto [Object.prototype] or onto
    one of its functions, which the state records.  The CSS parser behind
    [CSSStyleSheet.insertRule] belongs to the host and is a component of
    the state: a rule it refuses is a [SyntaxError].  Exceptions are
    explicit results, and the state a statement mutates before it throws
    is kept.  Closures are first-order data ([Callback], [ClickHandler])
    run by an interpreter; the variables a closure captures live in a
    store. *)

From Stdlib Require Import ZArith NArith Ascii String.
From stdpp Require Import base option list strings gmap fin_maps.

Open Scope string_scope.
Open Scope list_scope.

(** ** JavaScript values and objects *)

(** The values that reach this code from the settings: [undefined], [null],
    booleans and strings. *)
Inductive JSVal : Type :=
  | JUndefined
  | JNull
  | JBool (b : bool)
  | JStr (s : string).

Global Instance JSVal_eq_dec : EqDecision JSVal.
Proof. solve_decision. Defined.

(** [!v] is [negb (truthy v)]; the empty string is falsy. *)
Definition truthy (v : JSVal) : bool :=
  match v with
  | JUndefined | JNull => false
  | JBool b => b
  | JStr s => negb (String.eqb s "")
  end.

(** [v ?? d] *)
Definition nullish_or (v d : JSVal) : JSVal :=
  match v with
  | JUndefined | JNull => d
  | _ => v
  end.

(** ToString, as applied by template literals and by property keys. *)
Definition to_string (v : JSVal) : string :=
  match v with
  | JUndefined => "undefined"
  | JNull => "null"
  | JBool true => "true"
  | JBool false => "false"
  | JStr s => s
  end.

(** An array element or an absent one: [pieces[i]] is [undefined] out of
    range. *)
Definition of_option (o : option string) : JSVal :=
  match o with
  | Some s => JStr s
  | None => JUndefined
  end.

(** The property names every object literal inherits from
    [Object.prototype]. *)
Definition ObjectPrototype_keys : list string :=
  [ "constructor"; "hasOwnProperty"; "isPrototypeOf"; "propertyIsEnumerable";
    "toLocaleString"; "toString"; "valueOf"; "__proto__";
    "__defineGetter__"; "__defineSetter__"; "__lookupGetter__";
    "__lookupSetter__" ].

Definition inherited (k : string) : bool :=
  bool_decide (k ∈ ObjectPrototype_keys).

(** What [obj[k]] finds: an own property, a member of the prototype (a
    function, or the prototype object itself), or nothing. *)
Inductive JSProp (V : Type) : Type :=
  | Own (v : V)
  | Inherited
  | Missing.
Arguments Own {V} v.
Arguments Inherited {V}.
Arguments Missing {V}.

Definition js_get {V} (obj : gmap string V) (k : string) : JSProp V :=
  match obj !! k with
  | Some v => Own v
  | None => if inherited k then Inherited else Missing
  end.

(** [k in obj] *)
Definition js_in {V} (obj : gmap string V) (k : string) : bool :=
  match js_get obj k with
  | Missing => false
  | _ => true
  end.

(** ** Constants *)

Definition CBBKEY : string := "ComposerButtonBonanza".

Definition makeButtonIdentifier (buttonName : JSVal) : string :=
  CBBKEY +:+ "-btn-" +:+ to_string buttonName.

(** The [Action] enumeration: the kinds of button behaviour, as the strings
    found in a definition's [action] field. *)
Module Action.
Definition insert : string := "insert".
Definition surround : string := "surround".
Definition list : string := "list".
Definition toggleGroup : string := "toggleGroup".
End Action.

Inductive Place : Type := TOOLBAR | GEARMENU.

Global Instance Place_eq_dec : EqDecision Place.
Proof. solve_decision. Defined.

(** A section array: [[Place.TOOLBAR, "fontStyles"]] or [[Place.GEARMENU,]];
    the second component is [currentSection[1]]. *)
Definition SectionArray : Type := (Place * option string)%type.

Definition SECTIONS : gmap string SectionArray :=
  <["STYLES" := (TOOLBAR, Some "fontStyles")]>
  (<["INSERTIONS" := (TOOLBAR, Some "insertions")]>
  (<["EXTRAS" := (TOOLBAR, Some "extras")]>
  (<["GEARMENU" := (GEARMENU, None)]> ∅))).

(** ** String.prototype.split on a one-character separator *)

Fixpoint split (sep : ascii) (s : string) : list string :=
  match s with
  | EmptyString => [EmptyString]
  | String c rest =>
      if Ascii.eqb c sep then EmptyString :: split sep rest
      else match split sep rest with
           | p :: ps => String c p :: ps
           | [] => [String c EmptyString]
           end
  end.

(** ** parseLayoutEntry *)

Record ButtonSpec : Type := mkButtonSpec {
  name : option string;
  shortcut : option string;
  toggleGroup : option string;
}.

Record LayoutEntry : Type := mkLayoutEntry {
  allowDesktop : bool;
  allowMobile : bool;
  buttonSpec : ButtonSpec;
}.

Global Instance ButtonSpec_eq_dec : EqDecision ButtonSpec.
Proof. solve_decision. Defined.
Global Instance LayoutEntry_eq_dec : EqDecision LayoutEntry.
Proof. solve_decision. Defined.

(** [pieces.shift()] is [tail]; [pieces[i]] is [pieces !! i]. *)
Definition parseLayoutEntry (entry : string) : LayoutEntry :=
  let pieces := split "," entry in
  let '(allowD, allowM, pieces) :=
    if bool_decide (pieces !! 0%nat = Some "X") then (false, false, tail pieces)
    else if bool_decide (pieces !! 0%nat = Some "M") then (false, true, tail pieces)
    else if bool_decide (pieces !! 0%nat = Some "D") then (true, false, tail pieces)
    else (true, true, pieces) in
  {| allowDesktop := allowD;
     allowMobile := allowM;
     buttonSpec := {| name := pieces !! 0%nat;
                      shortcut := pieces !! 1%nat;
                      toggleGroup := pieces !! 2%nat |} |}.

(** ** Exceptions and mutable state

    A computation takes the state and returns the state it leaves behind
    together with a value or the exception it threw. *)

Inductive JSError : Type :=
  | UnknownButton (buttonName : JSVal)
  | UnknownPlacementType
  | NoButtonsInToggleGroup (groupName buttonName : string)
  | UnknownAction (buttonName : string) (action : JSVal)
  | TypeError (what : string)
  | SyntaxError (rule : string).

Inductive Result (A : Type) : Type :=
  | Ok (a : A)
  | Throw (e : JSError).
Arguments Ok {A} a.
Arguments Throw {A} e.

Definition Exec (S A : Type) : Type := S → S * Result A.

Definition ret {S A} (a : A) : Exec S A := λ st, (st, Ok a).

Definition throw {S A} (e : JSError) : Exec S A := λ st, (st, Throw e).

Definition bind {S A B} (c : Exec S A) (k : A → Exec S B) : Exec S B :=
  λ st, match c st with
        | (st', Ok a) => k a st'
        | (st', Throw e) => (st', Throw e)
        end.

Definition get {S} : Exec S S := λ st, (st, Ok st).

Definition modify {S} (f : S → S) : Exec S unit := λ st, (f st, Ok tt).

(** [try { c } catch (error) { handler(error) }] *)
Definition try_catch {S A} (c : Exec S A) (handler : JSError → Exec S A)
  : Exec S A :=
  λ st, match c st with
        | (st', Ok a) => (st', Ok a)
        | (st', Throw e) => handler e st'
        end.

Declare Scope exec_scope.
Delimit Scope exec_scope with exec.
Notation "x <- c ;; k" := (bind c (λ x, k))
  (at level 100, c at next level, right associativity) : exec_scope.
Notation "c ;; k" := (bind c (λ _, k))
  (at level 100, right associativity) : exec_scope.

(** [for (const x of xs) { body(x) }]; an exception leaves the loop. *)
Fixpoint for_of {S A} (xs : list A) (body : A → Exec S unit) : Exec S unit :=
  match xs with
  | [] => ret tt
  | x :: rest => (body x ;; for_of rest body)%exec
  end.

(** ** The placement plan and the parser's state *)

Record ToolbarEntry : Type := mkToolbarEntry {
  section : option string;
  placed : LayoutEntry;
}.

Record PlacementPlan : Type := mkPlan {
  toolbar : list ToolbarEntry;
  gearmenu : list LayoutEntry;
}.

(** One [console.error(CBBKEY, entry, error)] line; the entry is absent in
    the two registration loops, which log only the error. *)
Definition LogLine : Type := (option string * JSError)%type.

(** [currentSection] and [result] are the locals of [parseLayout];
    [TOGGLE_GROUPS] is the module-level table it fills.  A [buttonSpec] is
    never mutated after [parseLayoutEntry] builds it, so the object the
    plan and a toggle-group share is the same value in both. *)
Record ParseState : Type := mkParseState {
  currentSection : JSProp SectionArray;
  result : PlacementPlan;
  TOGGLE_GROUPS : gmap string (list ButtonSpec);
  console : list LogLine;
}.

Definition set_currentSection (cs : JSProp SectionArray) (st : ParseState) :=
  mkParseState cs (result st) (TOGGLE_GROUPS st) (console st).

Definition set_result (r : PlacementPlan) (st : ParseState) :=
  mkParseState (currentSection st) r (TOGGLE_GROUPS st) (console st).

Definition set_TOGGLE_GROUPS (tg : gmap string (list ButtonSpec))
    (st : ParseState) :=
  mkParseState (currentSection st) (result st) tg (console st).

Definition console_error (line : LogLine) (st : ParseState) :=
  mkParseState (currentSection st) (result st) (TOGGLE_GROUPS st)
               (console st ++ [line]).

(** [TOGGLE_GROUPS[g] ||= []]: assigns only when the lookup is falsy; an
    array and a prototype member are both truthy. *)
Definition ensure_group (g : string) : Exec ParseState unit :=
  λ st, match js_get (TOGGLE_GROUPS st) g with
        | Missing => (set_TOGGLE_GROUPS (<[g := []]> (TOGGLE_GROUPS st)) st, Ok tt)
        | _ => (st, Ok tt)
        end.

(** [TOGGLE_GROUPS[g].push(spec)]: a prototype member has no [push]. *)
Definition push_member (g : string) (spec : ButtonSpec) : Exec ParseState unit :=
  λ st, match js_get (TOGGLE_GROUPS st) g with
        | Own members =>
            (set_TOGGLE_GROUPS (<[g := members ++ [spec]]> (TOGGLE_GROUPS st)) st,
             Ok tt)
        | Inherited => (st, Throw (TypeError "TOGGLE_GROUPS[toggleGroup].push is not a function"))
        | Missing => (st, Throw (TypeError "TOGGLE_GROUPS[toggleGroup] is undefined"))
        end.

(** [switch (currentSection[0])] with its two [push] cases and the throwing
    default; index 0 of a prototype member is [undefined]. *)
Definition place_entry (e : LayoutEntry) : Exec ParseState unit :=
  λ st, match currentSection st with
        | Own (TOOLBAR, zone) =>
            (set_result (mkPlan (toolbar (result st) ++ [mkToolbarEntry zone e])
                                (gearmenu (result st))) st, Ok tt)
        | Own (GEARMENU, _) =>
            (set_result (mkPlan (toolbar (result st))
                                (gearmenu (result st) ++ [e])) st, Ok tt)
        | _ => (st, Throw UnknownPlacementType)
        end.

Section Parser.

(** [BUTTONS] is read, never written, by the parser; only its keys
    matter here. *)
Context {Def : Type} (BUTTONS : gmap string Def).

(** The body of the [try] block, for one [entry]. *)
Definition parseLayout_try (entry : string) : Exec ParseState unit :=
  if js_in SECTIONS entry then
    modify (set_currentSection (js_get SECTIONS entry))
  else
    let e := parseLayoutEntry entry in
    let spec := buttonSpec e in
    if negb (js_in BUTTONS (to_string (of_option (name spec)))) then
      throw (UnknownButton (of_option (name spec)))
    else
      ((if truthy (of_option (toggleGroup spec)) then
          let g := to_string (of_option (toggleGroup spec)) in
          (ensure_group g ;; push_member g spec)
        else ret tt) ;;
       place_entry e)%exec.

Definition parseLayout_iteration (entry : string) : Exec ParseState unit :=
  try_catch (parseLayout_try entry)
            (λ error, modify (console_error (Some entry, error))).

Definition parseLayout_loop (entries : list string) : Exec ParseState unit :=
  for_of entries parseLayout_iteration.

(** [parseLayout]: the state in which the loop ends.  The function
    returns its [result]; [TOGGLE_GROUPS] and [console] are what it did
    to the module and to the log. *)
Definition parseLayout (layout : string)
    (groups : gmap string (list ButtonSpec)) (log : list LogLine)
  : ParseState :=
  fst (parseLayout_loop (split "|" layout)
         (mkParseState (Own (TOOLBAR, Some "extras")) (mkPlan [] []) groups log)).

End Parser.

(** ** What the parser's loop computes, token by token *)

Definition members (groups : gmap string (list ButtonSpec)) (g : string)
  : list ButtonSpec :=
  default [] (groups !! g).

(** [TOGGLE_GROUPS[g].push] throws exactly when [g] is found on the
    prototype and not in the table itself. *)
Definition push_throws (groups : gmap string (list ButtonSpec)) (g : string)
  : bool :=
  match js_get groups g with
  | Inherited => true
  | _ => false
  end.

(** The toggle-group an entry registers in: its third field, when truthy. *)
Definition declared_group (spec : ButtonSpec) : option string :=
  match toggleGroup spec with
  | Some g => if String.eqb g "" then None else Some g
  | None => None
  end.

Definition group_refused (groups : gmap string (list ButtonSpec))
    (spec : ButtonSpec) : bool :=
  match declared_group spec with
  | Some g => push_throws groups g
  | None => false
  end.

Definition is_own {V} (p : JSProp V) : bool :=
  match p with
  | Own _ => true
  | _ => false
  end.

Definition toolbar_of (cur : JSProp SectionArray) (e : LayoutEntry)
  : list ToolbarEntry :=
  match cur with
  | Own (TOOLBAR, zone) => [mkToolbarEntry zone e]
  | _ => []
  end.

Definition gearmenu_of (cur : JSProp SectionArray) (e : LayoutEntry)
  : list LayoutEntry :=
  match cur with
  | Own (GEARMENU, _) => [e]
  | _ => []
  end.

(** The button-entry tokens of a layout, each with the placement target
    that is current when the loop reaches it. *)
Fixpoint button_entries (cur : JSProp SectionArray) (tokens : list string)
  : list (JSProp SectionArray * LayoutEntry) :=
  match tokens with
  | [] => []
  | t :: rest =>
      if js_in SECTIONS t then button_entries (js_get SECTIONS t) rest
      else (cur, parseLayoutEntry t) :: button_entries cur rest
  end.

Section ParserReference.

Context {Def : Type} (BUTTONS : gmap string Def).

Definition known (spec : ButtonSpec) : bool :=
  js_in BUTTONS (to_string (of_option (name spec))).

(** A button entry passes the button check and its group registration. *)
Definition registered (groups : gmap string (list ButtonSpec))
    (spec : ButtonSpec) : bool :=
  known spec && negb (group_refused groups spec).

Definition joins (groups : gmap string (list ButtonSpec)) (g : string)
    (spec : ButtonSpec) : bool :=
  registered groups spec && bool_decide (declared_group spec = Some g).

(** The state after one iteration, written out by cases. *)
Definition iteration_effect (entry : string) (st : ParseState) : ParseState :=
  if js_in SECTIONS entry then set_currentSection (js_get SECTIONS entry) st
  else
    let e := parseLayoutEntry entry in
    let spec := buttonSpec e in
    if negb (known spec) then
      console_error (Some entry, UnknownButton (of_option (name spec))) st
    else if group_refused (TOGGLE_GROUPS st) spec then
      console_error
        (Some entry,
         TypeError "TOGGLE_GROUPS[toggleGroup].push is not a function") st
    else
      let st1 :=
        match declared_group spec with
        | Some g =>
            set_TOGGLE_GROUPS
              (<[g := members (TOGGLE_GROUPS st) g ++ [spec]]> (TOGGLE_GROUPS st))
              st
        | None => st
        end in
      if is_own (currentSection st1) then
        set_result
          (mkPlan (toolbar (result st1) ++ toolbar_of (currentSection st1) e)
                  (gearmenu (result st1) ++ gearmenu_of (currentSection st1) e))
          st1
      else console_error (Some entry, UnknownPlacementType) st1.

Definition on_toolbar (cur : JSProp SectionArray) : bool :=
  match cur with
  | Own (TOOLBAR, _) => true
  | _ => false
  end.

Definition on_gearmenu (cur : JSProp SectionArray) : bool :=
  match cur with
  | Own (GEARMENU, _) => true
  | _ => false
  end.

Definition zone_of (cur : JSProp SectionArray) : option string :=
  match cur with
  | Own (_, zone) => zone
  | _ => None
  end.

Definition planned_toolbar (groups : gmap string (list ButtonSpec))
    (entries : list (JSProp SectionArray * LayoutEntry)) : list ToolbarEntry :=
  (λ p, mkToolbarEntry (zone_of p.1) p.2)
    <$> filter (λ p, registered groups (buttonSpec p.2) && on_toolbar p.1 = true)
               entries.

Definition planned_gearmenu (groups : gmap string (list ButtonSpec))
    (entries : list (JSProp SectionArray * LayoutEntry)) : list LayoutEntry :=
  snd <$> filter (λ p, registered groups (buttonSpec p.2) && on_gearmenu p.1 = true)
                 entries.

Definition group_joiners (groups : gmap string (list ButtonSpec)) (g : string)
    (entries : list (JSProp SectionArray * LayoutEntry)) : list ButtonSpec :=
  filter (λ spec, joins groups g spec = true) ((λ p, buttonSpec p.2) <$> entries).

(** Every list in the table has at least one member. *)
Definition groups_nonempty (groups : gmap string (list ButtonSpec)) : Prop :=
  ∀ g l, groups !! g = Some l → l ≠ [].

End ParserReference.

(** ** Settings *)

(** Modelled from the spec: the schema of the [buttons] and [translations]
    settings (settings.yml) is not among the sources.  A button definition
    has a name and, per spec section 3, a behaviour kind, kind-specific
    parameters, a title, an optional non-icon label, an icon and an optional
    popup hover text; any of these may be absent ([JUndefined]).  A
    translation override maps a key to replacement text. *)
Record ButtonDefinition : Type := mkDefinition {
  def_name : string;
  def_action : JSVal;
  def_prefix : JSVal;
  def_suffix : JSVal;
  def_exampleText : JSVal;
  def_lineMode : JSVal;
  def_groupName : JSVal;
  def_startHidden : JSVal;
  def_title : JSVal;
  def_nonIcon : JSVal;
  def_svg_icon : JSVal;
  def_popupHover : JSVal;
}.

Record TranslationEntry : Type := mkTranslation {
  key : string;
  value : string;
}.

Record LocaleTranslations : Type := mkLocale {
  locale : string;
  translations : list TranslationEntry;
}.

Record Settings : Type := mkSettings {
  buttons : list ButtonDefinition;
  translations_setting : list LocaleTranslations;
  layout : string;
}.

(** [definition.field]: a member of the prototype has none of the fields. *)
Definition field (f : ButtonDefinition → JSVal)
    (definition : JSProp ButtonDefinition) : JSVal :=
  match definition with
  | Own d => f d
  | _ => JUndefined
  end.

(** ** applyTranslation *)

Definition applyTranslation (TRANSLATIONS : option (list TranslationEntry))
    (defaultValue : JSVal) (buttonName paramName : string) : JSVal :=
  match TRANSLATIONS with
  | None => defaultValue
  | Some table =>
      let k := buttonName +:+ "." +:+ paramName in
      let translation :=
        match List.find (λ e, String.eqb (key e) k) table with
        | Some e => JStr (value e)
        | None => JUndefined
        end in
      nullish_or translation defaultValue
  end.

(** ** trimLeading *)

(** A selection: [start] is an offset into the text, [value] the selected
    text as UTF-16 code units. *)
Record Selection : Type := mkSelection {
  start : Z;
  sel_value : list N;
}.

(** The code units matched by the regular expression [\s]. *)
Definition is_whitespace (c : N) : bool :=
  ((9 <=? c) && (c <=? 13) || (c =? 32) || (c =? 160) || (c =? 5760)
   || (8192 <=? c) && (c <=? 8202) || (c =? 8232) || (c =? 8233)
   || (c =? 8239) || (c =? 8287) || (c =? 12288) || (c =? 65279))%N.

(** The [while] loop: each round tests [freshStart < value.length] and the
    code unit at [freshStart], and advances by one. *)
Fixpoint trimLeading_loop (rounds : nat) (v : list N) (freshStart : nat) : nat :=
  match rounds with
  | O => freshStart
  | S rounds' =>
      if bool_decide (freshStart < length v)%nat
         && default false (is_whitespace <$> v !! freshStart)
      then trimLeading_loop rounds' v (S freshStart)
      else freshStart
  end.

(** The loop leaves after at most [value.length] rounds. *)
Definition trimLeading (selection : Selection) : Selection :=
  let freshStart :=
    trimLeading_loop (length (sel_value selection)) (sel_value selection) 0 in
  if bool_decide (0 < freshStart)%nat then
    {| start := start selection + Z.of_nat freshStart;
       sel_value := drop freshStart (sel_value selection) |}
  else selection.

(** ** Closures, the edit context and the host's surfaces *)

(** The calls a callback makes on the [toolbarEvent] it is given. *)
Inductive EditCall : Type :=
  | addText (text : JSVal)
  | applySurround (head tail : JSVal) (exampleTextKey : option string)
                  (multiline useBlockMode : bool)
  | applyList (head : JSVal) (exampleTextKey : option string)
              (multiline useBlockMode : bool).

Record ToolbarEvent : Type := mkEvent {
  selected : Selection;
  calls : list EditCall;
}.

(** The callbacks the [make*Action] functions return, with what each one
    captured.  A toggle callback captures the variable [isHidden] and the
    [stylesheet] object; [ToggleAction n] refers to the [n]-th such pair. *)
Inductive Callback : Type :=
  | InsertAction (text : JSVal)
  | SurroundAction (head tail : JSVal) (exampleTextKey : option string)
                   (lineMode : JSVal)
  | ListAction (head : JSVal) (exampleTextKey : option string)
               (lineMode : JSVal)
  | ToggleAction (closure : nat).

Record CSSStyleSheet : Type := mkSheet {
  disabled : bool;
  cssRules : list string;
}.

(** What one call of [makeToggleAction] created: its local [isHidden] and
    the stylesheet it pushed onto [document.adoptedStyleSheets]. *)
Record ToggleClosure : Type := mkToggle {
  isHidden : bool;
  stylesheet : CSSStyleSheet;
}.

(** The [action] of a popup-menu option. *)
Inductive ClickHandler : Type :=
  | TrimThen (action : Callback).

(** The [condition] of a popup-menu option, with the two flags it captured. *)
Inductive Condition : Type :=
  | ViewportCondition (allowDesktop allowMobile : bool).

Record ToolbarButton : Type := mkToolbarButton {
  tb_id : string;
  tb_group : option string;
  tb_icon : JSVal;
  tb_label : option string;
  tb_title : string;
  tb_shortcut : option string;
  tb_perform : Callback;
  tb_preventFocus : bool;
  tb_trimLeading : bool;
}.

Record PopupMenuOption : Type := mkPopupMenuOption {
  pm_icon : JSVal;
  pm_label : string;
  pm_title : string;
  pm_name : string;
  pm_shortcut : option string;
  pm_action : ClickHandler;
  pm_condition : Condition;
}.

(** The names of the properties the code writes with [setI18nProperty]:
    every call passes one of these four literals. *)
Inductive PropName : Type :=
  | PropTitle
  | PropExampleText
  | PropNonIcon
  | PropHover.

Global Instance PropName_eq_dec : EqDecision PropName.
Proof. solve_decision. Defined.

Global Instance PropName_countable : Countable PropName.
Proof.
  refine (inj_countable'
            (λ p, match p with
                  | PropTitle => 0%nat | PropExampleText => 1%nat
                  | PropNonIcon => 2%nat | PropHover => 3%nat
                  end)
            (λ n, match n with
                  | 0%nat => PropTitle | 1%nat => PropExampleText
                  | 2%nat => PropNonIcon | _ => PropHover
                  end) _).
  by intros [].
Defined.

Definition prop_name (p : PropName) : string :=
  match p with
  | PropTitle => "title"
  | PropExampleText => "exampleText"
  | PropNonIcon => "nonIcon"
  | PropHover => "hover"
  end.

Definition prop_of_name (k : string) : option PropName :=
  if bool_decide (k = "title") then Some PropTitle
  else if bool_decide (k = "exampleText") then Some PropExampleText
  else if bool_decide (k = "nonIcon") then Some PropNonIcon
  else if bool_decide (k = "hover") then Some PropHover
  else None.

(** Everything the registration code mutates, and the host it runs on: the
    [i18nProperties] table, the toggle closures with their stylesheets, the
    options registered with [api.addComposerToolbarPopupMenuOption], the
    buttons added to the toolbar being created, and the error log; the
    properties the code has added to [Object.prototype] itself and to the
    functions that are its members, which every plain object of the page
    shares; and the host's CSS parser, as the test of whether
    [insertRule] accepts the text of a rule. *)
Record World : Type := mkWorld {
  i18nProperties : gmap string (gmap string JSVal);
  toggles : list ToggleClosure;
  popupMenuOptions : list PopupMenuOption;
  toolbarButtons : list ToolbarButton;
  consoleLog : list LogLine;
  prototypeProperties : gmap PropName JSVal;
  memberProperties : gmap string (gmap PropName JSVal);
  acceptsRule : string → bool;
}.

Definition adoptedStyleSheets (w : World) : list CSSStyleSheet :=
  stylesheet <$> toggles w.

Definition set_i18nProperties (t : gmap string (gmap string JSVal)) (w : World) :=
  mkWorld t (toggles w) (popupMenuOptions w) (toolbarButtons w) (consoleLog w)
          (prototypeProperties w) (memberProperties w) (acceptsRule w).

Definition set_toggles (ts : list ToggleClosure) (w : World) :=
  mkWorld (i18nProperties w) ts (popupMenuOptions w) (toolbarButtons w)
          (consoleLog w)
          (prototypeProperties w) (memberProperties w) (acceptsRule w).

Definition set_popupMenuOptions (os : list PopupMenuOption) (w : World) :=
  mkWorld (i18nProperties w) (toggles w) os (toolbarButtons w) (consoleLog w)
          (prototypeProperties w) (memberProperties w) (acceptsRule w).

Definition set_toolbarButtons (bs : list ToolbarButton) (w : World) :=
  mkWorld (i18nProperties w) (toggles w) (popupMenuOptions w) bs (consoleLog w)
          (prototypeProperties w) (memberProperties w) (acceptsRule w).

Definition log_error (line : LogLine) (w : World) :=
  mkWorld (i18nProperties w) (toggles w) (popupMenuOptions w) (toolbarButtons w)
          (consoleLog w ++ [line])
          (prototypeProperties w) (memberProperties w) (acceptsRule w).

Definition set_prototypeProperties (ps : gmap PropName JSVal) (w : World) :=
  mkWorld (i18nProperties w) (toggles w) (popupMenuOptions w) (toolbarButtons w)
          (consoleLog w) ps (memberProperties w) (acceptsRule w).

Definition set_memberProperties (ms : gmap string (gmap PropName JSVal))
    (w : World) :=
  mkWorld (i18nProperties w) (toggles w) (popupMenuOptions w) (toolbarButtons w)
          (consoleLog w) (prototypeProperties w) ms (acceptsRule w).

(** ** Lookups once the code is running

    [parseLayout] runs before anything is written, when [Object.prototype]
    has the members [inherited] lists.  The registration code runs later,
    and by then [setI18nProperty] may have added properties of its own to
    [Object.prototype]: a lookup that misses the object's own properties
    continues there. *)

(** What a name finds on [Object.prototype]: the prototype object itself
    (through the accessor [__proto__]), one of its functions, or a value
    the code has put there. *)
Inductive Heir : Type :=
  | ProtoItself
  | ProtoFunction (k : string)
  | ProtoValue (v : JSVal).

Definition heir (w : World) (k : string) : option Heir :=
  if bool_decide (k = "__proto__") then Some ProtoItself
  else if inherited k then Some (ProtoFunction k)
  else p ← prop_of_name k; ProtoValue <$> prototypeProperties w !! p.

(** Whether the code has added a property of this name to
    [Object.prototype]. *)
Definition polluted (w : World) (k : string) : bool :=
  bool_decide (is_Some (p ← prop_of_name k; prototypeProperties w !! p)).

(** [obj[k]] as a value: [Missing] stands for [undefined] and [null]. *)
Definition js_get_in {V} (w : World) (obj : gmap string V) (k : string)
  : JSProp V :=
  match obj !! k with
  | Some v => Own v
  | None =>
      match heir w k with
      | None | Some (ProtoValue JUndefined) | Some (ProtoValue JNull) => Missing
      | Some _ => Inherited
      end
  end.

(** [Object.prototype[p]] *)
Definition proto_value (w : World) (p : PropName) : JSVal :=
  default JUndefined (prototypeProperties w !! p).

(** A field of a record from the settings that may be absent: the settings
    are JSON, so a field that reads [undefined] is not an own property and
    the read continues on [Object.prototype]. *)
Definition own_or_inherited (w : World) (p : PropName) (v : JSVal) : JSVal :=
  match v with
  | JUndefined => proto_value w p
  | _ => v
  end.

(** ** setI18nProperty

    [i18nProperties[buttonName] ||= {}] creates the button's record unless
    the lookup is already truthy; the assignment that follows lands on
    whatever the lookup finds.  For a name inherited from
    [Object.prototype] that is the prototype object itself or one of its
    functions, or a value the code has put there itself; assigning a
    property to a string or a boolean throws in a module, which is strict
    code. *)
Inductive WriteTarget : Type :=
  | OwnRecord (props : gmap string JSVal)
  | NewRecord
  | ThePrototype
  | MemberFunction (k : string)
  | Primitive.

Definition write_target (w : World) (buttonName : string) : WriteTarget :=
  match i18nProperties w !! buttonName with
  | Some props => OwnRecord props
  | None =>
      match heir w buttonName with
      | Some ProtoItself => ThePrototype
      | Some (ProtoFunction k) => MemberFunction k
      | Some (ProtoValue x) => if truthy x then Primitive else NewRecord
      | None => NewRecord
      end
  end.

Definition setI18nProperty (buttonName : string) (propName : PropName)
    (propValue : JSVal) : Exec World (option string) :=
  if negb (truthy propValue) then ret None
  else
    (w <- get ;;
     match write_target w buttonName with
     | OwnRecord props =>
         modify (set_i18nProperties
                   (<[buttonName := <[prop_name propName := propValue]> props]>
                      (i18nProperties w)))
     | NewRecord =>
         modify (set_i18nProperties
                   (<[buttonName := {[prop_name propName := propValue]}]>
                      (i18nProperties w)))
     | ThePrototype =>
         modify (set_prototypeProperties
                   (<[propName := propValue]> (prototypeProperties w)))
     | MemberFunction k =>
         modify (set_memberProperties
                   (<[k := <[propName := propValue]>
                             (default ∅ (memberProperties w !! k))]>
                      (memberProperties w)))
     | Primitive =>
         throw (TypeError "cannot create a property on a primitive value")
     end ;;
     ret (Some (CBBKEY +:+ "." +:+ buttonName +:+ "." +:+ prop_name propName)))%exec.

(** [`composer.${k}`], where [k] may be [null]. *)
Definition composer_key (k : option string) : string :=
  "composer." +:+ default "null" k.

(** ** The action constructors *)

Definition makeInsertAction (buttonName : string) (text : JSVal) : Callback :=
  InsertAction text.

Definition makeSurroundAction (buttonName : string)
    (head tail exampleText lineMode : JSVal) : Exec World Callback :=
  (exampleTextKey <- setI18nProperty buttonName PropExampleText exampleText ;;
   ret (SurroundAction head tail exampleTextKey lineMode))%exec.

Definition makeListAction (buttonName : string)
    (head exampleText lineMode : JSVal) : Exec World Callback :=
  (exampleTextKey <- setI18nProperty buttonName PropExampleText exampleText ;;
   ret (ListAction head exampleTextKey lineMode))%exec.

Definition double_quote : string := String (ascii_of_nat 34) EmptyString.

(** The two rules that hide a button: by its class, and by its
    [data-name] attribute.  The identifier goes into the rule's text as it
    is. *)
Definition class_rule (buttonName : JSVal) : string :=
  "." +:+ makeButtonIdentifier buttonName +:+ " { display: none !important; }".

Definition data_name_rule (buttonName : JSVal) : string :=
  "[data-name=" +:+ double_quote +:+ makeButtonIdentifier buttonName
  +:+ double_quote +:+ "] { display: none !important; }".

(** [stylesheet.insertRule(rule)]: the host parses the rule and throws a
    [SyntaxError] when it cannot; the index defaults to 0, so an accepted
    rule goes in front.  The sheet keeps the rule's text. *)
Definition insertRule (accepts : string → bool) (rule : string)
    (sheet : CSSStyleSheet) : Result CSSStyleSheet :=
  if accepts rule
  then Ok {| disabled := disabled sheet; cssRules := rule :: cssRules sheet |}
  else Throw (SyntaxError rule).

(** One round of the loop of [makeToggleAction]: the class rule, then the
    [data-name] rule. *)
Definition hide_rules (accepts : string → bool) (buttonName : JSVal)
    (sheet : CSSStyleSheet) : Result CSSStyleSheet :=
  match insertRule accepts (class_rule buttonName) sheet with
  | Ok sheet' => insertRule accepts (data_name_rule buttonName) sheet'
  | Throw e => Throw e
  end.

(** The loop: the first rule the host refuses ends it. *)
Fixpoint insert_hide_rules (accepts : string → bool) (names : list JSVal)
    (sheet : CSSStyleSheet) : Result CSSStyleSheet :=
  match names with
  | [] => Ok sheet
  | n :: rest =>
      match hide_rules accepts n sheet with
      | Ok sheet' => insert_hide_rules accepts rest sheet'
      | Throw e => Throw e
      end
  end.

(** Strings hold the UTF-8 encoding of their text.  [for ... of] over a
    string goes by code point: one round for every byte that is not a
    continuation byte. *)
Definition continuation_byte (c : ascii) : bool :=
  (128 <=? nat_of_ascii c)%nat && (nat_of_ascii c <? 192)%nat.

Fixpoint code_points (s : string) : nat :=
  match s with
  | EmptyString => 0
  | String c rest => (if continuation_byte c then 0 else 1) + code_points rest
  end.

Section Resolver.

(** The module-level tables as the initializer leaves them; none of the
    functions below writes to them.  [global_name] is the value of the
    free identifier [name], which in the browser is the global
    [window.name], a string. *)
Context (BUTTONS : gmap string ButtonDefinition)
        (TRANSLATIONS : option (list TranslationEntry))
        (groups : gmap string (list ButtonSpec))
        (global_name : string).

(** What the [for ... of] of [makeToggleAction] goes through, as the
    [spec.name] of each round, once the test [!TOGGLE_GROUPS[groupName]]
    has let the lookup pass.  A group of the table gives its members'
    names.  A name that only [Object.prototype] has gives the prototype or
    one of its functions, which are not iterable, or a value the code has
    put there: a string is iterated by code point, and a one-character
    string has no [name]. *)
Definition iterated_names (w : World) (buttonName groupName : string)
  : Result (list JSVal) :=
  match groups !! groupName with
  | Some group => Ok ((λ spec, of_option (name spec)) <$> group)
  | None =>
      match heir w groupName with
      | None => Throw (NoButtonsInToggleGroup groupName buttonName)
      | Some (ProtoValue v) =>
          if truthy v then
            match v with
            | JStr s => Ok (replicate (code_points s) JUndefined)
            | _ => Throw (TypeError "TOGGLE_GROUPS[groupName] is not iterable")
            end
          else Throw (NoButtonsInToggleGroup groupName buttonName)
      | Some _ => Throw (TypeError "TOGGLE_GROUPS[groupName] is not iterable")
      end
  end.

(** The stylesheet is adopted only after the loop: when a rule is refused
    nothing has changed. *)
Definition makeToggleAction (buttonName : string)
    (groupName startHidden : JSVal) : Exec World Callback :=
  (w <- get ;;
   match iterated_names w buttonName (to_string groupName) with
   | Throw e => throw e
   | Ok names =>
       let isHidden := truthy startHidden in
       match insert_hide_rules (acceptsRule w) names
               (mkSheet (negb isHidden) []) with
       | Throw e => throw e
       | Ok stylesheet =>
           (modify (set_toggles (toggles w ++ [mkToggle isHidden stylesheet])) ;;
            ret (ToggleAction (length (toggles w))))
       end
   end)%exec.

(** What [definition[p]] reads for one of the property names the code
    also writes, where [definition] is [BUTTONS[buttonName]]: a record of
    the settings, or what the name finds on [Object.prototype]. *)
Definition definition_prop (w : World) (buttonName : string)
    (definition : JSProp ButtonDefinition) (p : PropName)
    (f : ButtonDefinition → JSVal) : JSVal :=
  match definition with
  | Own d => own_or_inherited w p (f d)
  | Inherited =>
      match heir w buttonName with
      | Some (ProtoFunction k) =>
          default (proto_value w p) (memberProperties w !! k ≫= (.!! p))
      | _ => proto_value w p
      end
  | Missing => JUndefined
  end.

(** The [switch] compares [definition.action] with the four members of
    the [Action] enumeration by strict equality; anything else reaches
    the throwing [default].  Reading [definition.action] of [undefined]
    is a TypeError.  None of the fields read here but [exampleText] has a
    name that the code ever writes. *)
Definition makeAction (buttonName : string)
    (definition : JSProp ButtonDefinition) : Exec World Callback :=
  let translated f param :=
    applyTranslation TRANSLATIONS (field f definition) buttonName param in
  let exampleText w :=
    applyTranslation TRANSLATIONS
      (definition_prop w buttonName definition PropExampleText def_exampleText)
      buttonName "exampleText" in
  let action := field def_action definition in
  match definition with
  | Missing => throw (TypeError "definition is undefined")
  | _ =>
      if bool_decide (action = JStr Action.insert) then
        ret (makeInsertAction buttonName (translated def_prefix "prefix"))
      else if bool_decide (action = JStr Action.surround) then
        (w <- get ;;
         makeSurroundAction buttonName
           (translated def_prefix "prefix")
           (translated def_suffix "suffix")
           (exampleText w)
           (field def_lineMode definition))%exec
      else if bool_decide (action = JStr Action.list) then
        (w <- get ;;
         makeListAction buttonName
           (translated def_prefix "prefix")
           (exampleText w)
           (field def_lineMode definition))%exec
      else if bool_decide (action = JStr Action.toggleGroup) then
        makeToggleAction buttonName
          (translated def_groupName "groupName")
          (translated def_startHidden "startHidden")
      else throw (UnknownAction buttonName action)
  end.

Record CommonButtonOptions : Type := mkCommon {
  co_icon : JSVal;
  co_nonIconKey : option string;
  co_titleKey : string;
  co_elementId : string;
  co_action : Callback;
  co_buttonName : string;
  co_definition : JSProp ButtonDefinition;
}.

(** [buttonSpec.name] is used as a property key and inside template
    literals only, so it is converted to a string once.  Reading
    [definition.title] of a missing definition is a TypeError. *)
Definition makeCommonButtonOptions (spec : ButtonSpec)
  : Exec World CommonButtonOptions :=
  let buttonName := to_string (of_option (name spec)) in
  (w <- get ;;
   let definition := js_get_in w BUTTONS buttonName in
   match definition with
   | Missing => throw (TypeError "definition is undefined")
   | _ =>
       titleKey <- setI18nProperty buttonName PropTitle
                     (applyTranslation TRANSLATIONS
                        (definition_prop w buttonName definition PropTitle
                                         def_title)
                        buttonName "title") ;;
       action <- makeAction buttonName definition ;;
       w' <- get ;;
       nonIconKey <- setI18nProperty buttonName PropNonIcon
                       (applyTranslation TRANSLATIONS
                          (definition_prop w' buttonName definition PropNonIcon
                                           def_nonIcon)
                          buttonName "nonIcon") ;;
       ret {| co_icon := field def_svg_icon definition;
              co_nonIconKey := (λ k, composer_key (Some k)) <$> nonIconKey;
              co_titleKey := composer_key titleKey;
              co_elementId := makeButtonIdentifier (of_option (name spec));
              co_action := action;
              co_buttonName := buttonName;
              co_definition := definition |}
   end)%exec.

(** [toolbar.addButton({...})] appends to the toolbar being created. *)
Definition addToolbarButton (toolbarGroup : option string) (spec : ButtonSpec)
  : Exec World unit :=
  (o <- makeCommonButtonOptions spec ;;
   modify (λ w,
     set_toolbarButtons
       (toolbarButtons w
        ++ [ {| tb_id := co_elementId o;
                tb_group := toolbarGroup;
                tb_icon := match co_nonIconKey o with
                           | Some _ => JNull
                           | None => co_icon o
                           end;
                tb_label := co_nonIconKey o;
                tb_title := co_titleKey o;
                tb_shortcut := shortcut spec;
                tb_perform := co_action o;
                tb_preventFocus := true;
                tb_trimLeading := true |} ]) w))%exec.

(** The option's [name] field is the free identifier [name]: none of the
    destructured constants has that name, so it is looked up in the
    global scope.  [popupHover] is not a name the code writes. *)
Definition addPopupMenuButtonWithCondition (spec : ButtonSpec)
    (allowDesktop allowMobile : bool) : Exec World unit :=
  (o <- makeCommonButtonOptions spec ;;
   hoverKey <- setI18nProperty (co_buttonName o) PropHover
                 (applyTranslation TRANSLATIONS
                    (field def_popupHover (co_definition o))
                    (co_buttonName o) "popupHover") ;;
   modify (λ w,
     set_popupMenuOptions
       (popupMenuOptions w
        ++ [ {| pm_icon := co_icon o;
                pm_label := co_titleKey o;
                pm_title := match hoverKey with
                            | Some k => composer_key (Some k)
                            | None => co_titleKey o
                            end;
                pm_name := global_name;
                pm_shortcut := shortcut spec;
                pm_action := TrimThen (co_action o);
                pm_condition := ViewportCondition allowDesktop allowMobile
             |} ]) w))%exec.

End Resolver.

(** ** Running the callbacks *)

(** [lineMode === "multiline"] and [lineMode === "block"] *)
Definition is_mode (mode : string) (lineMode : JSVal) : bool :=
  bool_decide (lineMode = JStr mode).

(** The toggle callback: [isHidden = !isHidden; stylesheet.disabled =
    !isHidden]. *)
Definition flip (c : ToggleClosure) : ToggleClosure :=
  let isHidden' := negb (isHidden c) in
  {| isHidden := isHidden';
     stylesheet := {| disabled := negb isHidden';
                      cssRules := cssRules (stylesheet c) |} |}.

Definition record_call (c : EditCall) (ev : ToolbarEvent) : ToolbarEvent :=
  {| selected := selected ev; calls := calls ev ++ [c] |}.

(** Calling an action on a [toolbarEvent]. *)
Definition perform (a : Callback) (ev : ToolbarEvent) (w : World)
  : ToolbarEvent * World :=
  match a with
  | InsertAction text => (record_call (addText text) ev, w)
  | SurroundAction head tail k lineMode =>
      (record_call (applySurround head tail k (is_mode "multiline" lineMode)
                                  (is_mode "block" lineMode)) ev, w)
  | ListAction head k lineMode =>
      (record_call (applyList head k (is_mode "multiline" lineMode)
                              (is_mode "block" lineMode)) ev, w)
  | ToggleAction n => (ev, set_toggles (alter flip n (toggles w)) w)
  end.

(** The popup option's [action]: [trimLeading(toolbarEvent.selected);
    action(toolbarEvent)]. *)
Definition click (h : ClickHandler) (ev : ToolbarEvent) (w : World)
  : ToolbarEvent * World :=
  match h with
  | TrimThen a =>
      perform a {| selected := trimLeading (selected ev); calls := calls ev |} w
  end.

(** The popup option's [condition], given [!!composer.site.desktopView]. *)
Definition condition_holds (c : Condition) (isDesktop : bool) : bool :=
  match c with
  | ViewportCondition allowDesktop allowMobile =>
      (isDesktop && allowDesktop) || (negb isDesktop && allowMobile)
  end.

(** ** The initializer *)

(** What the browser and the forum provide: the current locale, the
    global [window.name], and the CSS parser behind [insertRule]. *)
Record Host : Type := mkHost {
  currentLocale : string;
  window_name : string;
  insertRule_accepts : string → bool;
}.

(** [Object.fromEntries(settings.buttons.map((s) => [s.name, s]))]: a later
    definition replaces an earlier one of the same name. *)
Definition buttons_table (bs : list ButtonDefinition)
  : gmap string ButtonDefinition :=
  foldl (λ table s, <[def_name s := s]> table) ∅ bs.

(** [settings.translations.find((t) => t.locale === I18n.currentLocale())
    ?.translations] *)
Definition locale_table (ts : list LocaleTranslations) (loc : string)
  : option (list TranslationEntry) :=
  translations <$> List.find (λ t, String.eqb (locale t) loc) ts.

(** What the initializer leaves in the module's variables. *)
Record Component : Type := mkComponent {
  comp_BUTTONS : gmap string ButtonDefinition;
  comp_TRANSLATIONS : option (list TranslationEntry);
  comp_TOGGLE_GROUPS : gmap string (list ButtonSpec);
  comp_layout : PlacementPlan;
  comp_name : string;
}.

(** The page before the code has registered anything: nothing has been
    added to [Object.prototype]. *)
Definition empty_world (accepts : string → bool) (log : list LogLine) : World :=
  mkWorld ∅ [] [] [] log ∅ ∅ accepts.

(** The loop over [layout.gearmenu], each registration in its own [try]. *)
Definition register_popups (c : Component) : Exec World unit :=
  for_of (gearmenu (comp_layout c)) (λ e,
    try_catch
      (addPopupMenuButtonWithCondition (comp_BUTTONS c) (comp_TRANSLATIONS c)
         (comp_TOGGLE_GROUPS c) (comp_name c)
         (buttonSpec e) (allowDesktop e) (allowMobile e))
      (λ error, modify (log_error (None, error)))).

Definition initialize (settings : Settings) (host : Host) : Component * World :=
  let BUTTONS := buttons_table (buttons settings) in
  let TRANSLATIONS := locale_table (translations_setting settings)
                                   (currentLocale host) in
  let parsed := parseLayout BUTTONS (layout settings) ∅ [] in
  let c := mkComponent BUTTONS TRANSLATIONS (TOGGLE_GROUPS parsed)
                       (result parsed) (window_name host) in
  (c, fst (register_popups c (empty_world (insertRule_accepts host)
                                          (console parsed)))).

(** The callback given to [api.onToolbarCreate]; [isDesktop] is
    [!!site.desktopView] and the toolbar to fill is [toolbarButtons]. *)
Definition onToolbarCreate (c : Component) (isDesktop : bool) : Exec World unit :=
  for_of (toolbar (comp_layout c)) (λ entry,
    let e := placed entry in
    if (isDesktop && negb (allowDesktop e)) || (negb isDesktop && negb (allowMobile e))
    then ret tt
    else
      try_catch
        (addToolbarButton (comp_BUTTONS c) (comp_TRANSLATIONS c)
           (comp_TOGGLE_GROUPS c) (section entry) (buttonSpec e))
        (λ error, modify (log_error (None, error)))).

(** ** The earlier variant of the parser

    The second source file holds the initializer as it was before the
    viewport test moved to render time.  Its [parseLayout] reads
    [site.desktopView] itself and leaves an entry that the viewport does
    not want before the button check; what it pushes is the pair
    [[currentSection[1], buttonSpec]] for the toolbar and the bare
    [buttonSpec] for the popup menu. *)

Record EarlyPlan : Type := mkEarlyPlan {
  early_toolbar : list (option string * ButtonSpec);
  early_gearmenu : list ButtonSpec;
}.

Record EarlyState : Type := mkEarlyState {
  early_currentSection : JSProp SectionArray;
  early_result : EarlyPlan;
  early_TOGGLE_GROUPS : gmap string (list ButtonSpec);
  early_console : list LogLine;
}.

Definition early_ensure_group (g : string) : Exec EarlyState unit :=
  λ st, match js_get (early_TOGGLE_GROUPS st) g with
        | Missing =>
            (mkEarlyState (early_currentSection st) (early_result st)
                          (<[g := []]> (early_TOGGLE_GROUPS st)) (early_console st),
             Ok tt)
        | _ => (st, Ok tt)
        end.

Definition early_push_member (g : string) (spec : ButtonSpec)
  : Exec EarlyState unit :=
  λ st, match js_get (early_TOGGLE_GROUPS st) g with
        | Own members =>
            (mkEarlyState (early_currentSection st) (early_result st)
                          (<[g := members ++ [spec]]> (early_TOGGLE_GROUPS st))
                          (early_console st),
             Ok tt)
        | Inherited => (st, Throw (TypeError "TOGGLE_GROUPS[toggleGroup].push is not a function"))
        | Missing => (st, Throw (TypeError "TOGGLE_GROUPS[toggleGroup] is undefined"))
        end.

Definition early_place_entry (spec : ButtonSpec) : Exec EarlyState unit :=
  λ st, match early_currentSection st with
        | Own (TOOLBAR, zone) =>
            (mkEarlyState (early_currentSection st)
               (mkEarlyPlan (early_toolbar (early_result st) ++ [(zone, spec)])
                            (early_gearmenu (early_result st)))
               (early_TOGGLE_GROUPS st) (early_console st),
             Ok tt)
        | Own (GEARMENU, _) =>
            (mkEarlyState (early_currentSection st)
               (mkEarlyPlan (early_toolbar (early_result st))
                            (early_gearmenu (early_result st) ++ [spec]))
               (early_TOGGLE_GROUPS st) (early_console st),
             Ok tt)
        | _ => (st, Throw UnknownPlacementType)
        end.

Section EarlyParser.

(** [desktopView] is the truth value of [site.desktopView]. *)
Context {Def : Type} (BUTTONS : gmap string Def) (desktopView : bool).

Definition parseLayout_early_try (entry : string) : Exec EarlyState unit :=
  if js_in SECTIONS entry then
    modify (λ st, mkEarlyState (js_get SECTIONS entry) (early_result st)
                               (early_TOGGLE_GROUPS st) (early_console st))
  else
    let e := parseLayoutEntry entry in
    let spec := buttonSpec e in
    if (desktopView && negb (allowDesktop e))
       || (negb desktopView && negb (allowMobile e))
    then ret tt
    else if negb (js_in BUTTONS (to_string (of_option (name spec)))) then
      throw (UnknownButton (of_option (name spec)))
    else
      ((if truthy (of_option (toggleGroup spec)) then
          let g := to_string (of_option (toggleGroup spec)) in
          (early_ensure_group g ;; early_push_member g spec)
        else ret tt) ;;
       early_place_entry spec)%exec.

Definition parseLayout_early_iteration (entry : string) : Exec EarlyState unit :=
  try_catch (parseLayout_early_try entry)
            (λ error st,
               (mkEarlyState (early_currentSection st) (early_result st)
                             (early_TOGGLE_GROUPS st)
                             (early_console st ++ [(Some entry, error)]),
                Ok tt)).

Definition parseLayout_early (layout : string)
    (groups : gmap string (list ButtonSpec)) (log : list LogLine)
  : EarlyState :=
  fst (for_of (split "|" layout) parseLayout_early_iteration
         (mkEarlyState (Own (TOOLBAR, Some "extras")) (mkEarlyPlan [] []) groups log)).

End EarlyParser.

(** ** Reference notions used by the statements *)

(** Whether a character occurs in a string. *)
Fixpoint contains (c : ascii) (s : string) : bool :=
  match s with
  | EmptyString => false
  | String a rest => Ascii.eqb a c || contains c rest
  end.

(** [pieces.join(sep)] for a one-character separator. *)
Fixpoint join (sep : ascii) (pieces : list string) : string :=
  match pieces with
  | [] => EmptyString
  | [p] => p
  | p :: rest => p +:+ String sep (join sep rest)
  end.

(** The three viewport flags of the layout grammar. *)
Inductive ViewportFlag : Type := Never | MobileOnly | DesktopOnly.

Definition flag_literal (f : ViewportFlag) : string :=
  match f with
  | Never => "X"
  | MobileOnly => "M"
  | DesktopOnly => "D"
  end.

(** The text of a button entry: the optional flag, then the fields, all
    separated by commas. *)
Definition entry_text (flag : option ViewportFlag) (fields : list string)
  : string :=
  join "," match flag with
           | Some f => flag_literal f :: fields
           | None => fields
           end.

Definition flag_allows_desktop (flag : option ViewportFlag) : bool :=
  match flag with
  | None | Some DesktopOnly => true
  | _ => false
  end.

Definition flag_allows_mobile (flag : option ViewportFlag) : bool :=
  match flag with
  | None | Some MobileOnly => true
  | _ => false
  end.

(** The maximal prefix of whitespace code units. *)
Fixpoint leading_whitespace (v : list N) : list N :=
  match v with
  | c :: rest => if is_whitespace c then c :: leading_whitespace rest else []
  | [] => []
  end.

(** Whether the host accepts both hide rules of every member of a group. *)
Definition rules_accepted (accepts : string → bool) (group : list ButtonSpec)
  : bool :=
  forallb (λ spec, accepts (class_rule (of_option (name spec)))
                   && accepts (data_name_rule (of_option (name spec))))
          group.

(** Whether the button of a plan entry can be built while
    [Object.prototype] is as the host left it: its definition is found,
    its action is one of the four kinds, and a toggle action names a group
    that is in the table and whose hide rules the host accepts. *)
Definition action_constructible (accepts : string → bool)
    (TRANSLATIONS : option (list TranslationEntry))
    (groups : gmap string (list ButtonSpec)) (buttonName : string)
    (definition : JSProp ButtonDefinition) : bool :=
  let action := field def_action definition in
  bool_decide (action = JStr Action.insert)
  || bool_decide (action = JStr Action.surround)
  || bool_decide (action = JStr Action.list)
  || bool_decide (action = JStr Action.toggleGroup)
     && match js_get groups
                (to_string (applyTranslation TRANSLATIONS
                              (field def_groupName definition)
                              buttonName "groupName")) with
        | Own group => rules_accepted accepts group
        | _ => false
        end.

Definition constructible (accepts : string → bool)
    (BUTTONS : gmap string ButtonDefinition)
    (TRANSLATIONS : option (list TranslationEntry))
    (groups : gmap string (list ButtonSpec)) (spec : ButtonSpec) : bool :=
  let buttonName := to_string (of_option (name spec)) in
  js_in BUTTONS buttonName
  && action_constructible accepts TRANSLATIONS groups buttonName
       (js_get BUTTONS buttonName).

(** [Object.prototype] is as the host left it: the code has added nothing
    to it. *)
Definition pristine (w : World) : Prop := prototypeProperties w = ∅.

(** What building the button named [b] may change.  It may add toggle
    closures after those there are and write to [i18nProperties] and to
    the functions of [Object.prototype]; it leaves the registered options
    and buttons, the log and the host's parser alone, and
    [Object.prototype] itself too unless [b] is [__proto__]. *)
Definition frame (b : string) (w w' : World) : Prop :=
  popupMenuOptions w' = popupMenuOptions w
  ∧ toolbarButtons w' = toolbarButtons w
  ∧ consoleLog w' = consoleLog w
  ∧ acceptsRule w' = acceptsRule w
  ∧ toggles w `prefix_of` toggles w'
  ∧ (b ≠ "__proto__" → prototypeProperties w' = prototypeProperties w).


(** The names the loop of [makeToggleAction] goes through for a group of
    the table. *)
Definition member_names (group : list ButtonSpec) : list JSVal :=
  (λ spec, of_option (name spec)) <$> group.

(** The rules a sheet holds once the loop has gone through [names]: each
    accepted rule went in front of those before it. *)
Definition hide_rule_texts (names : list JSVal) : list string :=
  reverse names ≫= λ n, [data_name_rule n; class_rule n].

Definition names_accepted (accepts : string → bool) (names : list JSVal) : bool :=
  forallb (λ n, accepts (class_rule n) && accepts (data_name_rule n)) names.

(** The viewport test, as the claim words it. *)
Definition viewport_allows (isDesktop : bool) (e : LayoutEntry) : bool :=
  (isDesktop && allowDesktop e) || (negb isDesktop && allowMobile e).

(** A toggle closure whose stylesheet agrees with its flag. *)
Definition consistent (c : ToggleClosure) : Prop :=
  disabled (stylesheet c) = negb (isHidden c).

(** What identifies a toolbar button: its element id, its zone and its
    shortcut. *)
Definition toolbar_view (b : ToolbarButton)
  : string * option string * option string :=
  (tb_id b, tb_group b, tb_shortcut b).


(** The default placement target. *)
Definition extras : JSProp SectionArray := Own (TOOLBAR, Some "extras").

(** The specs of a layout's button-entry tokens, in token order. *)
Definition button_specs (tokens : list string) : list ButtonSpec :=
  (λ t, buttonSpec (parseLayoutEntry t))
    <$> filter (λ t, js_in SECTIONS t = false) tokens.

(** The placement target once the loop has gone through [tokens]. *)
Definition current_after (cur : JSProp SectionArray) (tokens : list string)
  : JSProp SectionArray :=
  foldl (λ cur t, if js_in SECTIONS t then js_get SECTIONS t else cur) cur tokens.

(** A layout none of whose tokens, and none of whose toggle-group fields,
    is a name inherited from [Object.prototype]. *)
Definition prototype_free (tokens : list string) : Prop :=
  ∀ t, t ∈ tokens →
       inherited t = false
       ∧ ∀ g, declared_group (buttonSpec (parseLayoutEntry t)) = Some g →
              inherited g = false.

(** The button entries of a layout that name toggle-group [g] in their
    third field, whatever their button name. *)
Definition declaring_specs (tokens : list string) (g : string) : list ButtonSpec :=
  filter (λ spec, toggleGroup spec = Some g) (button_specs tokens).

(** What the earlier parser's state looks like, seen from the later
    parser's state: the same section, table and log, and each plan entry
    without its two flags. *)
Definition early_of (st : ParseState) : EarlyState :=
  {| early_currentSection := currentSection st;
     early_result :=
       {| early_toolbar := (λ t, (section t, buttonSpec (placed t)))
                             <$> toolbar (result st);
          early_gearmenu := buttonSpec <$> gearmenu (result st) |};
     early_TOGGLE_GROUPS := TOGGLE_GROUPS st;
     early_console := console st |}.

(** The tokens the earlier parser does not leave early on a viewport:
    section keywords, and button entries that the viewport allows. *)
Definition kept_on (desktopView : bool) (t : string) : bool :=
  js_in SECTIONS t || viewport_allows desktopView (parseLayoutEntry t).

(** [i18nProperties[buttonName][propName]] *)
Definition i18n_lookup (w : World) (buttonName propName : string) : option JSVal :=
  i18nProperties w !! buttonName ≫= (λ props, props !! propName).

(** The key under which a button's property is registered. *)
Definition i18n_key (buttonName propName : string) : string :=
  CBBKEY +:+ "." +:+ buttonName +:+ "." +:+ propName.

(** The last definition of a given name in the [buttons] setting. *)
Definition last_named (n : string) (bs : list ButtonDefinition)
  : option ButtonDefinition :=
  last (filter (λ d, def_name d = n) bs).

(** The four strings the [switch] of [makeAction] knows. *)
Definition action_kinds : list JSVal :=
  [JStr Action.insert; JStr Action.surround; JStr Action.list;
   JStr Action.toggleGroup].

(** ** Sample configurations *)

Definition sample_surround (n : string) : ButtonDefinition :=
  {| def_name := n; def_action := JStr "surround";
     def_prefix := JStr "**"; def_suffix := JStr "**";
     def_exampleText := JStr "text"; def_lineMode := JUndefined;
     def_groupName := JUndefined; def_startHidden := JUndefined;
     def_title := JStr n; def_nonIcon := JUndefined;
     def_svg_icon := JStr "icon"; def_popupHover := JUndefined |}.


Definition sample_toggle (n g : string) : ButtonDefinition :=
  {| def_name := n; def_action := JStr "toggleGroup";
     def_prefix := JUndefined; def_suffix := JUndefined;
     def_exampleText := JUndefined; def_lineMode := JUndefined;
     def_groupName := JStr g; def_startHidden := JBool false;
     def_title := JStr n; def_nonIcon := JUndefined;
     def_svg_icon := JStr "icon"; def_popupHover := JUndefined |}.

(** A CSS parser for the examples.  It accepts the two hide rules of an
    identifier made of letters, digits, [-] and [_], which every CSS parser
    accepts, and refuses every other text; among the texts it refuses is
    the class rule of a button named [c++], whose selector no CSS parser
    accepts. *)
Definition plain_char (c : ascii) : bool :=
  let n := nat_of_ascii c in
  ((48 <=? n) && (n <=? 57) || (65 <=? n) && (n <=? 90)
   || (97 <=? n) && (n <=? 122) || (n =? 45) || (n =? 95))%nat.

Fixpoint plain_identifier (s : string) : bool :=
  match s with
  | EmptyString => true
  | String c rest => plain_char c && plain_identifier rest
  end.

(** [s] without the prefix [pre] and the suffix [suf], when it has both. *)
Definition between (pre suf s : string) : option string :=
  let n := String.length s in
  let a := String.length pre in
  let b := String.length suf in
  if ((a + b <=? n)%nat
      && String.eqb (substring 0 a s) pre
      && String.eqb (substring (n - b) b s) suf)%bool
  then Some (substring a (n - a - b) s)
  else None.

Definition sample_parser (rule : string) : bool :=
  match between "." " { display: none !important; }" rule with
  | Some identifier => plain_identifier identifier
  | None =>
      match between ("[data-name=" +:+ double_quote)
                    (double_quote +:+ "] { display: none !important; }") rule with
      | Some identifier => plain_identifier identifier
      | None => false
      end
  end.

Definition sample_host : Host :=
  {| currentLocale := "en"; window_name := "";
     insertRule_accepts := sample_parser |}.


(** A definition with a given name and behaviour kind, its other fields
    taken from [d]. *)
Definition with_kind (n kind : string) (d : ButtonDefinition) : ButtonDefinition :=
  {| def_name := n; def_action := JStr kind;
     def_prefix := def_prefix d; def_suffix := def_suffix d;
     def_exampleText := def_exampleText d; def_lineMode := def_lineMode d;
     def_groupName := def_groupName d; def_startHidden := def_startHidden d;
     def_title := def_title d; def_nonIcon := def_nonIcon d;
     def_svg_icon := def_svg_icon d; def_popupHover := def_popupHover d |}.



(** * Facts about the parser *)

Section ParserFacts.

Context {Def : Type} (BUTTONS : gmap string Def).

Local Abbreviation known := (known BUTTONS).
Local Abbreviation registered := (registered BUTTONS).
Local Abbreviation joins := (joins BUTTONS).
Local Abbreviation iteration_effect := (iteration_effect BUTTONS).
Local Abbreviation planned_toolbar := (planned_toolbar BUTTONS).
Local Abbreviation planned_gearmenu := (planned_gearmenu BUTTONS).
Local Abbreviation group_joiners := (group_joiners BUTTONS).

Lemma truthy_declared (spec : ButtonSpec) :
  truthy (of_option (toggleGroup spec)) = bool_decide (is_Some (declared_group spec)).
Proof.
  unfold declared_group.
  destruct (toggleGroup spec) as [g|]; cbn [of_option truthy];
    [destruct (String.eqb g ""); cbn [negb]|]; symmetry;
    (apply bool_decide_eq_true_2; by eauto)
    || (apply bool_decide_eq_false_2; by intros [? ?]).
Qed.

Lemma declared_group_Some (spec : ButtonSpec) (g : string) :
  declared_group spec = Some g →
  toggleGroup spec = Some g ∧ g ≠ "".
Proof.
  unfold declared_group. destruct (toggleGroup spec) as [g'|]; [|done].
  destruct (String.eqb_spec g' ""); [done|]. intros [= ->]. done.
Qed.

Lemma parseLayout_iteration_spec (entry : string) (st : ParseState) :
  parseLayout_iteration BUTTONS entry st = (iteration_effect entry st, Ok tt).
Proof.
  unfold parseLayout_iteration, try_catch, parseLayout_try, iteration_effect.
  destruct (js_in SECTIONS entry); [done|].
  unfold known. set (e := parseLayoutEntry entry). set (spec := buttonSpec e).
  destruct (js_in BUTTONS _); simpl; [|done].
  unfold bind. rewrite truthy_declared. unfold group_refused.
  destruct (declared_group spec) as [g|] eqn:Hg.
  - rewrite bool_decide_eq_true_2 by eauto.
    apply declared_group_Some in Hg as [Hg _]. rewrite Hg. simpl.
    unfold ensure_group, push_member, push_throws, members, js_get.
    destruct (TOGGLE_GROUPS st !! g) as [l|] eqn:Hl; simpl.
    + rewrite Hl. unfold place_entry, toolbar_of, gearmenu_of. simpl.
      destruct (currentSection st) as [[[] ?]| |]; simpl;
        rewrite ?app_nil_r; done.
    + destruct (inherited g); simpl.
      * rewrite Hl. done.
      * rewrite lookup_insert_eq, insert_insert_eq. simpl.
        unfold place_entry, toolbar_of, gearmenu_of. simpl.
        destruct (currentSection st) as [[[] ?]| |]; simpl;
          rewrite ?app_nil_r; done.
  - rewrite bool_decide_eq_false_2 by (by intros [? ?]). simpl.
    unfold place_entry, toolbar_of, gearmenu_of. simpl.
    destruct (currentSection st) as [[[] ?]| |]; simpl;
      rewrite ?app_nil_r; done.
Qed.

Lemma parseLayout_loop_cons (entry : string) (rest : list string)
    (st : ParseState) :
  parseLayout_loop BUTTONS (entry :: rest) st
  = parseLayout_loop BUTTONS rest (iteration_effect entry st).
Proof.
  unfold parseLayout_loop. simpl. unfold bind at 1.
  by rewrite parseLayout_iteration_spec.
Qed.

(** The loop always runs to its end: no iteration lets an exception out. *)
Lemma parseLayout_loop_returns (entries : list string) (st : ParseState) :
  snd (parseLayout_loop BUTTONS entries st) = Ok tt.
Proof.
  revert st. induction entries as [|entry rest IH]; intros st; [done|].
  rewrite parseLayout_loop_cons. apply IH.
Qed.

Lemma iteration_currentSection (t : string) (st : ParseState) :
  currentSection (iteration_effect t st)
  = if js_in SECTIONS t then js_get SECTIONS t else currentSection st.
Proof.
  unfold iteration_effect. destruct (js_in SECTIONS t); [done|].
  destruct (negb _); [done|]. destruct (group_refused _ _); [done|].
  destruct (declared_group _); simpl; by destruct (is_own _).
Qed.

Lemma iteration_toolbar (t : string) (st : ParseState) :
  toolbar (result (iteration_effect t st))
  = toolbar (result st)
    ++ planned_toolbar (TOGGLE_GROUPS st) (button_entries (currentSection st) [t]).
Proof.
  unfold iteration_effect, planned_toolbar, registered. simpl.
  destruct (js_in SECTIONS t); simpl; [by rewrite app_nil_r|].
  rewrite filter_cons, filter_nil. cbn beta. cbn [fst snd].
  set (spec := buttonSpec (parseLayoutEntry t)).
  destruct (known spec), (group_refused (TOGGLE_GROUPS st) spec),
    (declared_group spec), (currentSection st) as [[[] ?]| |] eqn:Hcur;
    simpl; rewrite ?Hcur; simpl; rewrite ?app_nil_r; done.
Qed.

Lemma iteration_gearmenu (t : string) (st : ParseState) :
  gearmenu (result (iteration_effect t st))
  = gearmenu (result st)
    ++ planned_gearmenu (TOGGLE_GROUPS st) (button_entries (currentSection st) [t]).
Proof.
  unfold iteration_effect, planned_gearmenu, registered. simpl.
  destruct (js_in SECTIONS t); simpl; [by rewrite app_nil_r|].
  rewrite filter_cons, filter_nil. cbn beta. cbn [fst snd].
  set (spec := buttonSpec (parseLayoutEntry t)).
  destruct (known spec), (group_refused (TOGGLE_GROUPS st) spec),
    (declared_group spec), (currentSection st) as [[[] ?]| |] eqn:Hcur;
    simpl; rewrite ?Hcur; simpl; rewrite ?app_nil_r; done.
Qed.

(** The table after one iteration: one group grows by one member, or
    nothing changes. *)
Lemma iteration_TOGGLE_GROUPS (t : string) (st : ParseState) :
  TOGGLE_GROUPS (iteration_effect t st)
  = if js_in SECTIONS t then TOGGLE_GROUPS st
    else let spec := buttonSpec (parseLayoutEntry t) in
         if registered (TOGGLE_GROUPS st) spec then
           match declared_group spec with
           | Some g => <[g := members (TOGGLE_GROUPS st) g ++ [spec]]>
                         (TOGGLE_GROUPS st)
           | None => TOGGLE_GROUPS st
           end
         else TOGGLE_GROUPS st.
Proof.
  unfold iteration_effect, registered. destruct (js_in SECTIONS t); [done|].
  simpl. destruct (known _); simpl; [|done].
  destruct (group_refused _ _); simpl; [done|].
  destruct (declared_group _); simpl; by destruct (is_own _).
Qed.

Lemma iteration_push_throws (t : string) (st : ParseState) (g : string) :
  push_throws (TOGGLE_GROUPS (iteration_effect t st)) g
  = push_throws (TOGGLE_GROUPS st) g.
Proof.
  rewrite iteration_TOGGLE_GROUPS. destruct (js_in SECTIONS t); [done|].
  cbn zeta. set (spec := buttonSpec (parseLayoutEntry t)).
  unfold registered, group_refused.
  destruct (known spec); [|done].
  destruct (declared_group spec) as [g0|]; [|by destruct (negb _)].
  simpl. destruct (push_throws (TOGGLE_GROUPS st) g0) eqn:Hg0; [done|]. simpl.
  unfold push_throws, js_get in *.
  destruct (decide (g0 = g)) as [->|Hne].
  - rewrite lookup_insert_eq.
    destruct (TOGGLE_GROUPS st !! g); [done|]. by destruct (inherited g).
  - by rewrite lookup_insert_ne.
Qed.

Lemma registered_ext (groups groups' : gmap string (list ButtonSpec))
    (spec : ButtonSpec) :
  (∀ g, push_throws groups' g = push_throws groups g) →
  registered groups' spec = registered groups spec.
Proof.
  intros H. unfold registered, group_refused.
  destruct (declared_group spec); by rewrite ?H.
Qed.

Lemma planned_toolbar_ext (groups groups' : gmap string (list ButtonSpec))
    (entries : list (JSProp SectionArray * LayoutEntry)) :
  (∀ g, push_throws groups' g = push_throws groups g) →
  planned_toolbar groups' entries = planned_toolbar groups entries.
Proof.
  intros H. unfold planned_toolbar. f_equal.
  apply list_filter_iff. intros p. by rewrite (registered_ext _ _ _ H).
Qed.

Lemma planned_gearmenu_ext (groups groups' : gmap string (list ButtonSpec))
    (entries : list (JSProp SectionArray * LayoutEntry)) :
  (∀ g, push_throws groups' g = push_throws groups g) →
  planned_gearmenu groups' entries = planned_gearmenu groups entries.
Proof.
  intros H. unfold planned_gearmenu. f_equal.
  apply list_filter_iff. intros p. by rewrite (registered_ext _ _ _ H).
Qed.

Lemma group_joiners_ext (groups groups' : gmap string (list ButtonSpec))
    (g : string) (entries : list (JSProp SectionArray * LayoutEntry)) :
  (∀ g, push_throws groups' g = push_throws groups g) →
  group_joiners groups' g entries = group_joiners groups g entries.
Proof.
  intros H. unfold group_joiners, joins.
  apply list_filter_iff. intros p. by rewrite (registered_ext _ _ _ H).
Qed.

Lemma button_entries_cons (cur : JSProp SectionArray) (t : string)
    (rest : list string) :
  button_entries cur (t :: rest)
  = button_entries cur [t]
    ++ button_entries (if js_in SECTIONS t then js_get SECTIONS t else cur) rest.
Proof. simpl. by destruct (js_in SECTIONS t). Qed.

Lemma iteration_members (t : string) (st : ParseState) (g : string) :
  members (TOGGLE_GROUPS (iteration_effect t st)) g
  = members (TOGGLE_GROUPS st) g
    ++ group_joiners (TOGGLE_GROUPS st) g (button_entries (currentSection st) [t]).
Proof.
  rewrite iteration_TOGGLE_GROUPS. unfold group_joiners, joins. simpl.
  destruct (js_in SECTIONS t); simpl; [by rewrite app_nil_r|].
  rewrite filter_cons, filter_nil.
  set (spec := buttonSpec (parseLayoutEntry t)).
  destruct (registered (TOGGLE_GROUPS st) spec); simpl;
    [|by rewrite app_nil_r].
  destruct (declared_group spec) as [g0|]; simpl; [|by rewrite app_nil_r].
  unfold members. destruct (decide (g0 = g)) as [->|Hne].
  - rewrite lookup_insert_eq. simpl.
    by rewrite decide_True by (by apply bool_decide_eq_true_2).
  - rewrite lookup_insert_ne by done.
    rewrite decide_False; [by rewrite app_nil_r|].
    rewrite bool_decide_eq_true. congruence.
Qed.

(** The loop from any state: what it appends to the plan and to each
    group is determined by the button entries and their targets. *)
Lemma parseLayout_loop_spec (tokens : list string) (st : ParseState) :
  let st' := fst (parseLayout_loop BUTTONS tokens st) in
  let entries := button_entries (currentSection st) tokens in
  toolbar (result st')
    = toolbar (result st) ++ planned_toolbar (TOGGLE_GROUPS st) entries
  ∧ gearmenu (result st')
    = gearmenu (result st) ++ planned_gearmenu (TOGGLE_GROUPS st) entries
  ∧ (∀ g, push_throws (TOGGLE_GROUPS st') g = push_throws (TOGGLE_GROUPS st) g)
  ∧ (∀ g, members (TOGGLE_GROUPS st') g
          = members (TOGGLE_GROUPS st) g
            ++ group_joiners (TOGGLE_GROUPS st) g entries).
Proof.
  revert st. induction tokens as [|t rest IH]; intros st; cbn zeta.
  { unfold planned_toolbar, planned_gearmenu, group_joiners. simpl.
    split_and!; intros; by rewrite ?app_nil_r. }
  rewrite parseLayout_loop_cons, button_entries_cons.
  destruct (IH (iteration_effect t st)) as (Htb & Hgm & Hpt & Hmem).
  rewrite iteration_currentSection in Htb, Hgm, Hmem.
  pose proof (iteration_push_throws t st) as Hstep.
  split_and!.
  - rewrite Htb, iteration_toolbar, <-app_assoc. f_equal.
    rewrite (planned_toolbar_ext _ _ _ Hstep).
    unfold planned_toolbar. by rewrite filter_app, fmap_app.
  - rewrite Hgm, iteration_gearmenu, <-app_assoc. f_equal.
    rewrite (planned_gearmenu_ext _ _ _ Hstep).
    unfold planned_gearmenu. by rewrite filter_app, fmap_app.
  - intros g. by rewrite Hpt.
  - intros g. rewrite Hmem, iteration_members, <-app_assoc. f_equal.
    rewrite (group_joiners_ext _ _ _ _ Hstep).
    unfold group_joiners. by rewrite fmap_app, filter_app.
Qed.

Lemma iteration_groups_nonempty (t : string) (st : ParseState) :
  groups_nonempty (TOGGLE_GROUPS st) →
  groups_nonempty (TOGGLE_GROUPS (iteration_effect t st)).
Proof.
  intros Hne. rewrite iteration_TOGGLE_GROUPS.
  destruct (js_in SECTIONS t); [done|]. cbn zeta.
  destruct (registered _ _); [|done].
  destruct (declared_group _) as [g0|]; [|done].
  intros g l. destruct (decide (g0 = g)) as [->|Hg].
  - rewrite lookup_insert_eq. intros [= <-]. by destruct (members _ _).
  - rewrite lookup_insert_ne by done. apply Hne.
Qed.

Lemma parseLayout_loop_groups_nonempty (tokens : list string)
    (st : ParseState) :
  groups_nonempty (TOGGLE_GROUPS st) →
  groups_nonempty (TOGGLE_GROUPS (fst (parseLayout_loop BUTTONS tokens st))).
Proof.
  revert st. induction tokens as [|t rest IH]; intros st Hne; [done|].
  rewrite parseLayout_loop_cons. by apply IH, iteration_groups_nonempty.
Qed.

Lemma button_entries_app (cur : JSProp SectionArray) (pre post : list string) :
  button_entries cur (pre ++ post)
  = button_entries cur pre ++ button_entries (current_after cur pre) post.
Proof.
  revert cur. induction pre as [|t pre IH]; intros cur; simpl; [done|].
  destruct (js_in SECTIONS t); by rewrite IH.
Qed.

Lemma button_entries_specs (cur : JSProp SectionArray) (tokens : list string) :
  (λ p, buttonSpec p.2) <$> button_entries cur tokens = button_specs tokens.
Proof.
  unfold button_specs. revert cur.
  induction tokens as [|t rest IH]; intros cur; simpl; [done|].
  rewrite filter_cons. destruct (js_in SECTIONS t); simpl; by rewrite IH.
Qed.

(** [parseLayout] as the initializer calls it, with an empty table. *)
Lemma parseLayout_spec (layout : string) (log : list LogLine) :
  let st := parseLayout BUTTONS layout ∅ log in
  let entries := button_entries extras (split "|" layout) in
  toolbar (result st) = planned_toolbar ∅ entries
  ∧ gearmenu (result st) = planned_gearmenu ∅ entries
  ∧ ∀ g, members (TOGGLE_GROUPS st) g = group_joiners ∅ g entries.
Proof.
  cbn zeta. unfold parseLayout.
  destruct (parseLayout_loop_spec (split "|" layout)
              (mkParseState extras (mkPlan [] []) ∅ log))
    as (Htb & Hgm & _ & Hmem).
  split_and!; [exact Htb|exact Hgm|].
  intros g. rewrite Hmem. unfold members at 1. simpl.
  by rewrite lookup_empty.
Qed.

Lemma push_throws_empty (g : string) : push_throws ∅ g = inherited g.
Proof. unfold push_throws, js_get. rewrite lookup_empty. by destruct (inherited g). Qed.

Lemma joins_empty_iff (g : string) (spec : ButtonSpec) :
  inherited g = false → g ≠ "" →
  joins ∅ g spec = true ↔ known spec = true ∧ toggleGroup spec = Some g.
Proof.
  intros Hg Hne. unfold joins, registered, group_refused.
  rewrite !andb_true_iff, bool_decide_eq_true. split.
  - intros [[Hk _] Hd]. split; [done|]. by apply declared_group_Some in Hd as [? ?].
  - intros [Hk Ht].
    assert (declared_group spec = Some g) as Hd.
    { unfold declared_group. rewrite Ht.
      by destruct (String.eqb_spec g ""). }
    rewrite Hd, push_throws_empty, Hg. done.
Qed.

Lemma registered_prototype_free (spec : ButtonSpec) :
  (∀ g, declared_group spec = Some g → inherited g = false) →
  registered ∅ spec = known spec.
Proof.
  intros H. unfold registered, group_refused.
  destruct (declared_group spec) as [g|]; [|by rewrite andb_true_r].
  by rewrite push_throws_empty, (H g eq_refl), andb_true_r.
Qed.

Lemma section_lookup_own (t : string) :
  js_in SECTIONS t = true → inherited t = false →
  on_toolbar (js_get SECTIONS t) || on_gearmenu (js_get SECTIONS t) = true.
Proof.
  unfold js_in, js_get. intros Hin Hinh.
  destruct (SECTIONS !! t) as [[[] zone]|] eqn:Ht; [done..|].
  by rewrite Hinh in Hin.
Qed.

Lemma button_entries_prototype_free (cur : JSProp SectionArray)
    (tokens : list string) :
  on_toolbar cur || on_gearmenu cur = true →
  prototype_free tokens →
  Forall (λ p, on_toolbar p.1 || on_gearmenu p.1 = true
               ∧ registered ∅ (buttonSpec p.2) = known (buttonSpec p.2))
         (button_entries cur tokens).
Proof.
  revert cur. induction tokens as [|t rest IH]; intros cur Hcur Hfree; simpl;
    [constructor|].
  assert (prototype_free rest) as Hrest
    by (intros t' Ht'; apply Hfree; by right).
  destruct (Hfree t) as [Ht Hgroup]; [by left|].
  destruct (js_in SECTIONS t) eqn:Hin.
  - apply IH; [by apply section_lookup_own|done].
  - constructor; [|by apply IH]. simpl. split; [done|].
    by apply registered_prototype_free.
Qed.

End ParserFacts.

(** * Facts about splitting and joining *)

Lemma split_nonempty (c : ascii) (s : string) : split c s ≠ [].
Proof.
  destruct s as [|a r]; simpl; [done|].
  destruct (Ascii.eqb a c); [done|]. by destruct (split c r).
Qed.

Lemma split_free (c : ascii) (p : string) :
  contains c p = false → split c p = [p].
Proof.
  induction p as [|a r IH]; simpl; [done|].
  destruct (Ascii.eqb a c); simpl; [done|]. intros H. by rewrite IH.
Qed.

Lemma split_free_sep (c : ascii) (p rest : string) :
  contains c p = false →
  split c (p +:+ String c rest) = p :: split c rest.
Proof.
  induction p as [|a r IH]; simpl.
  - by rewrite Ascii.eqb_refl.
  - destruct (Ascii.eqb a c); simpl; [done|]. intros H. by rewrite IH.
Qed.

Lemma split_join (c : ascii) (pieces : list string) :
  pieces ≠ [] →
  Forall (λ p, contains c p = false) pieces →
  split c (join c pieces) = pieces.
Proof.
  induction pieces as [|p rest IH]; [done|]. intros _ Hfree.
  apply Forall_cons in Hfree as [Hp Hrest].
  destruct rest as [|q rest]; simpl.
  - by apply split_free.
  - rewrite split_free_sep by done. f_equal. by apply IH.
Qed.

Lemma split_pieces_free (c : ascii) (s : string) :
  Forall (λ p, contains c p = false) (split c s).
Proof.
  induction s as [|a r IH]; simpl.
  - by constructor.
  - destruct (Ascii.eqb a c) eqn:Ha.
    + by constructor.
    + destruct (split c r) as [|p ps]; [by repeat constructor; simpl; rewrite Ha|].
      apply Forall_cons in IH as [Hp Hps].
      constructor; [|done]. simpl. by rewrite Ha.
Qed.

Lemma join_split (c : ascii) (s : string) : join c (split c s) = s.
Proof.
  induction s as [|a r IH]; simpl; [done|].
  pose proof (split_nonempty c r) as Hne.
  destruct (Ascii.eqb_spec a c) as [->|Hac].
  - destruct (split c r) as [|p ps]; [done|]. simpl in *. by rewrite IH.
  - destruct (split c r) as [|p ps]; [done|].
    destruct ps as [|q ps]; simpl in *; by rewrite <-IH.
Qed.

(** * parseLayoutEntry *)

Lemma flag_literal_free (f : ViewportFlag) : contains "," (flag_literal f) = false.
Proof. by destruct f. Qed.

Lemma parseLayoutEntry_no_flag (entry first : string) (rest : list string) :
  split "," entry = first :: rest →
  first ∉ ["X"; "M"; "D"] →
  parseLayoutEntry entry
  = mkLayoutEntry true true
      (mkButtonSpec (Some first) (rest !! 0%nat) (rest !! 1%nat)).
Proof.
  intros Hsplit Hfirst. unfold parseLayoutEntry. rewrite Hsplit. simpl.
  rewrite !bool_decide_eq_false_2; [done|..];
    intros [= ->]; apply Hfirst; repeat constructor.
Qed.

Lemma parseLayoutEntry_flag (entry : string) (f : ViewportFlag)
    (fields : list string) :
  split "," entry = flag_literal f :: fields →
  parseLayoutEntry entry
  = mkLayoutEntry (flag_allows_desktop (Some f)) (flag_allows_mobile (Some f))
      (mkButtonSpec (fields !! 0%nat) (fields !! 1%nat) (fields !! 2%nat)).
Proof.
  intros Hsplit. unfold parseLayoutEntry. rewrite Hsplit. by destruct f.
Qed.

(** C4.  A button entry is the optional flag followed by comma-separated
    fields.  The flag ["X"] allows neither viewport, ["M"] only mobile,
    ["D"] only desktop, and no flag allows both; the fields are, in order,
    the button name, the shortcut and the toggle-group.  Every token is of
    that form, and a token that yields a toggle-group also yields a shortcut
    field (which may be the empty string) and a name. *)
Theorem parseLayoutEntry_decodes (flag : option ViewportFlag)
    (fields : list string)
    (Hfree : Forall (λ p, contains "," p = false) fields)
    (Hflag : flag = None →
             ∃ first rest, fields = first :: rest ∧ first ∉ ["X"; "M"; "D"]) :
  parseLayoutEntry (entry_text flag fields)
  = {| allowDesktop := flag_allows_desktop flag;
       allowMobile := flag_allows_mobile flag;
       buttonSpec := {| name := fields !! 0%nat;
                        shortcut := fields !! 1%nat;
                        toggleGroup := fields !! 2%nat |} |}
  ∧ (flag = Some Never →
     allowDesktop (parseLayoutEntry (entry_text flag fields)) = false
     ∧ allowMobile (parseLayoutEntry (entry_text flag fields)) = false)
  ∧ (flag = Some MobileOnly →
     allowDesktop (parseLayoutEntry (entry_text flag fields)) = false
     ∧ allowMobile (parseLayoutEntry (entry_text flag fields)) = true)
  ∧ (flag = Some DesktopOnly →
     allowDesktop (parseLayoutEntry (entry_text flag fields)) = true
     ∧ allowMobile (parseLayoutEntry (entry_text flag fields)) = false)
  ∧ (flag = None →
     allowDesktop (parseLayoutEntry (entry_text flag fields)) = true
     ∧ allowMobile (parseLayoutEntry (entry_text flag fields)) = true)
  ∧ (∀ token : string,
       ∃ flag' fields',
         token = entry_text flag' fields'
         ∧ Forall (λ p, contains "," p = false) fields'
         ∧ (flag' = None →
            ∃ first rest, fields' = first :: rest ∧ first ∉ ["X"; "M"; "D"]))
  ∧ (∀ (token : string) (g : string),
       toggleGroup (buttonSpec (parseLayoutEntry token)) = Some g →
       is_Some (shortcut (buttonSpec (parseLayoutEntry token)))
       ∧ is_Some (name (buttonSpec (parseLayoutEntry token)))).
Proof.
  assert (parseLayoutEntry (entry_text flag fields)
          = {| allowDesktop := flag_allows_desktop flag;
               allowMobile := flag_allows_mobile flag;
               buttonSpec := {| name := fields !! 0%nat;
                                shortcut := fields !! 1%nat;
                                toggleGroup := fields !! 2%nat |} |}) as Heq.
  { destruct flag as [f|].
    - apply parseLayoutEntry_flag. unfold entry_text.
      apply split_join; [done|]. constructor; [apply flag_literal_free|done].
    - destruct Hflag as (first & rest & -> & Hfirst); [done|].
      rewrite (parseLayoutEntry_no_flag _ first rest); [done| |done].
      unfold entry_text. by apply split_join. }
  assert (∀ token : string,
       ∃ flag' fields',
         token = entry_text flag' fields'
         ∧ Forall (λ p, contains "," p = false) fields'
         ∧ (flag' = None →
            ∃ first rest, fields' = first :: rest ∧ first ∉ ["X"; "M"; "D"]))
    as Hall.
  { intros token. pose proof (join_split "," token) as Hjoin.
    pose proof (split_pieces_free "," token) as Hpieces.
    destruct (split "," token) as [|first rest] eqn:Hsplit;
      [by apply split_nonempty in Hsplit|].
    apply Forall_cons in Hpieces as [Hp Hrest].
    destruct (decide (first = "X")) as [->|HX];
      [exists (Some Never), rest; by split_and!|].
    destruct (decide (first = "M")) as [->|HM];
      [exists (Some MobileOnly), rest; by split_and!|].
    destruct (decide (first = "D")) as [->|HD];
      [exists (Some DesktopOnly), rest; by split_and!|].
    exists None, (first :: rest). split_and!; [done|by constructor|].
    intros _. exists first, rest. split; [done|].
    rewrite !elem_of_cons, elem_of_nil. tauto. }
  split_and!; try (intros ->; by rewrite Heq); [done..|].
  intros token g Hg.
  destruct (Hall token) as (flag' & fields' & -> & Hfree' & Hflag').
  assert (parseLayoutEntry (entry_text flag' fields')
          = {| allowDesktop := flag_allows_desktop flag';
               allowMobile := flag_allows_mobile flag';
               buttonSpec := {| name := fields' !! 0%nat;
                                shortcut := fields' !! 1%nat;
                                toggleGroup := fields' !! 2%nat |} |}) as Heq'.
  { destruct flag' as [f|].
    - apply parseLayoutEntry_flag. unfold entry_text.
      apply split_join; [done|]. constructor; [apply flag_literal_free|done].
    - destruct Hflag' as (first & rest & -> & Hfirst); [done|].
      rewrite (parseLayoutEntry_no_flag _ first rest); [done| |done].
      unfold entry_text. by apply split_join. }
  rewrite Heq' in *. simpl in *.
  destruct fields' as [|n [|sc [|tg ?]]]; simpl in *; try done; eauto.
Qed.

Lemma parseLayoutEntry_decodes_witness :
  Forall (λ p, contains "," p = false) ["bold"; ""; "grp"]
  ∧ parseLayoutEntry "M,bold,,grp"
    = {| allowDesktop := false;
         allowMobile := true;
         buttonSpec := {| name := Some "bold";
                          shortcut := Some "";
                          toggleGroup := Some "grp" |} |}.
Proof.
  assert (Forall (λ p, contains "," p = false) ["bold"; ""; "grp"]) as Hfree
    by (repeat constructor).
  split; [exact Hfree|].
  apply (parseLayoutEntry_decodes (Some MobileOnly) ["bold"; ""; "grp"] Hfree).
  intros [=].
Defined.

(** * applyTranslation *)

Lemma find_key_spec (table : list TranslationEntry) (k : string) :
  match List.find (λ e, String.eqb (key e) k) table with
  | Some e =>
      ∃ before after, table = before ++ e :: after
                      ∧ (∀ x, x ∈ before → key x ≠ k) ∧ key e = k
  | None => ∀ x, x ∈ table → key x ≠ k
  end.
Proof.
  induction table as [|e rest IH]; simpl.
  - intros x Hx. by apply elem_of_nil in Hx.
  - destruct (String.eqb_spec (key e) k) as [Hk|Hk].
    + exists [], rest. split_and!; [done| |done].
      intros x Hx. by apply elem_of_nil in Hx.
    + destruct (List.find _ rest) as [e'|].
      * destruct IH as (before & after & -> & Hbefore & Hk').
        exists (e :: before), after. split_and!; [done| |done].
        intros x [->|Hx]%elem_of_cons; auto.
      * intros x [->|Hx]%elem_of_cons; auto.
Qed.

Lemma locale_table_None (ts : list LocaleTranslations) (loc : string) :
  (∀ t, t ∈ ts → locale t ≠ loc) → locale_table ts loc = None.
Proof.
  unfold locale_table. induction ts as [|t rest IH]; intros H; simpl; [done|].
  destruct (String.eqb_spec (locale t) loc) as [Heq|_].
  - exfalso. apply (H t); [left|done].
  - apply IH. intros t' Ht'. apply H. by right.
Qed.

(** C8.  With a translation table active, a parameter resolves to the value
    of the (first) entry whose key is [buttonName.paramName]; it resolves
    to the configured default when the table has no such entry, and when no
    table is active for the current locale. *)
Theorem applyTranslation_resolves (TRANSLATIONS : option (list TranslationEntry))
    (defaultValue : JSVal) (buttonName paramName : string) :
  let k := buttonName +:+ "." +:+ paramName in
  let resolved := applyTranslation TRANSLATIONS defaultValue buttonName paramName in
  (∀ table e,
     TRANSLATIONS = Some table → e ∈ table → key e = k →
     ∃ before e' after,
       table = before ++ e' :: after
       ∧ (∀ x, x ∈ before → key x ≠ k)
       ∧ key e' = k
       ∧ resolved = JStr (value e'))
  ∧ (∀ table e,
       TRANSLATIONS = Some table → e ∈ table → key e = k →
       (∀ e', e' ∈ table → key e' = k → value e' = value e) →
       resolved = JStr (value e))
  ∧ (∀ table,
       TRANSLATIONS = Some table → (∀ e, e ∈ table → key e ≠ k) →
       resolved = defaultValue)
  ∧ (TRANSLATIONS = None → resolved = defaultValue)
  ∧ (∀ ts loc,
       (∀ t, t ∈ ts → locale t ≠ loc) →
       applyTranslation (locale_table ts loc) defaultValue buttonName paramName
       = defaultValue).
Proof.
  cbn zeta.
  assert (∀ table e,
     TRANSLATIONS = Some table → e ∈ table →
     key e = buttonName +:+ "." +:+ paramName →
     ∃ before e' after,
       table = before ++ e' :: after
       ∧ (∀ x, x ∈ before → key x ≠ buttonName +:+ "." +:+ paramName)
       ∧ key e' = buttonName +:+ "." +:+ paramName
       ∧ applyTranslation TRANSLATIONS defaultValue buttonName paramName
         = JStr (value e')) as Hfirst.
  { intros table e -> He Hk. unfold applyTranslation.
    pose proof (find_key_spec table (buttonName +:+ "." +:+ paramName)) as Hfind.
    destruct (List.find _ table) as [e'|].
    - destruct Hfind as (before & after & -> & Hbefore & Hk').
      by exists before, e', after.
    - by destruct (Hfind e He). }
  split_and!.
  - exact Hfirst.
  - intros table e Htable He Hk Hsame.
    destruct (Hfirst table e Htable He Hk)
      as (before & e' & after & -> & _ & Hk' & ->).
    f_equal. apply Hsame; [|done]. apply elem_of_app. right. left.
  - intros table -> Hnone. unfold applyTranslation.
    pose proof (find_key_spec table (buttonName +:+ "." +:+ paramName)) as Hfind.
    destruct (List.find _ table) as [e'|]; [|done].
    destruct Hfind as (before & after & -> & _ & Hk').
    destruct (Hnone e'); [|done]. apply elem_of_app. right. left.
  - by intros ->.
  - intros ts loc Hloc. by rewrite locale_table_None.
Qed.

Lemma applyTranslation_resolves_witness :
  applyTranslation (Some [mkTranslation "foo.title" "Bar"]) (JStr "Foo")
                   "foo" "title"
  = JStr "Bar"
  ∧ applyTranslation (Some [mkTranslation "foo.title" "Bar"]) (JStr "Baz")
                     "baz" "title"
    = JStr "Baz".
Proof.
  pose proof (applyTranslation_resolves
                (Some [mkTranslation "foo.title" "Bar"]) (JStr "Foo")
                "foo" "title") as (_ & Hhit & _).
  pose proof (applyTranslation_resolves
                (Some [mkTranslation "foo.title" "Bar"]) (JStr "Baz")
                "baz" "title") as (_ & _ & Hmiss & _).
  split.
  - apply (Hhit _ (mkTranslation "foo.title" "Bar") eq_refl).
    + left.
    + reflexivity.
    + intros e' He' _. apply list_elem_of_singleton in He'. by subst.
  - apply (Hmiss _ eq_refl). intros e He.
    apply list_elem_of_singleton in He. by subst.
Defined.

(** * The equations of the sequencing operations *)

Lemma for_of_cons {S A} (x : A) (rest : list A) (body : A → Exec S unit)
    (st : S) :
  for_of (x :: rest) body st
  = match body x st with
    | (st', Ok _) => for_of rest body st'
    | (st', Throw e) => (st', Throw e)
    end.
Proof. reflexivity. Qed.

Lemma try_catch_eq {S A} (c : Exec S A) (handler : JSError → Exec S A)
    (st : S) :
  try_catch c handler st
  = match c st with
    | (st', Ok a) => (st', Ok a)
    | (st', Throw e) => handler e st'
    end.
Proof. reflexivity. Qed.

Lemma modify_eq {S} (f : S → S) (st : S) : modify f st = (f st, Ok tt).
Proof. reflexivity. Qed.

(** * Facts about the resolver and the registration paths *)

Lemma frame_refl (b : string) (w : World) : frame b w w.
Proof. unfold frame. by split_and!. Qed.

Lemma frame_trans (b : string) (w1 w2 w3 : World) :
  frame b w1 w2 → frame b w2 w3 → frame b w1 w3.
Proof.
  intros (Hp & Hb & Hl & Ha & Ht & Hproto) (Hp' & Hb' & Hl' & Ha' & Ht' & Hproto').
  unfold frame. split_and!; try congruence.
  - by etrans.
  - intros Hne. by rewrite Hproto', Hproto.
Qed.

(** ** Lookups *)

Lemma heir_itself (w : World) (k : string) :
  heir w k = Some ProtoItself → k = "__proto__".
Proof.
  unfold heir. case_bool_decide; [done|]. destruct (inherited k); [done|].
  destruct (prop_of_name k) as [p|]; simpl; [|done].
  by destruct (prototypeProperties w !! p).
Qed.

Lemma heir_unpolluted (w : World) (k : string) :
  polluted w k = false →
  heir w k = if bool_decide (k = "__proto__") then Some ProtoItself
             else if inherited k then Some (ProtoFunction k) else None.
Proof.
  unfold polluted, heir. intros Hk. apply bool_decide_eq_false in Hk.
  case_bool_decide; [done|]. destruct (inherited k); [done|].
  destruct (prop_of_name k) as [p|]; simpl in *; [|done].
  destruct (prototypeProperties w !! p); [|done]. by destruct Hk.
Qed.

Lemma pristine_unpolluted (w : World) (k : string) :
  pristine w → polluted w k = false.
Proof.
  unfold pristine, polluted. intros ->. apply bool_decide_eq_false_2.
  destruct (prop_of_name k) as [p|]; simpl; [|by intros [? ?]].
  rewrite lookup_empty. by intros [? ?].
Qed.

Lemma heir_pristine (w : World) (k : string) :
  pristine w →
  heir w k = if bool_decide (k = "__proto__") then Some ProtoItself
             else if inherited k then Some (ProtoFunction k) else None.
Proof. intros Hw. by apply heir_unpolluted, pristine_unpolluted. Qed.


Lemma write_target_pristine (w : World) (b : string) :
  pristine w → write_target w b ≠ Primitive.
Proof.
  intros Hw. unfold write_target. rewrite (heir_pristine w b Hw).
  destruct (i18nProperties w !! b); [done|]. case_bool_decide; [done|].
  by destruct (inherited b).
Qed.

Lemma write_target_prototype (w : World) (b : string) :
  write_target w b = ThePrototype → b = "__proto__".
Proof.
  unfold write_target. destruct (i18nProperties w !! b); [done|].
  destruct (heir w b) as [[|k|x]|] eqn:Hheir; try done.
  - intros _. by apply (heir_itself w).
  - by destruct (truthy x).
Qed.

Lemma own_or_inherited_pristine (w : World) (p : PropName) (v : JSVal) :
  pristine w → own_or_inherited w p v = v.
Proof.
  unfold pristine, own_or_inherited, proto_value. intros ->.
  by destruct v.
Qed.

(** ** setI18nProperty *)

Lemma setI18nProperty_falsy (b : string) (p : PropName) (v : JSVal) (w : World) :
  truthy v = false → setI18nProperty b p v w = (w, Ok None).
Proof. intros Hv. unfold setI18nProperty. by rewrite Hv. Qed.

Lemma setI18nProperty_truthy (b : string) (p : PropName) (v : JSVal) (w : World) :
  truthy v = true →
  setI18nProperty b p v w
  = match write_target w b with
    | OwnRecord props =>
        (set_i18nProperties
           (<[b := <[prop_name p := v]> props]> (i18nProperties w)) w,
         Ok (Some (i18n_key b (prop_name p))))
    | NewRecord =>
        (set_i18nProperties
           (<[b := {[prop_name p := v]}]> (i18nProperties w)) w,
         Ok (Some (i18n_key b (prop_name p))))
    | ThePrototype =>
        (set_prototypeProperties (<[p := v]> (prototypeProperties w)) w,
         Ok (Some (i18n_key b (prop_name p))))
    | MemberFunction k =>
        (set_memberProperties
           (<[k := <[p := v]> (default ∅ (memberProperties w !! k))]>
              (memberProperties w)) w,
         Ok (Some (i18n_key b (prop_name p))))
    | Primitive =>
        (w, Throw (TypeError "cannot create a property on a primitive value"))
    end.
Proof.
  intros Hv. unfold setI18nProperty. rewrite Hv. simpl. unfold bind, get.
  by destruct (write_target w b).
Qed.

(** A call either returns the key ([null] for a falsy value), or throws
    with nothing changed because the write would land on a primitive. *)
Lemma setI18nProperty_frame (b : string) (p : PropName) (v : JSVal) (w : World) :
  ∃ w' r,
    setI18nProperty b p v w = (w', r)
    ∧ frame b w w'
    ∧ toggles w' = toggles w
    ∧ (r = Ok (if truthy v then Some (i18n_key b (prop_name p)) else None)
       ∨ ((∃ e, r = Throw e) ∧ w' = w ∧ truthy v = true
          ∧ write_target w b = Primitive)).
Proof.
  destruct (truthy v) eqn:Hv.
  2:{ rewrite setI18nProperty_falsy by done. exists w, (Ok None).
      split_and!; [done|apply frame_refl|done|by left]. }
  rewrite setI18nProperty_truthy by done.
  destruct (write_target w b) as [props| | |k|] eqn:Htarget;
    eexists _, _; (split; [reflexivity|]); unfold frame; simpl.
  - split_and!; try done. by left.
  - split_and!; try done. by left.
  - split_and!; try done; [|by left].
    intros Hne. by apply write_target_prototype in Htarget.
  - split_and!; try done. by left.
  - split_and!; try done. right. split_and!; eauto.
Qed.

Ltac step_i18n w' :=
  let r := fresh "r" in
  let Heq := fresh "Heq" in
  let Hf := fresh "Hf" in
  let Ht := fresh "Ht" in
  let Hr := fresh "Hr" in
  match goal with
  | |- context [setI18nProperty ?b ?p ?v ?w] =>
      destruct (setI18nProperty_frame b p v w) as (w' & r & Heq & Hf & Ht & Hr);
      rewrite Heq; clear Heq
  end.


(** ** The stylesheet of a toggle button *)

Lemma rules_accepted_names (accepts : string → bool) (group : list ButtonSpec) :
  rules_accepted accepts group = names_accepted accepts (member_names group).
Proof.
  unfold rules_accepted, names_accepted, member_names.
  induction group as [|spec rest IH]; simpl; [done|]. by rewrite IH.
Qed.

Lemma hide_rule_texts_snoc (names : list JSVal) (n : JSVal) :
  hide_rule_texts (names ++ [n])
  = [data_name_rule n; class_rule n] ++ hide_rule_texts names.
Proof. unfold hide_rule_texts. by rewrite reverse_snoc, bind_cons. Qed.

(** The loop either inserts both rules of every name, in front of the rules
    before, or stops at the first rule the host refuses. *)
Lemma insert_hide_rules_spec (accepts : string → bool) (names : list JSVal)
    (sheet : CSSStyleSheet) :
  if names_accepted accepts names
  then ∃ sheet',
         insert_hide_rules accepts names sheet = Ok sheet'
         ∧ disabled sheet' = disabled sheet
         ∧ cssRules sheet' = hide_rule_texts names ++ cssRules sheet
  else ∃ rule n,
         insert_hide_rules accepts names sheet = Throw (SyntaxError rule)
         ∧ accepts rule = false
         ∧ n ∈ names
         ∧ (rule = class_rule n ∨ rule = data_name_rule n).
Proof.
  revert sheet. induction names as [|n rest IH]; intros sheet.
  { simpl. by exists sheet. }
  unfold names_accepted in *. cbn [forallb insert_hide_rules].
  unfold hide_rules, insertRule.
  destruct (accepts (class_rule n)) eqn:Hclass; cbn [andb].
  2:{ exists (class_rule n), n. split_and!; [done|done|left|by left]. }
  destruct (accepts (data_name_rule n)) eqn:Hdata; cbn [andb].
  2:{ exists (data_name_rule n), n. split_and!; [done|done|left|by right]. }
  match goal with
  | |- context [insert_hide_rules accepts rest ?s] => specialize (IH s)
  end.
  destruct (forallb _ rest).
  - destruct IH as (sheet' & -> & Hd & Hr). exists sheet'.
    split_and!; [done|done|]. rewrite Hr. simpl.
    change (n :: rest) with ([n] ++ rest). unfold hide_rule_texts.
    rewrite reverse_app, bind_app. simpl. by rewrite <-app_assoc.
  - destruct IH as (rule & m & -> & Hrule & Hm & Hshape).
    exists rule, m. split_and!; [done|done|by right|done].
Qed.

Lemma insert_hide_rules_disabled (accepts : string → bool) (names : list JSVal)
    (sheet sheet' : CSSStyleSheet) :
  insert_hide_rules accepts names sheet = Ok sheet' →
  disabled sheet' = disabled sheet.
Proof.
  pose proof (insert_hide_rules_spec accepts names sheet) as Hspec.
  destruct (names_accepted accepts names).
  - destruct Hspec as (s & -> & Hd & _). by intros [= <-].
  - by destruct Hspec as (rule & n & -> & _).
Qed.

Section ResolverFacts.

Context (BUTTONS : gmap string ButtonDefinition)
        (TRANSLATIONS : option (list TranslationEntry))
        (groups : gmap string (list ButtonSpec))
        (global_name : string).

Local Abbreviation iterated_names := (iterated_names groups).
Local Abbreviation makeToggleAction := (makeToggleAction groups).
Local Abbreviation makeAction := (makeAction TRANSLATIONS groups).
Local Abbreviation makeCommonButtonOptions :=
  (makeCommonButtonOptions BUTTONS TRANSLATIONS groups).
Local Abbreviation addToolbarButton :=
  (addToolbarButton BUTTONS TRANSLATIONS groups).
Local Abbreviation addPopupMenuButtonWithCondition :=
  (addPopupMenuButtonWithCondition BUTTONS TRANSLATIONS groups global_name).

(** [makeToggleAction] either throws and changes nothing, or appends one
    consistent closure and returns the callback that refers to it. *)
Lemma makeToggleAction_cases (buttonName : string) (groupName startHidden : JSVal)
    (w : World) :
  (∃ e, makeToggleAction buttonName groupName startHidden w = (w, Throw e)
        ∧ (iterated_names w buttonName (to_string groupName) = Throw e
           ∨ ∃ names, iterated_names w buttonName (to_string groupName) = Ok names
                      ∧ insert_hide_rules (acceptsRule w) names
                          (mkSheet (negb (truthy startHidden)) []) = Throw e))
  ∨ (∃ names sheet,
       iterated_names w buttonName (to_string groupName) = Ok names
       ∧ insert_hide_rules (acceptsRule w) names
           (mkSheet (negb (truthy startHidden)) []) = Ok sheet
       ∧ makeToggleAction buttonName groupName startHidden w
         = (set_toggles (toggles w ++ [mkToggle (truthy startHidden) sheet]) w,
            Ok (ToggleAction (length (toggles w))))
       ∧ disabled sheet = negb (truthy startHidden)).
Proof.
  unfold makeToggleAction, bind, get.
  destruct (iterated_names w buttonName (to_string groupName)) as [names|e].
  2:{ left. exists e. split; [done|by left]. }
  destruct (insert_hide_rules (acceptsRule w) names
              (mkSheet (negb (truthy startHidden)) [])) as [sheet|e] eqn:Hloop.
  - right. exists names, sheet. split_and!; [done..|].
    by apply insert_hide_rules_disabled in Hloop.
  - left. exists e. split; [done|]. right. by exists names.
Qed.

Lemma makeToggleAction_frame (buttonName : string)
    (groupName startHidden : JSVal) (w : World) :
  frame buttonName w (fst (makeToggleAction buttonName groupName startHidden w)).
Proof.
  destruct (makeToggleAction_cases buttonName groupName startHidden w)
    as [(e & -> & _)|(names & sheet & _ & _ & -> & _)]; simpl.
  - apply frame_refl.
  - unfold frame. simpl. split_and!; try done. by apply prefix_app_r.
Qed.


(** ** makeAction *)

Lemma makeAction_found (buttonName : string)
    (definition : JSProp ButtonDefinition) (w : World) :
  definition ≠ Missing →
  let translated f param :=
    applyTranslation TRANSLATIONS (field f definition) buttonName param in
  let exampleText :=
    applyTranslation TRANSLATIONS
      (definition_prop w buttonName definition PropExampleText def_exampleText)
      buttonName "exampleText" in
  let action := field def_action definition in
  makeAction buttonName definition w
  = if bool_decide (action = JStr Action.insert) then
      (w, Ok (makeInsertAction buttonName (translated def_prefix "prefix")))
    else if bool_decide (action = JStr Action.surround) then
      makeSurroundAction buttonName (translated def_prefix "prefix")
        (translated def_suffix "suffix") exampleText
        (field def_lineMode definition) w
    else if bool_decide (action = JStr Action.list) then
      makeListAction buttonName (translated def_prefix "prefix") exampleText
        (field def_lineMode definition) w
    else if bool_decide (action = JStr Action.toggleGroup) then
      makeToggleAction buttonName (translated def_groupName "groupName")
        (translated def_startHidden "startHidden") w
    else (w, Throw (UnknownAction buttonName action)).
Proof.
  intros Hfound. cbn zeta. unfold makeAction.
  destruct definition as [d| |]; [| |done];
    repeat (case_bool_decide; [reflexivity|]); reflexivity.
Qed.

Lemma makeAction_missing (buttonName : string) (w : World) :
  makeAction buttonName Missing w
  = (w, Throw (TypeError "definition is undefined")).
Proof. reflexivity. Qed.

Lemma makeAction_frame (buttonName : string)
    (definition : JSProp ButtonDefinition) (w : World) :
  frame buttonName w (fst (makeAction buttonName definition w)).
Proof.
  assert (definition = Missing ∨ definition ≠ Missing) as [->|Hfound]
    by (destruct definition; [by right|by right|by left]).
  { rewrite makeAction_missing. apply frame_refl. }
  rewrite makeAction_found by done. cbn zeta.
  case_bool_decide; [apply frame_refl|].
  case_bool_decide.
  { unfold makeSurroundAction, bind. step_i18n w1.
    by destruct Hr as [->|((e & ->) & _)]. }
  case_bool_decide.
  { unfold makeListAction, bind. step_i18n w1.
    by destruct Hr as [->|((e & ->) & _)]. }
  case_bool_decide; [|apply frame_refl].
  apply makeToggleAction_frame.
Qed.


(** ** makeCommonButtonOptions *)

(** The function, with its sequencing written out. *)
Lemma makeCommonButtonOptions_unfold (spec : ButtonSpec) (w : World) :
  let buttonName := to_string (of_option (name spec)) in
  let definition := js_get_in w BUTTONS buttonName in
  makeCommonButtonOptions spec w
  = match definition with
    | Missing => (w, Throw (TypeError "definition is undefined"))
    | _ =>
        match setI18nProperty buttonName PropTitle
                (applyTranslation TRANSLATIONS
                   (definition_prop w buttonName definition PropTitle def_title)
                   buttonName "title") w with
        | (w1, Throw e) => (w1, Throw e)
        | (w1, Ok titleKey) =>
            match makeAction buttonName definition w1 with
            | (w2, Throw e) => (w2, Throw e)
            | (w2, Ok action) =>
                match setI18nProperty buttonName PropNonIcon
                        (applyTranslation TRANSLATIONS
                           (definition_prop w2 buttonName definition PropNonIcon
                              def_nonIcon)
                           buttonName "nonIcon") w2 with
                | (w3, Throw e) => (w3, Throw e)
                | (w3, Ok nonIconKey) =>
                    (w3, Ok {| co_icon := field def_svg_icon definition;
                               co_nonIconKey :=
                                 (λ k, composer_key (Some k)) <$> nonIconKey;
                               co_titleKey := composer_key titleKey;
                               co_elementId :=
                                 makeButtonIdentifier (of_option (name spec));
                               co_action := action;
                               co_buttonName := buttonName;
                               co_definition := definition |})
                end
            end
        end
    end.
Proof.
  cbn zeta. unfold makeCommonButtonOptions, bind, get. cbn beta iota.
  destruct (js_get_in w BUTTONS (to_string (of_option (name spec))));
    [|
     |reflexivity];
    (destruct (setI18nProperty _ _ _ w) as [w1 [titleKey|e]]; [|reflexivity];
     destruct (makeAction _ _ w1) as [w2 [action|e]]; [|reflexivity];
     destruct (setI18nProperty _ _ _ w2) as [w3 [nonIconKey|e]]; reflexivity).
Qed.

Lemma makeCommonButtonOptions_frame (spec : ButtonSpec) (w : World) :
  frame (to_string (of_option (name spec))) w
        (fst (makeCommonButtonOptions spec w)).
Proof.
  rewrite makeCommonButtonOptions_unfold. cbn zeta.
  set (buttonName := to_string (of_option (name spec))).
  assert (∀ definition : JSProp ButtonDefinition,
    frame buttonName w
      (fst match setI18nProperty buttonName PropTitle
                   (applyTranslation TRANSLATIONS
                      (definition_prop w buttonName definition PropTitle def_title)
                      buttonName "title") w with
           | (w1, Throw e) => (w1, @Throw CommonButtonOptions e)
           | (w1, Ok titleKey) =>
               match makeAction buttonName definition w1 with
               | (w2, Throw e) => (w2, Throw e)
               | (w2, Ok action) =>
                   match setI18nProperty buttonName PropNonIcon
                           (applyTranslation TRANSLATIONS
                              (definition_prop w2 buttonName definition
                                 PropNonIcon def_nonIcon)
                              buttonName "nonIcon") w2 with
                   | (w3, Throw e) => (w3, Throw e)
                   | (w3, Ok nonIconKey) =>
                       (w3, Ok {| co_icon := field def_svg_icon definition;
                                  co_nonIconKey :=
                                    (λ k, composer_key (Some k)) <$> nonIconKey;
                                  co_titleKey := composer_key titleKey;
                                  co_elementId :=
                                    makeButtonIdentifier (of_option (name spec));
                                  co_action := action;
                                  co_buttonName := buttonName;
                                  co_definition := definition |})
                   end
               end
           end)) as Hfound.
  { intros definition. step_i18n w1.
    destruct r as [titleKey|e]; [|done].
    pose proof (makeAction_frame buttonName definition w1) as Hf2.
    destruct (makeAction buttonName definition w1) as [w2 [action|e]];
      simpl in Hf2; [|by eapply frame_trans].
    step_i18n w3.
    destruct r as [nonIconKey|e]; simpl;
      (eapply frame_trans; [exact Hf|]); by eapply frame_trans. }
  destruct (js_get_in w BUTTONS buttonName) as [d| |].
  - apply Hfound.
  - apply Hfound.
  - apply frame_refl.
Qed.

(** When the options are made, the definition is a record of the settings
    and the identifier is the button's. *)
Lemma makeCommonButtonOptions_ok (spec : ButtonSpec) (w w' : World)
    (o : CommonButtonOptions) :
  makeCommonButtonOptions spec w = (w', Ok o) →
  co_elementId o = makeButtonIdentifier (of_option (name spec))
  ∧ co_buttonName o = to_string (of_option (name spec))
  ∧ ∃ d, BUTTONS !! to_string (of_option (name spec)) = Some d
         ∧ co_definition o = Own d.
Proof.
  rewrite makeCommonButtonOptions_unfold. cbn zeta.
  set (buttonName := to_string (of_option (name spec))).
  unfold js_get_in.
  destruct (BUTTONS !! buttonName) as [d|] eqn:Hd.
  - destruct (setI18nProperty _ _ _ w) as [w1 [titleKey|e]]; [|done].
    destruct (makeAction _ _ w1) as [w2 [action|e]]; [|done].
    destruct (setI18nProperty _ _ _ w2) as [w3 [nonIconKey|e]]; [|done].
    intros [= <- <-]. simpl. split_and!; [done..|]. by exists d.
  - assert (∀ w1, ∃ e, makeAction buttonName Inherited w1 = (w1, Throw e))
      as Hthrows.
    { intros w1. rewrite makeAction_found by done. cbn zeta. simpl.
      by eexists. }
    destruct (heir w buttonName) as [[|k|[| |x|s]]|]; try done;
      (destruct (setI18nProperty _ _ _ w) as [w1 [titleKey|e]]; [|done];
       destruct (Hthrows w1) as (e & ->); done).
Qed.


(** ** The two registration paths *)

(** [addToolbarButton] either adds one button, with the entry's identifier,
    zone and shortcut, or throws and adds none. *)
Lemma addToolbarButton_cases (zone : option string) (spec : ButtonSpec)
    (w : World) :
  ∃ w' r,
    addToolbarButton zone spec w = (w', r)
    ∧ popupMenuOptions w' = popupMenuOptions w
    ∧ consoleLog w' = consoleLog w
    ∧ acceptsRule w' = acceptsRule w
    ∧ toggles w `prefix_of` toggles w'
    ∧ (to_string (of_option (name spec)) ≠ "__proto__" →
       prototypeProperties w' = prototypeProperties w)
    ∧ ((∃ o w1,
          makeCommonButtonOptions spec w = (w1, Ok o)
          ∧ r = Ok tt
          ∧ ∃ b, toolbarButtons w' = toolbarButtons w ++ [b]
                 ∧ toolbar_view b
                   = (makeButtonIdentifier (of_option (name spec)), zone,
                      shortcut spec)
                 ∧ tb_perform b = co_action o
                 ∧ tb_trimLeading b = true)
       ∨ ((∃ e, makeCommonButtonOptions spec w = (w', Throw e) ∧ r = Throw e)
          ∧ toolbarButtons w' = toolbarButtons w)).
Proof.
  unfold addToolbarButton, bind.
  pose proof (makeCommonButtonOptions_frame spec w)
    as (Hp & Hb & Hl & Ha & Ht & Hproto).
  destruct (makeCommonButtonOptions spec w) as [w1 [o|e]] eqn:Hmake;
    simpl in Hp, Hb, Hl, Ha, Ht, Hproto.
  - rewrite modify_eq. eexists _, _. split; [reflexivity|]. simpl.
    split_and!; [done..|]. left. exists o, w1. split_and!; [done..|].
    eexists. split; [by rewrite Hb|]. unfold toolbar_view. simpl.
    destruct (makeCommonButtonOptions_ok _ _ _ _ Hmake) as (-> & _).
    done.
  - eexists _, _. split; [reflexivity|]. split_and!; [done..|].
    right. split; [by exists e|done].
Qed.

(** The popup path either registers one option or throws and registers
    none. *)
Lemma addPopupMenuButtonWithCondition_cases (spec : ButtonSpec)
    (allowD allowM : bool) (w : World) :
  ∃ w' r,
    addPopupMenuButtonWithCondition spec allowD allowM w = (w', r)
    ∧ toolbarButtons w' = toolbarButtons w
    ∧ consoleLog w' = consoleLog w
    ∧ acceptsRule w' = acceptsRule w
    ∧ toggles w `prefix_of` toggles w'
    ∧ (to_string (of_option (name spec)) ≠ "__proto__" →
       prototypeProperties w' = prototypeProperties w)
    ∧ ((r = Ok tt
        ∧ ∃ o common w1,
            makeCommonButtonOptions spec w = (w1, Ok common)
            ∧ popupMenuOptions w' = popupMenuOptions w ++ [o]
            ∧ pm_name o = global_name
            ∧ pm_shortcut o = shortcut spec
            ∧ pm_action o = TrimThen (co_action common)
            ∧ pm_condition o = ViewportCondition allowD allowM)
       ∨ ((∃ e, r = Throw e) ∧ popupMenuOptions w' = popupMenuOptions w)).
Proof.
  unfold addPopupMenuButtonWithCondition. unfold bind at 1.
  pose proof (makeCommonButtonOptions_frame spec w)
    as (Hp & Hb & Hl & Ha & Ht & Hproto).
  destruct (makeCommonButtonOptions spec w) as [w1 [common|e]] eqn:Hmake;
    simpl in Hp, Hb, Hl, Ha, Ht, Hproto.
  2:{ eexists _, _. split; [reflexivity|]. split_and!; [done..|].
      right. split; [by exists e|done]. }
  destruct (makeCommonButtonOptions_ok _ _ _ _ Hmake) as (_ & Hname & _).
  unfold bind at 1. rewrite Hname. step_i18n w2.
  destruct Hf as (Hp2 & Hb2 & Hl2 & Ha2 & _ & Hproto2).
  destruct Hr as [->|((e & ->) & -> & _)].
  - rewrite modify_eq. eexists _, _. split; [reflexivity|]. simpl.
    split_and!; try congruence.
    { intros Hne. by rewrite Hproto2, Hproto. }
    left. split; [done|]. eexists _, common, w1. split; [done|].
    split; [by rewrite Hp2, Hp|]. done.
  - eexists _, _. split; [reflexivity|]. split_and!; try done.
    right. split; [by exists e|done].
Qed.

End ResolverFacts.

(** * Facts about the initializer's two loops *)

Lemma skip_test (isDesktop : bool) (e : LayoutEntry) :
  (isDesktop && negb (allowDesktop e)) || (negb isDesktop && negb (allowMobile e))
  = negb (viewport_allows isDesktop e).
Proof.
  unfold viewport_allows. by destruct isDesktop, (allowDesktop e), (allowMobile e).
Qed.

Lemma frame_pristine (b : string) (w w' : World) :
  frame b w w' → b ≠ "__proto__" → pristine w → pristine w'.
Proof.
  unfold pristine. intros (_ & _ & _ & _ & _ & Hproto) Hb Hw. by rewrite Hproto.
Qed.



(** Whatever the state, the registration loop returns, leaves the toolbar
    alone, and every option it registers has the global [name] as its
    [name] and the shortcut and flags of a gear-menu entry, in plan order. *)
Lemma register_popups_returns (c : Component) (w : World) :
  let w' := fst (register_popups c w) in
  snd (register_popups c w) = Ok tt
  ∧ toolbarButtons w' = toolbarButtons w
  ∧ acceptsRule w' = acceptsRule w
  ∧ ∃ kept os,
      kept `sublist_of` gearmenu (comp_layout c)
      ∧ popupMenuOptions w' = popupMenuOptions w ++ os
      ∧ Forall2 (λ e o, pm_name o = comp_name c
                        ∧ pm_shortcut o = shortcut (buttonSpec e)
                        ∧ pm_condition o
                          = ViewportCondition (allowDesktop e) (allowMobile e)
                        ∧ ∃ a, pm_action o = TrimThen a)
          kept os.
Proof.
  unfold register_popups.
  generalize (gearmenu (comp_layout c)) as plan. intros plan. revert w.
  induction plan as [|e rest IH]; intros w; cbn zeta.
  { simpl. split_and!; [done..|]. exists [], []. rewrite app_nil_r.
    split_and!; [done|done|constructor]. }
  rewrite for_of_cons, try_catch_eq.
  destruct (addPopupMenuButtonWithCondition_cases (comp_BUTTONS c)
              (comp_TRANSLATIONS c) (comp_TOGGLE_GROUPS c) (comp_name c)
              (buttonSpec e) (allowDesktop e) (allowMobile e) w)
    as (w1 & r & -> & Hb & Hl & Ha & _ & _ & Hr).
  destruct Hr as [(-> & o & common & w0 & _ & Hp & Hn & Hs & Hact & Hc)
                 |((err & ->) & Hp)].
  - cbn beta iota.
    destruct (IH w1) as (Hok & Hb' & Ha' & kept & os & Hsub & Hp' & Hall).
    split_and!; [done|congruence|congruence|].
    exists (e :: kept), (o :: os). split; [by constructor|].
    rewrite Hp', Hp, <-app_assoc. split; [done|].
    constructor; [|done]. split_and!; eauto.
  - rewrite modify_eq.
    destruct (IH (log_error (None, err) w1))
      as (Hok & Hb' & Ha' & kept & os & Hsub & Hp' & Hall).
    split_and!; [done|by rewrite Hb'|by rewrite Ha'|].
    exists kept, os. split; [by constructor|].
    rewrite Hp'. simpl. by rewrite Hp.
Qed.


(** * trimLeading *)

Lemma leading_whitespace_all (v : list N) :
  Forall (λ c, is_whitespace c = true) (leading_whitespace v).
Proof.
  induction v as [|c rest IH]; simpl; [constructor|].
  destruct (is_whitespace c) eqn:Hc; by constructor.
Qed.

Lemma leading_whitespace_split (v : list N) :
  v = leading_whitespace v ++ drop (length (leading_whitespace v)) v.
Proof.
  induction v as [|c rest IH]; simpl; [done|].
  destruct (is_whitespace c); simpl; [by f_equal|done].
Qed.

Lemma leading_whitespace_rest (v : list N) (c : N) :
  head (drop (length (leading_whitespace v)) v) = Some c →
  is_whitespace c = false.
Proof.
  induction v as [|a rest IH]; simpl; [done|].
  destruct (is_whitespace a) eqn:Ha; simpl; [done|]. by intros [= <-].
Qed.

(** The loop counts exactly the leading whitespace once it is given as
    many rounds as there are code units left. *)
Lemma trimLeading_loop_spec (rounds : nat) (v : list N) (i : nat) :
  (length v - i ≤ rounds)%nat →
  trimLeading_loop rounds v i
  = (i + length (leading_whitespace (drop i v)))%nat.
Proof.
  revert i. induction rounds as [|rounds IH]; intros i Hrounds; simpl.
  - rewrite drop_ge by lia. simpl. lia.
  - destruct (v !! i) as [c|] eqn:Hc.
    + rewrite bool_decide_eq_true_2 by (by eapply lookup_lt_Some).
      rewrite (drop_S _ _ _ Hc). simpl.
      destruct (is_whitespace c); simpl; [|lia].
      rewrite IH by lia. lia.
    + rewrite andb_false_r. apply lookup_ge_None in Hc.
      rewrite drop_ge by lia. simpl. lia.
Qed.

Lemma trimLeading_unfold (selection : Selection) :
  trimLeading selection
  = {| start := start selection
                + Z.of_nat (length (leading_whitespace (sel_value selection)));
       sel_value := drop (length (leading_whitespace (sel_value selection)))
                         (sel_value selection) |}.
Proof.
  unfold trimLeading. rewrite trimLeading_loop_spec by lia.
  rewrite drop_0. simpl.
  destruct (leading_whitespace (sel_value selection)) as [|c ws]; simpl.
  - destruct selection; simpl. f_equal. lia.
  - by rewrite ?bool_decide_eq_true_2 by lia.
Qed.

(** C10.  [trimLeading] moves [start] forward by the length of the maximal
    whitespace prefix of [value] and keeps the rest of [value]: the old
    value is that prefix followed by the new value, the new value does not
    begin with whitespace, and trimming again changes nothing.  The click
    callback of every registered popup-menu option runs the button's
    resolved action on the event with its selection trimmed. *)
Theorem trimLeading_spec (selection : Selection) :
  let ws := leading_whitespace (sel_value selection) in
  let trimmed := trimLeading selection in
  start trimmed = (start selection + Z.of_nat (length ws))%Z
  ∧ sel_value selection = ws ++ sel_value trimmed
  ∧ Forall (λ c, is_whitespace c = true) ws
  ∧ (∀ c, head (sel_value trimmed) = Some c → is_whitespace c = false)
  ∧ trimLeading trimmed = trimmed
  ∧ (∀ BUTTONS TRANSLATIONS groups global_name spec allowD allowM w w',
       addPopupMenuButtonWithCondition BUTTONS TRANSLATIONS groups global_name
         spec allowD allowM w = (w', Ok tt) →
       ∃ o common w1,
         makeCommonButtonOptions BUTTONS TRANSLATIONS groups spec w
         = (w1, Ok common)
         ∧ popupMenuOptions w' = popupMenuOptions w ++ [o]
         ∧ ∀ ev world,
             selected ev = selection →
             click (pm_action o) ev world
             = perform (co_action common) (mkEvent trimmed (calls ev)) world).
Proof.
  cbn zeta. rewrite !trimLeading_unfold. simpl. split_and!.
  - done.
  - apply leading_whitespace_split.
  - apply leading_whitespace_all.
  - apply leading_whitespace_rest.
  - set (v := sel_value selection).
    assert (leading_whitespace (drop (length (leading_whitespace v)) v) = [])
      as ->.
    { pose proof (leading_whitespace_rest v) as Hrest.
      destruct (drop (length (leading_whitespace v)) v) as [|c rest]; [done|].
      simpl in *. by rewrite (Hrest c eq_refl). }
    simpl. f_equal. lia.
  - intros BUTTONS TRANSLATIONS groups global_name spec allowD allowM w w' Hadd.
    destruct (addPopupMenuButtonWithCondition_cases BUTTONS TRANSLATIONS groups
                global_name spec allowD allowM w)
      as (w2 & r & Heq & _ & _ & _ & _ & _ & Hr).
    rewrite Hadd in Heq. injection Heq as <- <-.
    destruct Hr as [(_ & o & common & w1 & Hmk & Hp & _ & _ & Ha & _)
                   |((e & [=]) & _)].
    exists o, common, w1. split_and!; [done..|].
    intros ev world <-. rewrite Ha. simpl. by rewrite trimLeading_unfold.
Qed.

Lemma trimLeading_spec_witness :
  let sel := mkSelection 5 [32; 9; 65; 32]%N in
  let BUTTONS := buttons_table [sample_surround "italic"] in
  let added := addPopupMenuButtonWithCondition BUTTONS None ∅ ""
                 (mkButtonSpec (Some "italic") None None) true true
                 (empty_world sample_parser []) in
  trimLeading sel = mkSelection 7 [65; 32]%N
  ∧ trimLeading (trimLeading sel) = trimLeading sel
  ∧ snd added = Ok tt
  ∧ ∃ o, popupMenuOptions (fst added) = [o]
         ∧ fst (click (pm_action o) (mkEvent sel []) (fst added))
           = mkEvent (mkSelection 7 [65; 32]%N)
               [applySurround (JStr "**") (JStr "**")
                  (Some "ComposerButtonBonanza.italic.exampleText") false false].
Proof.
  cbn zeta.
  set (sel := mkSelection 5 [32; 9; 65; 32]%N).
  set (BUTTONS := buttons_table [sample_surround "italic"]).
  set (added := addPopupMenuButtonWithCondition BUTTONS None ∅ ""
                  (mkButtonSpec (Some "italic") None None) true true
                  (empty_world sample_parser [])).
  pose proof (trimLeading_spec sel) as (Hstart & Hvalue & _ & _ & Hidem & Hpopup).
  assert (added = (fst added, Ok tt)) as Hadded by (vm_compute; reflexivity).
  destruct (Hpopup BUTTONS None ∅ "" (mkButtonSpec (Some "italic") None None)
              true true (empty_world sample_parser []) (fst added) Hadded)
    as (o & common & w1 & Hmk & Hoptions & Hclick).
  assert (trimLeading sel = mkSelection 7 [65; 32]%N) as Htrim.
  { cbn zeta in Hstart, Hvalue. destruct (trimLeading sel) as [s v].
    simpl in Hstart, Hvalue. injection Hvalue as <-. by subst. }
  split_and!; [exact Htrim|exact Hidem|by rewrite Hadded|].
  exists o. split; [exact Hoptions|].
  rewrite (Hclick (mkEvent sel []) (fst added) eq_refl), Htrim.
  vm_compute in Hmk. injection Hmk as _ <-. vm_compute. reflexivity.
Defined.

(** * The toggle callback *)

Lemma flip_consistent (c : ToggleClosure) : consistent (flip c).
Proof. done. Qed.

Lemma flip_flip (c : ToggleClosure) : consistent c → flip (flip c) = c.
Proof.
  unfold consistent, flip. destruct c as [h [d rules]]. simpl.
  intros ->. by rewrite negb_involutive.
Qed.

Lemma perform_toggle_lookup (n : nat) (ev : ToolbarEvent) (w : World) :
  toggles (snd (perform (ToggleAction n) ev w)) !! n = flip <$> toggles w !! n.
Proof. simpl. apply list_lookup_alter_eq. Qed.

Lemma perform_toggle_twice (n : nat) (ev1 ev2 : ToolbarEvent) (w : World) :
  (∀ c, toggles w !! n = Some c → consistent c) →
  snd (perform (ToggleAction n) ev2 (snd (perform (ToggleAction n) ev1 w))) = w.
Proof.
  intros Hc. simpl. rewrite list_alter_alter_eq.
  rewrite (list_alter_ext _ id _ (toggles w) n); [|by intros c ?; apply flip_flip, Hc|done].
  rewrite list_alter_id by done. by destruct w.
Qed.

(** C7.  Once [makeToggleAction] has returned a callback, and after any
    number of earlier invocations of it, two further invocations leave
    everything as it was: the closure's [isHidden] and its stylesheet's
    [disabled] are back at the values they had before the first of the two,
    one invocation having negated both. *)
Theorem toggle_twice_restores (groups : gmap string (list ButtonSpec))
    (buttonName : string) (groupName startHidden : JSVal) (w0 w1 : World)
    (callback : Callback)
    (Hmade : makeToggleAction groups buttonName groupName startHidden w0
             = (w1, Ok callback)) :
  ∀ (earlier : nat) (ev ev1 ev2 : ToolbarEvent),
    let w := Nat.iter earlier (λ w, snd (perform callback ev w)) w1 in
    let once := snd (perform callback ev1 w) in
    let twice := snd (perform callback ev2 once) in
    twice = w
    ∧ ∃ n before after,
        callback = ToggleAction n
        ∧ toggles w !! n = Some before
        ∧ toggles once !! n = Some after
        ∧ toggles twice !! n = Some before
        ∧ isHidden after = negb (isHidden before)
        ∧ disabled (stylesheet after) = negb (disabled (stylesheet before))
        ∧ disabled (stylesheet before) = negb (isHidden before).
Proof.
  destruct (makeToggleAction_cases groups buttonName groupName startHidden w0)
    as [(e & Hthrow & _)|(names & sheet & _ & _ & Hspec & Hsheet)];
    [by rewrite Hthrow in Hmade|].
  rewrite Hspec in Hmade. injection Hmade as <- <-.
  intros earlier ev ev1 ev2. cbn zeta.
  set (n := length (toggles w0)).
  set (w1 := set_toggles _ w0).
  assert (∃ c, toggles (Nat.iter earlier
                          (λ w, snd (perform (ToggleAction n) ev w)) w1) !! n
               = Some c ∧ consistent c) as (c & Hc & Hcons).
  { induction earlier as [|k (c & Hc & Hcons)].
    - exists (mkToggle (truthy startHidden) sheet). split; [|done].
      simpl. by rewrite lookup_app_r, Nat.sub_diag by done.
    - exists (flip c). split; [|apply flip_consistent].
      by rewrite Nat.iter_succ, perform_toggle_lookup, Hc. }
  set (w := Nat.iter earlier _ w1) in *.
  assert (∀ c', toggles w !! n = Some c' → consistent c') as Hall
    by (intros c'; rewrite Hc; by intros [= <-]).
  split; [by apply perform_toggle_twice|].
  exists n, c, (flip c). rewrite (perform_toggle_twice n ev1 ev2 w Hall).
  rewrite perform_toggle_lookup, Hc. split_and!; try done.
  simpl. by rewrite Hcons.
Qed.

Lemma toggle_twice_restores_witness :
  let groups : gmap string (list ButtonSpec) :=
    {[ "more" := [mkButtonSpec (Some "bold") None (Some "more")] ]} in
  let made := makeToggleAction groups "toggle" (JStr "more") (JBool true)
                               (empty_world sample_parser []) in
  let ev := mkEvent (mkSelection 0 []) [] in
  snd made = Ok (ToggleAction 0)
  ∧ snd (perform (ToggleAction 0) ev
           (snd (perform (ToggleAction 0) ev (fst made)))) = fst made.
Proof.
  cbn zeta.
  set (groups := ({[ "more" := [mkButtonSpec (Some "bold") None (Some "more")] ]}
                  : gmap string (list ButtonSpec))).
  set (made := makeToggleAction groups "toggle" (JStr "more") (JBool true)
                                (empty_world sample_parser [])).
  assert (made = (fst made, Ok (ToggleAction 0))) as Hmade by (vm_compute; reflexivity).
  split; [by rewrite Hmade|].
  exact (proj1 (toggle_twice_restores groups "toggle" (JStr "more") (JBool true)
                  (empty_world sample_parser []) (fst made) (ToggleAction 0) Hmade
                  0%nat (mkEvent (mkSelection 0 []) [])
                  (mkEvent (mkSelection 0 []) [])
                  (mkEvent (mkSelection 0 []) []))).
Defined.

(** * Resolving a toggleGroup button *)

Lemma parseLayout_groups_nonempty {Def} (BUTTONS : gmap string Def)
    (layout : string) (log : list LogLine) :
  groups_nonempty (TOGGLE_GROUPS (parseLayout BUTTONS layout ∅ log)).
Proof.
  unfold parseLayout. apply parseLayout_loop_groups_nonempty.
  intros g l. simpl. by rewrite lookup_empty.
Qed.

Lemma js_get_own {V} (obj : gmap string V) (k : string) (v : V) :
  obj !! k = Some v → js_get obj k = Own v.
Proof. unfold js_get. by intros ->. Qed.

Lemma members_empty_iff (groups : gmap string (list ButtonSpec)) (g : string) :
  groups_nonempty groups →
  members groups g = [] ↔ is_own (js_get groups g) = false.
Proof.
  intros Hne. unfold members, js_get.
  destruct (groups !! g) as [l|] eqn:Hl; simpl.
  - split; [|done]. intros ->. by destruct (Hne g [] Hl).
  - by destruct (inherited g).
Qed.





(** * The placement plan *)

Lemma split_app (c : ascii) (a b : string) :
  split c (a +:+ String c b) = split c a ++ split c b.
Proof.
  induction a as [|x a IH]; simpl.
  - by rewrite Ascii.eqb_refl.
  - destruct (Ascii.eqb x c); [by rewrite IH|].
    rewrite IH. pose proof (split_nonempty c a) as Hne.
    by destruct (split c a).
Qed.

(** X2.  Away from the names inherited from [Object.prototype], the plan holds
    exactly one entry for each button entry whose name passes the button
    check, on the surface and in the zone current at its token, in token
    order; section keywords contribute nothing. *)
Lemma parseLayout_plan_prototype_free {Def} (BUTTONS : gmap string Def)
    (layout : string) (log : list LogLine) :
  prototype_free (split "|" layout) →
  let st := parseLayout BUTTONS layout ∅ log in
  let entries := button_entries extras (split "|" layout) in
  toolbar (result st)
  = (λ p, mkToolbarEntry (zone_of p.1) p.2)
      <$> filter (λ p, known BUTTONS (buttonSpec p.2) && on_toolbar p.1 = true)
                 entries
  ∧ gearmenu (result st)
    = snd <$> filter (λ p, known BUTTONS (buttonSpec p.2) && on_gearmenu p.1 = true)
                     entries
  ∧ Forall (λ p, on_toolbar p.1 || on_gearmenu p.1 = true) entries.
Proof.
  intros Hfree. cbn zeta.
  destruct (parseLayout_spec BUTTONS layout log) as (Htb & Hgm & _).
  pose proof (button_entries_prototype_free BUTTONS extras (split "|" layout)
                eq_refl Hfree) as Hall.
  rewrite Htb, Hgm. clear Htb Hgm. unfold planned_toolbar, planned_gearmenu.
  split_and!.
  - f_equal. induction Hall as [|p ps [_ Hp] _ IH]; [done|].
    by rewrite !filter_cons, Hp, IH.
  - f_equal. induction Hall as [|p ps [_ Hp] _ IH]; [done|].
    by rewrite !filter_cons, Hp, IH.
  - eapply Forall_impl; [exact Hall|]. by intros p [? _].
Qed.

(** X3.  A bad entry is isolated: a button entry whose name fails the button
    check contributes nothing, and the entries before and after it are
    planned as if it were not there.  The loop itself never throws. *)
Lemma parseLayout_skips_unknown {Def} (BUTTONS : gmap string Def)
    (layout : string) (log : list LogLine) (pre post : list string) (t : string) :
  split "|" layout = pre ++ t :: post →
  js_in SECTIONS t = false →
  known BUTTONS (buttonSpec (parseLayoutEntry t)) = false →
  let st := parseLayout BUTTONS layout ∅ log in
  let others := button_entries extras pre
                ++ button_entries (current_after extras pre) post in
  toolbar (result st) = planned_toolbar BUTTONS ∅ others
  ∧ gearmenu (result st) = planned_gearmenu BUTTONS ∅ others
  ∧ snd (parseLayout_loop BUTTONS (split "|" layout)
           (mkParseState extras (mkPlan [] []) ∅ log)) = Ok tt.
Proof.
  intros Hsplit Hsec Hunknown. cbn zeta.
  destruct (parseLayout_spec BUTTONS layout log) as (Htb & Hgm & _).
  rewrite Htb, Hgm, Hsplit, button_entries_app. simpl. rewrite Hsec.
  unfold planned_toolbar, planned_gearmenu, registered.
  rewrite !filter_app, !filter_cons. simpl. rewrite Hunknown. simpl.
  split_and!; [done..|]. apply parseLayout_loop_returns.
Qed.

(** C1.  The button [bold] is configured, and the layout's one entry names
    it, with a toggle-group called [valueOf].  [TOGGLE_GROUPS["valueOf"]]
    finds the function every object inherits, [||=] leaves it there, and
    calling its missing [push] throws: the entry is logged and the plan
    stays empty. *)
Theorem parseLayout_drops_configured_button :
  let BUTTONS := buttons_table [sample_surround "bold"] in
  let st := parseLayout BUTTONS "bold,,valueOf" ∅ [] in
  BUTTONS !! "bold" = Some (sample_surround "bold")
  ∧ name (buttonSpec (parseLayoutEntry "bold,,valueOf")) = Some "bold"
  ∧ result st = mkPlan [] []
  ∧ console st
    = [(Some "bold,,valueOf",
        TypeError "TOGGLE_GROUPS[toggleGroup].push is not a function")].
Proof. vm_compute. done. Qed.

(** C2.  No button called [valueOf] is configured, yet [valueOf] is a
    name that [BUTTONS] inherits, so ["valueOf" in BUTTONS] holds: the
    entry passes the button check and is planned, and nothing is logged. *)
Theorem parseLayout_plans_unconfigured_name :
  let BUTTONS := buttons_table [sample_surround "bold"] in
  let st := parseLayout BUTTONS "valueOf,alt+v" ∅ [] in
  BUTTONS !! "valueOf" = None
  ∧ result st
    = mkPlan [mkToolbarEntry (Some "extras")
                (mkLayoutEntry true true
                   (mkButtonSpec (Some "valueOf") (Some "alt+v") None))]
             []
  ∧ console st = [].
Proof. vm_compute. done. Qed.

(** * Toggle-group membership *)

(** The claim as worded fails: [ghost] is not a configured button, so its
    entry is rejected before the group is touched, although it declared the
    group. *)
Lemma toggle_group_membership_counterexample :
  members (TOGGLE_GROUPS (parseLayout (buttons_table [sample_surround "bold"])
                            "ghost,,more|bold,,more" ∅ []))
          "more"
  ≠ declaring_specs (split "|" "ghost,,more|bold,,more") "more".
Proof. vm_compute. intros [=]. Qed.

(** C5 (amended).  For a non-empty group name that is not inherited from
    [Object.prototype], the group's list after [parseLayout] is, in token
    order, the specs of the button entries that passed the button check
    and named the group: the table has no list for the group exactly when
    there is no such entry, permuting the tokens permutes the list, and a
    further token appends its spec if it is such an entry and changes
    nothing otherwise. *)
Theorem toggle_group_membership {Def} (BUTTONS : gmap string Def)
    (layout : string) (log : list LogLine) (g : string)
    (Hg : inherited g = false) (Hne : g ≠ "") :
  let groups := TOGGLE_GROUPS (parseLayout BUTTONS layout ∅ log) in
  let joining tokens :=
    filter (λ spec, known BUTTONS spec = true ∧ toggleGroup spec = Some g)
           (button_specs tokens) in
  members groups g = joining (split "|" layout)
  ∧ (groups !! g = None ↔ joining (split "|" layout) = [])
  ∧ (∀ layout' log',
       split "|" layout' ≡ₚ split "|" layout →
       members (TOGGLE_GROUPS (parseLayout BUTTONS layout' ∅ log')) g
       ≡ₚ members groups g)
  ∧ (∀ token,
       contains "|" token = false →
       members (TOGGLE_GROUPS
                  (parseLayout BUTTONS (layout +:+ String "|" token) ∅ log)) g
       = members groups g ++ joining [token]).
Proof.
  cbn zeta.
  assert (∀ layout0 log0,
    members (TOGGLE_GROUPS (parseLayout BUTTONS layout0 ∅ log0)) g
    = filter (λ spec, known BUTTONS spec = true ∧ toggleGroup spec = Some g)
             (button_specs (split "|" layout0))) as Hmembers.
  { intros layout0 log0.
    destruct (parseLayout_spec BUTTONS layout0 log0) as (_ & _ & Hmem).
    rewrite Hmem. unfold group_joiners. rewrite button_entries_specs.
    apply list_filter_iff. intros spec. by apply joins_empty_iff. }
  split_and!.
  - apply Hmembers.
  - rewrite <-(Hmembers layout log).
    rewrite (members_empty_iff _ g (parseLayout_groups_nonempty BUTTONS layout log)).
    unfold js_get. rewrite Hg.
    by destruct (TOGGLE_GROUPS (parseLayout BUTTONS layout ∅ log) !! g).
  - intros layout' log' Hperm. rewrite !Hmembers. unfold button_specs.
    by rewrite Hperm.
  - intros token Htoken. rewrite !Hmembers, split_app, (split_free _ _ Htoken).
    unfold button_specs. by rewrite filter_app, fmap_app, filter_app.
Qed.

Lemma toggle_group_membership_witness :
  inherited "more" = false
  ∧ members (TOGGLE_GROUPS (parseLayout (buttons_table [sample_surround "bold"])
                              "ghost,,more|bold,,more" ∅ []))
            "more"
    = [mkButtonSpec (Some "bold") (Some "") (Some "more")].
Proof.
  split; [reflexivity|].
  assert ("more" ≠ "") as Hne by discriminate.
  rewrite (proj1 (toggle_group_membership
                    (buttons_table [sample_surround "bold"])
                    "ghost,,more|bold,,more" [] "more" eq_refl Hne)).
  vm_compute. reflexivity.
Defined.

(** * Viewport decisions *)

Lemma initialize_world (settings : Settings) (host : Host) :
  snd (initialize settings host)
  = fst (register_popups (fst (initialize settings host))
           (empty_world (insertRule_accepts host) (console (parseLayout (buttons_table (buttons settings))
                                              (layout settings) ∅ [])))).
Proof. reflexivity. Qed.

Lemma condition_holds_viewport (e : LayoutEntry) (isDesktop : bool) :
  condition_holds (ViewportCondition (allowDesktop e) (allowMobile e)) isDesktop
  = viewport_allows isDesktop e.
Proof. reflexivity. Qed.







(** * The popup option's name *)

(** Whatever the button, the [name] of a registered option is the value of
    the global [name]. *)
Lemma popup_option_name_global (settings : Settings) (host : Host) :
  Forall (λ o, pm_name o = window_name host)
         (popupMenuOptions (snd (initialize settings host))).
Proof.
  rewrite initialize_world.
  destruct (register_popups_returns (fst (initialize settings host))
              (empty_world (insertRule_accepts host)
                 (console (parseLayout (buttons_table (buttons settings))
                                       (layout settings) ∅ []))))
    as (_ & _ & _ & kept & os & _ & -> & Hall).
  change (popupMenuOptions (empty_world _ _)) with (@nil PopupMenuOption).
  rewrite app_nil_l.
  induction Hall as [|e o es os (Hname & _) _ IH]; constructor; done.
Qed.

(** C9.  With [italic] placed in the popup menu and [window.name] at its
    default, the empty string, the registered option's [name] is the empty
    string, not the button's identifier
    ["ComposerButtonBonanza-btn-italic"]. *)
Theorem popup_option_name_not_identifier :
  let settings := mkSettings [sample_surround "italic"] [] "GEARMENU|italic" in
  let w := snd (initialize settings sample_host) in
  makeButtonIdentifier (JStr "italic") = "ComposerButtonBonanza-btn-italic"
  ∧ ∃ o, popupMenuOptions w = [o]
         ∧ pm_label o = "composer.ComposerButtonBonanza.italic.title"
         ∧ pm_name o = ""
         ∧ pm_name o ≠ makeButtonIdentifier (JStr "italic").
Proof.
  cbn zeta. split; [reflexivity|].
  eexists. split; [vm_compute; reflexivity|].
  split_and!; [reflexivity..|]. vm_compute. discriminate.
Qed.


(** * Further properties of the parser *)

Lemma iteration_accounts {Def} (BUTTONS : gmap string Def) (t : string)
    (st : ParseState) :
  let st' := iteration_effect BUTTONS t st in
  (length (toolbar (result st')) + length (gearmenu (result st'))
   + length (console st')
   = length (toolbar (result st)) + length (gearmenu (result st))
     + length (console st) + (if js_in SECTIONS t then 0 else 1))%nat
  ∧ ∃ new, console st' = console st ++ new
           ∧ Forall (λ line, line.1 = Some t ∧ js_in SECTIONS t = false) new.
Proof.
  cbn zeta. unfold iteration_effect.
  destruct (js_in SECTIONS t) eqn:Hsec.
  { simpl. split; [lia|]. exists []. by rewrite app_nil_r. }
  set (spec := buttonSpec (parseLayoutEntry t)).
  destruct (known BUTTONS spec); simpl.
  2:{ rewrite length_app. simpl. split; [lia|]. eexists. split; [done|].
      by repeat constructor. }
  destruct (group_refused (TOGGLE_GROUPS st) spec); simpl.
  { rewrite length_app. simpl. split; [lia|]. eexists. split; [done|].
    by repeat constructor. }
  destruct (declared_group spec), (currentSection st) as [[[] ?]| |] eqn:Hcur;
    simpl; rewrite ?Hcur; simpl; rewrite ?length_app; simpl;
    (split; [lia|]);
    solve [ exists []; by rewrite app_nil_r
          | eexists; split; [done|]; by repeat constructor ].
Qed.

(** X1.  [parseLayout] accounts for every button entry of the layout: the
    number of entries it plans (toolbar and popup menu together) plus the
    number of lines it logs is the number of button-entry tokens, and every
    line it logs carries one of those tokens.  A section keyword is neither
    planned nor logged. *)
Theorem parseLayout_accounts_for_every_entry {Def} (BUTTONS : gmap string Def)
    (layout : string) (groups : gmap string (list ButtonSpec))
    (log : list LogLine) :
  let st := parseLayout BUTTONS layout groups log in
  ∃ logged,
    console st = log ++ logged
    ∧ (length (toolbar (result st)) + length (gearmenu (result st))
       + length logged
       = length (button_specs (split "|" layout)))%nat
    ∧ Forall (λ line, ∃ t, line.1 = Some t
                           ∧ t ∈ split "|" layout
                           ∧ js_in SECTIONS t = false) logged.
Proof.
  cbn zeta. unfold parseLayout.
  assert (∀ tokens st,
    let st' := fst (parseLayout_loop BUTTONS tokens st) in
    ∃ logged,
      console st' = console st ++ logged
      ∧ (length (toolbar (result st')) + length (gearmenu (result st'))
         + length logged
         = length (toolbar (result st)) + length (gearmenu (result st))
           + length (button_specs tokens))%nat
      ∧ Forall (λ line, ∃ t, line.1 = Some t ∧ t ∈ tokens
                             ∧ js_in SECTIONS t = false) logged) as Hloop.
  { induction tokens as [|t rest IH]; intros st; cbn zeta.
    { exists []. simpl. rewrite app_nil_r. split_and!; [done|lia|constructor]. }
    rewrite parseLayout_loop_cons.
    destruct (IH (iteration_effect BUTTONS t st)) as (later & Hlog & Hcount & Hall).
    destruct (iteration_accounts BUTTONS t st) as (Hstep & now & Hnow & Hnowall).
    exists (now ++ later). split_and!.
    - by rewrite Hlog, Hnow, app_assoc.
    - rewrite Hnow, length_app in Hstep. rewrite length_app.
      unfold button_specs in Hcount |- *.
      rewrite filter_cons. rewrite !length_fmap in Hcount |- *.
      destruct (js_in SECTIONS t); cbn [decide_rel]; simpl length; lia.
    - apply Forall_app. split.
      + eapply Forall_impl; [exact Hnowall|]. intros line [? ?].
        exists t. split_and!; [done| |done]. left.
      + eapply Forall_impl; [exact Hall|]. intros line (t' & ? & ? & ?).
        exists t'. split_and!; [done| |done]. by right. }
  destruct (Hloop (split "|" layout)
              (mkParseState (Own (TOOLBAR, Some "extras")) (mkPlan [] []) groups log))
    as (logged & Hlog & Hcount & Hall).
  exists logged. split_and!; [exact Hlog|exact Hcount|exact Hall].
Qed.

Lemma sample_layout_prototype_free :
  prototype_free (split "|" "bold|GEARMENU|italic,,more|ghost").
Proof.
  intros t Ht. vm_compute in Ht.
  repeat (apply elem_of_cons in Ht as [->|Ht]);
    [..|by apply elem_of_nil in Ht];
    (split; [reflexivity|]); intros g Hg; vm_compute in Hg;
    first [discriminate Hg | injection Hg as <-; reflexivity].
Qed.

Lemma parseLayout_plan_prototype_free_witness :
  let BUTTONS := buttons_table [sample_surround "bold"; sample_surround "italic"] in
  let st := parseLayout BUTTONS "bold|GEARMENU|italic,,more|ghost" ∅ [] in
  prototype_free (split "|" "bold|GEARMENU|italic,,more|ghost")
  ∧ toolbar (result st)
    = [mkToolbarEntry (Some "extras")
         (mkLayoutEntry true true (mkButtonSpec (Some "bold") None None))]
  ∧ gearmenu (result st)
    = [mkLayoutEntry true true (mkButtonSpec (Some "italic") (Some "") (Some "more"))].
Proof.
  cbn zeta.
  destruct (parseLayout_plan_prototype_free
              (buttons_table [sample_surround "bold"; sample_surround "italic"])
              "bold|GEARMENU|italic,,more|ghost" []
              sample_layout_prototype_free) as (Htb & Hgm & _).
  split; [exact sample_layout_prototype_free|].
  split; [rewrite Htb|rewrite Hgm]; vm_compute; reflexivity.
Defined.

Lemma parseLayout_skips_unknown_witness :
  let BUTTONS := buttons_table [sample_surround "bold"; sample_surround "italic"] in
  let st := parseLayout BUTTONS "bold|ghost|italic" ∅ [] in
  split "|" "bold|ghost|italic" = ["bold"] ++ "ghost" :: ["italic"]
  ∧ known BUTTONS (buttonSpec (parseLayoutEntry "ghost")) = false
  ∧ toolbar (result st)
    = [mkToolbarEntry (Some "extras")
         (mkLayoutEntry true true (mkButtonSpec (Some "bold") None None));
       mkToolbarEntry (Some "extras")
         (mkLayoutEntry true true (mkButtonSpec (Some "italic") None None))].
Proof.
  cbn zeta.
  destruct (parseLayout_skips_unknown
              (buttons_table [sample_surround "bold"; sample_surround "italic"])
              "bold|ghost|italic" [] ["bold"] ["italic"] "ghost"
              eq_refl eq_refl eq_refl) as (Htb & _ & _).
  split; [reflexivity|]. split; [reflexivity|].
  rewrite Htb. vm_compute. reflexivity.
Defined.

(** * The earlier parser and the later one *)

Lemma early_iteration_simulates {Def} (BUTTONS : gmap string Def)
    (desktopView : bool) (t : string) (st : ParseState) :
  parseLayout_early_iteration BUTTONS desktopView t (early_of st)
  = (early_of (if kept_on desktopView t
               then fst (parseLayout_iteration BUTTONS t st) else st),
     Ok tt).
Proof.
  unfold parseLayout_early_iteration, parseLayout_iteration, try_catch,
    parseLayout_early_try, parseLayout_try, kept_on.
  destruct (js_in SECTIONS t); [done|]. rewrite skip_test. simpl.
  destruct (viewport_allows desktopView (parseLayoutEntry t)); simpl; [|done].
  set (spec := buttonSpec (parseLayoutEntry t)).
  destruct (js_in BUTTONS _); simpl; [|done].
  unfold bind.
  destruct (truthy (of_option (toggleGroup spec))).
  - unfold early_ensure_group, ensure_group, early_push_member, push_member.
    cbn [early_of early_TOGGLE_GROUPS].
    set (g := to_string (of_option (toggleGroup spec))).
    unfold js_get.
    destruct (TOGGLE_GROUPS st !! g) as [l|] eqn:Hl; simpl.
    + rewrite Hl.
      unfold early_place_entry, place_entry. simpl.
      destruct (currentSection st) as [[[] ?]| |] eqn:Hcur; simpl;
        unfold early_of; simpl; rewrite ?Hcur, ?fmap_app; done.
    + destruct (inherited g); simpl; rewrite ?Hl; [done|].
      rewrite lookup_insert_eq.
      unfold early_place_entry, place_entry. simpl.
      destruct (currentSection st) as [[[] ?]| |] eqn:Hcur; simpl;
        unfold early_of; simpl; rewrite ?Hcur, ?fmap_app; done.
  - unfold early_place_entry, place_entry, ret. simpl.
    destruct (currentSection st) as [[[] ?]| |] eqn:Hcur; simpl;
      unfold early_of; simpl; rewrite ?Hcur, ?fmap_app; done.
Qed.

Lemma early_loop_simulates {Def} (BUTTONS : gmap string Def)
    (desktopView : bool) (tokens : list string) (st : ParseState) :
  fst (for_of tokens (parseLayout_early_iteration BUTTONS desktopView)
         (early_of st))
  = early_of (fst (parseLayout_loop BUTTONS
                     (filter (λ t, kept_on desktopView t = true) tokens) st)).
Proof.
  revert st. induction tokens as [|t rest IH]; intros st; [done|].
  rewrite for_of_cons, early_iteration_simulates, filter_cons.
  destruct (kept_on desktopView t); simpl.
  - rewrite parseLayout_loop_cons, IH.
    by rewrite parseLayout_iteration_spec.
  - apply IH.
Qed.

Lemma button_entries_kept (desktopView : bool) (cur : JSProp SectionArray)
    (tokens : list string) :
  button_entries cur (filter (λ t, kept_on desktopView t = true) tokens)
  = filter (λ p, viewport_allows desktopView p.2 = true)
           (button_entries cur tokens).
Proof.
  revert cur. induction tokens as [|t rest IH]; intros cur; [done|].
  rewrite filter_cons.
  destruct (js_in SECTIONS t) eqn:Hsec.
  - assert (kept_on desktopView t = true) as Hkept
      by (unfold kept_on; by rewrite Hsec).
    rewrite decide_True by done. simpl. rewrite Hsec. apply IH.
  - assert (kept_on desktopView t
            = viewport_allows desktopView (parseLayoutEntry t)) as Hkept
      by (unfold kept_on; by rewrite Hsec).
    cbn [button_entries]. rewrite Hsec, filter_cons. cbn [snd].
    destruct (viewport_allows desktopView (parseLayoutEntry t)).
    + rewrite !decide_True by done. cbn [button_entries]. rewrite Hsec.
      by rewrite IH.
    + rewrite !decide_False by (rewrite ?Hkept; done). apply IH.
Qed.

Lemma filter_fmap_comm {A B} (f : A → B) (Q : B → Prop)
    `{!∀ y, Decision (Q y)} (l : list A) :
  filter Q (f <$> l) = f <$> filter (λ x, Q (f x)) l.
Proof.
  induction l as [|x l IH]; [done|]. rewrite fmap_cons, !filter_cons.
  destruct (decide (Q (f x))); by rewrite ?fmap_cons, IH.
Qed.

Lemma planned_toolbar_viewport {Def} (BUTTONS : gmap string Def)
    (desktopView : bool) (groups : gmap string (list ButtonSpec))
    (entries : list (JSProp SectionArray * LayoutEntry)) :
  planned_toolbar BUTTONS groups
    (filter (λ p, viewport_allows desktopView p.2 = true) entries)
  = filter (λ t, viewport_allows desktopView (placed t) = true)
           (planned_toolbar BUTTONS groups entries).
Proof.
  unfold planned_toolbar. rewrite filter_fmap_comm, !list_filter_filter.
  f_equal. apply list_filter_iff. intros p. simpl. tauto.
Qed.

Lemma planned_gearmenu_viewport {Def} (BUTTONS : gmap string Def)
    (desktopView : bool) (groups : gmap string (list ButtonSpec))
    (entries : list (JSProp SectionArray * LayoutEntry)) :
  planned_gearmenu BUTTONS groups
    (filter (λ p, viewport_allows desktopView p.2 = true) entries)
  = filter (λ e, viewport_allows desktopView e = true)
           (planned_gearmenu BUTTONS groups entries).
Proof.
  unfold planned_gearmenu. rewrite filter_fmap_comm, !list_filter_filter.
  f_equal. apply list_filter_iff. intros p. simpl. tauto.
Qed.

Lemma group_joiners_viewport {Def} (BUTTONS : gmap string Def)
    (desktopView : bool) (groups : gmap string (list ButtonSpec)) (g : string)
    (entries : list (JSProp SectionArray * LayoutEntry)) :
  group_joiners BUTTONS groups g
    (filter (λ p, viewport_allows desktopView p.2 = true) entries)
  `sublist_of` group_joiners BUTTONS groups g entries.
Proof.
  unfold group_joiners. induction entries as [|p ps IH]; [done|].
  rewrite filter_cons.
  destruct (viewport_allows desktopView p.2); simpl; rewrite ?filter_cons;
    destruct (joins BUTTONS groups g (buttonSpec p.2)); simpl;
    try (by constructor); done.
Qed.

(** X4.  The earlier parser, which tests the viewport while it parses, plans
    on a given viewport exactly the entries that the later parser plans and
    that the viewport allows, in the same order and zones and without their
    flags; the toggle-groups it builds hold, for each group, a sublist of
    the later parser's members. *)
Theorem early_plan_is_filtered_plan {Def} (BUTTONS : gmap string Def)
    (desktopView : bool) (layout : string) (log : list LogLine) :
  let early := parseLayout_early BUTTONS desktopView layout ∅ log in
  let later := parseLayout BUTTONS layout ∅ log in
  early_toolbar (early_result early)
  = (λ t, (section t, buttonSpec (placed t)))
      <$> filter (λ t, viewport_allows desktopView (placed t) = true)
                 (toolbar (result later))
  ∧ early_gearmenu (early_result early)
    = buttonSpec
        <$> filter (λ e, viewport_allows desktopView e = true)
                   (gearmenu (result later))
  ∧ ∀ g, members (early_TOGGLE_GROUPS early) g
         `sublist_of` members (TOGGLE_GROUPS later) g.
Proof.
  cbn zeta.
  assert (parseLayout_early BUTTONS desktopView layout ∅ log
          = early_of (fst (parseLayout_loop BUTTONS
                             (filter (λ t, kept_on desktopView t = true)
                                     (split "|" layout))
                             (mkParseState extras (mkPlan [] []) ∅ log)))) as ->.
  { rewrite <-early_loop_simulates. reflexivity. }
  destruct (parseLayout_loop_spec BUTTONS
              (filter (λ t, kept_on desktopView t = true) (split "|" layout))
              (mkParseState extras (mkPlan [] []) ∅ log))
    as (Htb & Hgm & _ & Hmem).
  destruct (parseLayout_spec BUTTONS layout log) as (Htb' & Hgm' & Hmem').
  cbn [currentSection TOGGLE_GROUPS result toolbar gearmenu] in Htb, Hgm, Hmem.
  rewrite button_entries_kept in Htb, Hgm, Hmem.
  unfold early_of. cbn [early_result early_toolbar early_gearmenu early_TOGGLE_GROUPS].
  split_and!.
  - rewrite Htb, Htb'. simpl. by rewrite planned_toolbar_viewport.
  - rewrite Hgm, Hgm'. simpl. by rewrite planned_gearmenu_viewport.
  - intros g. rewrite Hmem, Hmem'. unfold members at 1. rewrite lookup_empty.
    simpl. apply group_joiners_viewport.
Qed.

(** X5.  The table of toggle-groups that [parseLayout] leaves is well
    formed: every key is a non-empty name that is not inherited from
    [Object.prototype], every list has at least one member, and every
    member is the spec of a button entry of the layout that passed the
    button check and named that very group. *)
Theorem toggle_groups_wellformed {Def} (BUTTONS : gmap string Def)
    (layout : string) (log : list LogLine) (g : string) (l : list ButtonSpec) :
  TOGGLE_GROUPS (parseLayout BUTTONS layout ∅ log) !! g = Some l →
  l ≠ [] ∧ g ≠ "" ∧ inherited g = false
  ∧ Forall (λ spec, known BUTTONS spec = true
                    ∧ toggleGroup spec = Some g
                    ∧ spec ∈ button_specs (split "|" layout)) l.
Proof.
  intros Hl.
  pose proof (parseLayout_groups_nonempty BUTTONS layout log g l Hl) as Hne.
  destruct (parseLayout_spec BUTTONS layout log) as (_ & _ & Hmem).
  specialize (Hmem g). unfold members in Hmem. rewrite Hl in Hmem.
  simpl in Hmem. unfold group_joiners in Hmem.
  rewrite button_entries_specs in Hmem.
  assert (Forall (λ spec, joins BUTTONS ∅ g spec = true
                          ∧ spec ∈ button_specs (split "|" layout)) l) as Hall.
  { rewrite Hmem. apply Forall_forall. intros spec Hspec.
    by apply list_elem_of_filter in Hspec. }
  assert (∀ spec, joins BUTTONS ∅ g spec = true →
                  known BUTTONS spec = true ∧ toggleGroup spec = Some g
                  ∧ g ≠ "" ∧ inherited g = false) as Hjoin.
  { intros spec. unfold joins, registered, group_refused.
    rewrite !andb_true_iff, bool_decide_eq_true. intros [[Hk Hr] Hd].
    rewrite Hd, push_throws_empty in Hr.
    apply declared_group_Some in Hd as [Ht Hg].
    split_and!; [done..|]. by destruct (inherited g). }
  destruct l as [|spec0 rest]; [done|].
  apply Forall_cons in Hall as Hfirst. destruct Hfirst as [[Hj0 _] _].
  destruct (Hjoin spec0 Hj0) as (_ & _ & Hg & Hinh).
  split_and!; [done..|].
  eapply Forall_impl; [exact Hall|]. intros spec [Hj Hin].
  destruct (Hjoin spec Hj) as (? & ? & _). done.
Qed.

Lemma toggle_groups_wellformed_witness :
  let BUTTONS := buttons_table [sample_surround "bold"] in
  let l := [mkButtonSpec (Some "bold") (Some "") (Some "more")] in
  TOGGLE_GROUPS (parseLayout BUTTONS "ghost,,more|bold,,more" ∅ []) !! "more"
  = Some l
  ∧ Forall (λ spec, known BUTTONS spec = true ∧ toggleGroup spec = Some "more") l.
Proof.
  cbn zeta.
  assert (TOGGLE_GROUPS (parseLayout (buttons_table [sample_surround "bold"])
                           "ghost,,more|bold,,more" ∅ []) !! "more"
          = Some [mkButtonSpec (Some "bold") (Some "") (Some "more")]) as Hl
    by (vm_compute; reflexivity).
  split; [exact Hl|].
  destruct (toggle_groups_wellformed _ _ _ _ _ Hl) as (_ & _ & _ & Hall).
  eapply Forall_impl; [exact Hall|]. by intros spec (? & ? & _).
Defined.

(** * Further properties of the resolver *)

Lemma i18n_lookup_insert (w : World)
    (b p : string) (props : gmap string JSVal) (v : JSVal) :
  i18nProperties w !! b = Some props ∨
  (i18nProperties w !! b = None ∧ props = ∅) →
  let w' := set_i18nProperties (<[b := <[p := v]> props]> (i18nProperties w)) w in
  i18n_lookup w' b p = Some v
  ∧ ∀ b' p', (b', p') ≠ (b, p) → i18n_lookup w' b' p' = i18n_lookup w b' p'.
Proof.
  intros Hprops. cbn zeta. unfold i18n_lookup. simpl. split.
  - by rewrite lookup_insert_eq; simpl; rewrite lookup_insert_eq.
  - intros b' p' Hne. destruct (decide (b = b')) as [<-|Hb].
    + rewrite lookup_insert_eq. simpl.
      assert (p ≠ p') as Hp by congruence.
      rewrite lookup_insert_ne by done.
      destruct Hprops as [->|[-> ->]]; [done|]. by rewrite lookup_empty.
    + by rewrite lookup_insert_ne.
Qed.

Lemma write_target_record (w : World) (b : string) :
  inherited b = false →
  write_target w b ≠ ThePrototype ∧ ∀ k, write_target w b ≠ MemberFunction k.
Proof.
  intros Hb. unfold write_target, heir.
  destruct (i18nProperties w !! b); [done|].
  case_bool_decide as Hproto; [by subst|]. rewrite Hb.
  destruct (prop_of_name b) as [p|]; simpl; [|done].
  destruct (prototypeProperties w !! p) as [x|]; simpl; [|done].
  by destruct (truthy x).
Qed.

Lemma write_target_member (w : World) (b k : string) :
  write_target w b = MemberFunction k → k = b ∧ inherited b = true.
Proof.
  unfold write_target, heir. destruct (i18nProperties w !! b); [done|].
  case_bool_decide; [done|]. destruct (inherited b) eqn:Hb.
  { by intros [= ->]. }
  destruct (prop_of_name b) as [p|]; simpl; [|done].
  destruct (prototypeProperties w !! p) as [x|]; simpl; [|done].
  by destruct (truthy x).
Qed.

(** What one call of [setI18nProperty] with a truthy value does, by what
    [i18nProperties[buttonName]] finds. *)
Lemma setI18nProperty_effect (b : string) (p : PropName) (v : JSVal) (w : World) :
  truthy v = true →
  let r := setI18nProperty b p v w in
  match write_target w b with
  | OwnRecord _ | NewRecord =>
      snd r = Ok (Some (i18n_key b (prop_name p)))
      ∧ i18n_lookup (fst r) b (prop_name p) = Some v
      ∧ (∀ b' p', (b', p') ≠ (b, prop_name p) →
                  i18n_lookup (fst r) b' p' = i18n_lookup w b' p')
      ∧ prototypeProperties (fst r) = prototypeProperties w
      ∧ memberProperties (fst r) = memberProperties w
  | ThePrototype =>
      b = "__proto__"
      ∧ snd r = Ok (Some (i18n_key b (prop_name p)))
      ∧ prototypeProperties (fst r) = <[p := v]> (prototypeProperties w)
      ∧ i18nProperties (fst r) = i18nProperties w
      ∧ memberProperties (fst r) = memberProperties w
  | MemberFunction k =>
      k = b ∧ inherited b = true
      ∧ snd r = Ok (Some (i18n_key b (prop_name p)))
      ∧ memberProperties (fst r)
        = <[k := <[p := v]> (default ∅ (memberProperties w !! k))]>
            (memberProperties w)
      ∧ i18nProperties (fst r) = i18nProperties w
      ∧ prototypeProperties (fst r) = prototypeProperties w
  | Primitive =>
      r = (w, Throw (TypeError "cannot create a property on a primitive value"))
  end.
Proof.
  intros Hv. cbn zeta. rewrite setI18nProperty_truthy by done.
  destruct (write_target w b) as [props| | |k|] eqn:Htarget; simpl.
  - assert (i18nProperties w !! b = Some props) as Hb.
    { unfold write_target in Htarget.
      destruct (i18nProperties w !! b) as [props'|]; [by injection Htarget as ->|].
      destruct (heir w b) as [[| |x]|]; try done. by destruct (truthy x). }
    destruct (i18n_lookup_insert w b (prop_name p) props v (or_introl Hb))
      as [Hread Hkeep].
    by split_and!.
  - assert (i18nProperties w !! b = None) as Hb.
    { unfold write_target in Htarget. by destruct (i18nProperties w !! b). }
    destruct (i18n_lookup_insert w b (prop_name p) ∅ v
                (or_intror (conj Hb eq_refl))) as [Hread Hkeep].
    rewrite insert_empty in Hread, Hkeep. by split_and!.
  - split_and!; try done. by apply write_target_prototype in Htarget.
  - destruct (write_target_member w b k Htarget) as [-> Hb]. by split_and!.
  - done.
Qed.

(** X6.  [setI18nProperty] with a falsy value returns [null] and changes
    nothing.  With a truthy value the write lands on what
    [i18nProperties[buttonName]] finds.  When that is the button's own
    record, or nothing (the record is then created), the call returns the
    key [ComposerButtonBonanza.<button>.<property>], the value can be read
    back at [i18nProperties[button][property]], every other entry of the
    table keeps its value and [Object.prototype] is left alone; this is
    the case for every button name that [Object.prototype] does not have.
    For the name [__proto__] the write lands on [Object.prototype] itself,
    where every object then reads it; for the name of one of its functions
    it lands on that function; the table gains nothing.  When the name
    finds a truthy string or boolean that the code has put on
    [Object.prototype] before, the call throws and changes nothing.  In no
    case do the closures, the registered options and buttons or the log
    change. *)
Theorem setI18nProperty_registers (buttonName : string) (propName : PropName)
    (propValue : JSVal) (w : World) :
  let r := setI18nProperty buttonName propName propValue w in
  let key := i18n_key buttonName (prop_name propName) in
  (truthy propValue = false → r = (w, Ok None))
  ∧ (truthy propValue = true →
     match write_target w buttonName with
     | OwnRecord _ | NewRecord =>
         snd r = Ok (Some key)
         ∧ i18n_lookup (fst r) buttonName (prop_name propName) = Some propValue
         ∧ (∀ b' p', (b', p') ≠ (buttonName, prop_name propName) →
                     i18n_lookup (fst r) b' p' = i18n_lookup w b' p')
         ∧ prototypeProperties (fst r) = prototypeProperties w
         ∧ memberProperties (fst r) = memberProperties w
     | ThePrototype =>
         buttonName = "__proto__"
         ∧ snd r = Ok (Some key)
         ∧ proto_value (fst r) propName = propValue
         ∧ (∀ q, q ≠ propName → proto_value (fst r) q = proto_value w q)
         ∧ i18nProperties (fst r) = i18nProperties w
         ∧ memberProperties (fst r) = memberProperties w
     | MemberFunction k =>
         k = buttonName ∧ inherited buttonName = true
         ∧ snd r = Ok (Some key)
         ∧ memberProperties (fst r) !! k ≫= (.!! propName) = Some propValue
         ∧ i18nProperties (fst r) = i18nProperties w
         ∧ prototypeProperties (fst r) = prototypeProperties w
     | Primitive =>
         polluted w buttonName = true
         ∧ ∃ e, r = (w, Throw e)
     end)
  ∧ (inherited buttonName = false → polluted w buttonName = false →
     write_target w buttonName ≠ ThePrototype
     ∧ write_target w buttonName ≠ Primitive
     ∧ ∀ k, write_target w buttonName ≠ MemberFunction k)
  ∧ toggles (fst r) = toggles w
  ∧ popupMenuOptions (fst r) = popupMenuOptions w
  ∧ toolbarButtons (fst r) = toolbarButtons w
  ∧ consoleLog (fst r) = consoleLog w.
Proof.
  cbn zeta. split_and!.
  - apply setI18nProperty_falsy.
  - intros Hv.
    pose proof (setI18nProperty_effect buttonName propName propValue w Hv)
      as Heffect. cbn zeta in Heffect.
    destruct (write_target w buttonName) as [props| | |k|] eqn:Htarget.
    + exact Heffect.
    + exact Heffect.
    + destruct Heffect as (Hb & Hr & Hproto & Hi & Hm). split_and!; try done.
      * unfold proto_value. by rewrite Hproto, lookup_insert_eq.
      * intros q Hq. unfold proto_value. by rewrite Hproto, lookup_insert_ne.
    + destruct Heffect as (Hk & Hb & Hr & Hm & Hi & Hproto).
      split_and!; try done.
      rewrite Hm, lookup_insert_eq. simpl. by rewrite lookup_insert_eq.
    + split; [|by eexists].
      unfold write_target in Htarget. unfold polluted.
      apply bool_decide_eq_true_2.
      destruct (i18nProperties w !! buttonName); [done|].
      unfold heir in Htarget. case_bool_decide; [done|].
      destruct (inherited buttonName); [done|].
      destruct (prop_of_name buttonName) as [p|]; simpl in *; [|done].
      by destruct (prototypeProperties w !! p).
  - intros Hinh Hclean. destruct (write_target_record w buttonName Hinh)
      as [Hproto Hmember].
    split_and!; [done| |done].
    unfold write_target. rewrite (heir_unpolluted w buttonName Hclean), Hinh.
    destruct (i18nProperties w !! buttonName); [done|].
    by case_bool_decide.
  - by destruct (setI18nProperty_frame buttonName propName propValue w)
      as (w' & r & -> & _ & Ht & _).
  - by destruct (setI18nProperty_frame buttonName propName propValue w)
      as (w' & r & -> & (Hp & _) & _).
  - by destruct (setI18nProperty_frame buttonName propName propValue w)
      as (w' & r & -> & (_ & Hb & _) & _).
  - by destruct (setI18nProperty_frame buttonName propName propValue w)
      as (w' & r & -> & (_ & _ & Hl & _) & _).
Qed.

Lemma setI18nProperty_registers_witness :
  let w := empty_world sample_parser [] in
  let r := setI18nProperty "bold" PropTitle (JStr "Bold") w in
  let polluting := setI18nProperty "__proto__" PropTitle (JStr "Bold") w in
  truthy (JStr "Bold") = true
  ∧ write_target w "bold" = NewRecord
  ∧ snd r = Ok (Some "ComposerButtonBonanza.bold.title")
  ∧ i18n_lookup (fst r) "bold" "title" = Some (JStr "Bold")
  ∧ write_target w "__proto__" = ThePrototype
  ∧ proto_value (fst polluting) PropTitle = JStr "Bold".
Proof.
  cbn zeta.
  destruct (setI18nProperty_registers "bold" PropTitle (JStr "Bold")
              (empty_world sample_parser [])) as (_ & Hrecord & _).
  destruct (setI18nProperty_registers "__proto__" PropTitle (JStr "Bold")
              (empty_world sample_parser [])) as (_ & Hproto & _).
  specialize (Hrecord eq_refl). specialize (Hproto eq_refl).
  change (write_target (empty_world sample_parser []) "bold")
    with NewRecord in Hrecord.
  change (write_target (empty_world sample_parser []) "__proto__")
    with ThePrototype in Hproto.
  destruct Hrecord as (Hkey & Hread & _).
  destruct Hproto as (_ & _ & Hvalue & _).
  split_and!; [reflexivity|reflexivity|exact Hkey|exact Hread|reflexivity
              |exact Hvalue].
Defined.

(** X7.  A definition whose action is none of the four kinds, and so also
    one whose action field is missing or whose name only finds a member of
    [Object.prototype], makes [makeAction] throw its "Unknown action" error;
    a definition that is [undefined] makes it throw a type error instead.
    Nothing has been changed when it throws. *)
Theorem makeAction_unknown_kind (TRANSLATIONS : option (list TranslationEntry))
    (groups : gmap string (list ButtonSpec)) (buttonName : string)
    (definition : JSProp ButtonDefinition) (w : World) :
  field def_action definition ∉ action_kinds →
  makeAction TRANSLATIONS groups buttonName definition w
  = (w, Throw match definition with
              | Missing => TypeError "definition is undefined"
              | _ => UnknownAction buttonName (field def_action definition)
              end).
Proof.
  unfold action_kinds. rewrite !not_elem_of_cons. intros (H1 & H2 & H3 & H4 & _).
  destruct definition as [d| |]; [| |reflexivity];
    rewrite makeAction_found by done; cbn zeta;
    by rewrite !bool_decide_eq_false_2.
Qed.

Lemma makeAction_unknown_kind_witness :
  (field def_action Inherited ∉ action_kinds)
  ∧ makeAction None ∅ "valueOf" Inherited (empty_world sample_parser [])
    = (empty_world sample_parser [], Throw (UnknownAction "valueOf" JUndefined)).
Proof.
  assert (field def_action Inherited ∉ action_kinds) as Hkind.
  { unfold action_kinds. rewrite !not_elem_of_cons. split_and!; try done.
    apply not_elem_of_nil. }
  split; [exact Hkind|].
  exact (makeAction_unknown_kind None ∅ "valueOf" Inherited
           (empty_world sample_parser []) Hkind).
Defined.

(** X8.  Resolving an [insert] button changes nothing and returns a
    callback that, when run, makes exactly one call, [addText], with the
    button's prefix after translation; the selection and the rest of the
    state are left alone. *)
Theorem makeAction_insert (TRANSLATIONS : option (list TranslationEntry))
    (groups : gmap string (list ButtonSpec)) (buttonName : string)
    (d : ButtonDefinition) (w : World) :
  def_action d = JStr Action.insert →
  ∃ callback,
    makeAction TRANSLATIONS groups buttonName (Own d) w = (w, Ok callback)
    ∧ ∀ ev world,
        perform callback ev world
        = ({| selected := selected ev;
              calls := calls ev
                       ++ [addText (applyTranslation TRANSLATIONS (def_prefix d)
                                                     buttonName "prefix")] |},
           world).
Proof.
  intros Hkind. eexists. rewrite makeAction_found by done. cbn zeta. cbn [field].
  rewrite Hkind. rewrite bool_decide_eq_true_2 by done. split; reflexivity.
Qed.

Lemma makeAction_insert_witness :
  def_action (with_kind "hr" Action.insert (sample_surround "hr")) = JStr Action.insert
  ∧ ∃ callback,
      makeAction (Some [mkTranslation "hr.prefix" "----"]) ∅ "hr"
        (Own (with_kind "hr" Action.insert (sample_surround "hr")))
        (empty_world sample_parser [])
      = (empty_world sample_parser [], Ok callback)
      ∧ perform callback (mkEvent (mkSelection 3 []) [])
                (empty_world sample_parser [])
        = (mkEvent (mkSelection 3 []) [addText (JStr "----")],
           empty_world sample_parser []).
Proof.
  split; [reflexivity|].
  destruct (makeAction_insert (Some [mkTranslation "hr.prefix" "----"]) ∅ "hr"
              (with_kind "hr" Action.insert (sample_surround "hr"))
              (empty_world sample_parser []) eq_refl) as (callback & Hmade & Hrun).
  exists callback. split; [exact Hmade|]. rewrite Hrun. reflexivity.
Defined.

Lemma is_mode_exclusive (lineMode : JSVal) :
  is_mode "multiline" lineMode && is_mode "block" lineMode = false.
Proof.
  unfold is_mode. destruct (bool_decide (lineMode = JStr "multiline")) eqn:H1;
    [|done].
  apply bool_decide_eq_true in H1 as ->. by rewrite bool_decide_eq_false_2.
Qed.

(** What registering the example text does. *)
Lemma register_exampleText (buttonName : string) (exampleText : JSVal) (w : World) :
  let r := setI18nProperty buttonName PropExampleText exampleText w in
  (truthy exampleText = true → write_target w buttonName = Primitive →
   r = (w, Throw (TypeError "cannot create a property on a primitive value")))
  ∧ (truthy exampleText = false ∨ write_target w buttonName ≠ Primitive →
     snd r = Ok (if truthy exampleText
                 then Some (i18n_key buttonName "exampleText") else None)
     ∧ toggles (fst r) = toggles w
     ∧ popupMenuOptions (fst r) = popupMenuOptions w
     ∧ toolbarButtons (fst r) = toolbarButtons w
     ∧ consoleLog (fst r) = consoleLog w
     ∧ (truthy exampleText = true → inherited buttonName = false →
        i18n_lookup (fst r) buttonName "exampleText" = Some exampleText)
     ∧ (truthy exampleText = false → fst r = w)).
Proof.
  cbn zeta. split.
  - intros Hv Htarget.
    pose proof (setI18nProperty_effect buttonName PropExampleText exampleText w Hv)
      as Heffect. cbn zeta in Heffect. by rewrite Htarget in Heffect.
  - intros Hlands.
    destruct (setI18nProperty_frame buttonName PropExampleText exampleText w)
      as (w' & r & Heq & (Hp & Hb & Hl & _) & Ht & Hr).
    rewrite Heq. simpl.
    destruct (truthy exampleText) eqn:Hv.
    + pose proof (setI18nProperty_effect buttonName PropExampleText exampleText
                    w Hv) as Heffect. cbn zeta in Heffect.
      rewrite Heq in Heffect. simpl in Heffect.
      destruct Hlands as [|Hlands]; [done|].
      split_and!; try done.
      * destruct Hr as [->|(_ & _ & _ & Htarget)]; done.
      * intros _ Hinh.
        destruct (write_target_record w buttonName Hinh) as [Hproto Hmember].
        destruct (write_target w buttonName) as [props| | |k|];
          [by destruct Heffect as (_ & Hread & _)
          |by destruct Heffect as (_ & Hread & _)
          |done|by destruct (Hmember k)|done].
    + rewrite setI18nProperty_falsy in Heq by done. injection Heq as <- <-.
      by split_and!.
Qed.

(** X9.  Resolving a [surround] or a [list] button registers the example
    text (the definition's, or the one [Object.prototype] has when the
    definition has none, after translation) under the button's
    [exampleText] key when it is truthy, and passes [null] as the key
    otherwise; it leaves every other part of the state alone.  The callback
    makes exactly one call, [applySurround] with the translated prefix and
    suffix, or [applyList] with the translated prefix, and the two flags it
    passes say whether the line mode is ["multiline"] or ["block"]: never
    both.  Only when the example text is truthy and the button's name finds
    a string or boolean that the code has put on [Object.prototype] does
    the resolution throw, with nothing changed. *)
Theorem makeAction_surround_list (TRANSLATIONS : option (list TranslationEntry))
    (groups : gmap string (list ButtonSpec)) (buttonName : string)
    (d : ButtonDefinition) (w : World) :
  let translated f param := applyTranslation TRANSLATIONS (f d) buttonName param in
  let exampleText :=
    applyTranslation TRANSLATIONS
      (own_or_inherited w PropExampleText (def_exampleText d))
      buttonName "exampleText" in
  let exampleTextKey :=
    if truthy exampleText then Some (i18n_key buttonName "exampleText") else None in
  let multiline := is_mode "multiline" (def_lineMode d) in
  let useBlockMode := is_mode "block" (def_lineMode d) in
  let lands := truthy exampleText = false ∨ write_target w buttonName ≠ Primitive in
  let only_registers w' :=
    toggles w' = toggles w
    ∧ popupMenuOptions w' = popupMenuOptions w
    ∧ toolbarButtons w' = toolbarButtons w
    ∧ consoleLog w' = consoleLog w
    ∧ (truthy exampleText = true → inherited buttonName = false →
       i18n_lookup w' buttonName "exampleText" = Some exampleText)
    ∧ (truthy exampleText = false → w' = w) in
  multiline && useBlockMode = false
  ∧ (def_action d = JStr Action.surround → lands →
     ∃ w' callback,
       makeAction TRANSLATIONS groups buttonName (Own d) w = (w', Ok callback)
       ∧ only_registers w'
       ∧ ∀ ev world,
           perform callback ev world
           = ({| selected := selected ev;
                 calls := calls ev
                          ++ [applySurround (translated def_prefix "prefix")
                                (translated def_suffix "suffix")
                                exampleTextKey multiline useBlockMode] |},
              world))
  ∧ (def_action d = JStr Action.list → lands →
     ∃ w' callback,
       makeAction TRANSLATIONS groups buttonName (Own d) w = (w', Ok callback)
       ∧ only_registers w'
       ∧ ∀ ev world,
           perform callback ev world
           = ({| selected := selected ev;
                 calls := calls ev
                          ++ [applyList (translated def_prefix "prefix")
                                exampleTextKey multiline useBlockMode] |},
              world))
  ∧ (def_action d = JStr Action.surround ∨ def_action d = JStr Action.list →
     truthy exampleText = true → write_target w buttonName = Primitive →
     ∃ e, makeAction TRANSLATIONS groups buttonName (Own d) w = (w, Throw e))
  ∧ (pristine w → lands ∧ exampleText = translated def_exampleText "exampleText").
Proof.
  cbn zeta. split; [apply is_mode_exclusive|].
  set (exampleText := applyTranslation TRANSLATIONS
                        (own_or_inherited w PropExampleText (def_exampleText d))
                        buttonName "exampleText").
  destruct (register_exampleText buttonName exampleText w) as [Hthrow Hlands].
  cbn zeta in Hthrow, Hlands.
  destruct (setI18nProperty buttonName PropExampleText exampleText w)
    as [w' k] eqn:Hset.
  simpl in Hlands.
  split_and!.
  - intros Hkind Hl. destruct (Hlands Hl) as (-> & Hframe).
    eexists w', _. rewrite makeAction_found by done. cbn zeta. cbn [field].
    rewrite Hkind. rewrite bool_decide_eq_false_2 by discriminate.
    rewrite bool_decide_eq_true_2 by done.
    unfold makeSurroundAction, bind. cbn [definition_prop].
    fold exampleText. rewrite Hset.
    split; [reflexivity|]. split; [exact Hframe|]. reflexivity.
  - intros Hkind Hl. destruct (Hlands Hl) as (-> & Hframe).
    eexists w', _. rewrite makeAction_found by done. cbn zeta. cbn [field].
    rewrite Hkind. rewrite !bool_decide_eq_false_2 by discriminate.
    rewrite bool_decide_eq_true_2 by done.
    unfold makeListAction, bind. cbn [definition_prop].
    fold exampleText. rewrite Hset.
    split; [reflexivity|]. split; [exact Hframe|]. reflexivity.
  - intros Hkind Hv Htarget. specialize (Hthrow Hv Htarget).
    injection Hthrow as -> ->. eexists.
    rewrite makeAction_found by done. cbn zeta. cbn [field definition_prop].
    fold exampleText.
    destruct Hkind as [Hkind|Hkind]; rewrite Hkind.
    + rewrite bool_decide_eq_false_2 by discriminate.
      rewrite bool_decide_eq_true_2 by done.
      unfold makeSurroundAction, bind. by rewrite Hset.
    + rewrite !bool_decide_eq_false_2 by discriminate.
      rewrite bool_decide_eq_true_2 by done.
      unfold makeListAction, bind. by rewrite Hset.
  - intros Hw. split.
    + right. by apply write_target_pristine.
    + unfold exampleText. by rewrite own_or_inherited_pristine.
Qed.

Lemma makeAction_surround_list_witness :
  let w := empty_world sample_parser [] in
  def_action (sample_surround "bold") = JStr Action.surround
  ∧ write_target w "bold" ≠ Primitive
  ∧ ∃ w' callback,
      makeAction None ∅ "bold" (Own (sample_surround "bold")) w = (w', Ok callback)
      ∧ i18n_lookup w' "bold" "exampleText" = Some (JStr "text")
      ∧ perform callback (mkEvent (mkSelection 0 []) []) w'
        = (mkEvent (mkSelection 0 [])
             [applySurround (JStr "**") (JStr "**")
                (Some "ComposerButtonBonanza.bold.exampleText") false false],
           w').
Proof.
  cbn zeta.
  assert (write_target (empty_world sample_parser []) "bold" ≠ Primitive)
    as Htarget by done.
  split; [reflexivity|]. split; [exact Htarget|].
  destruct (makeAction_surround_list None ∅ "bold" (sample_surround "bold")
              (empty_world sample_parser [])) as (_ & Hsurround & _).
  destruct (Hsurround eq_refl (or_intror Htarget))
    as (w' & callback & Hmade & Hreg & Hrun).
  exists w', callback. split; [exact Hmade|]. split.
  - destruct Hreg as (_ & _ & _ & _ & Hread & _). exact (Hread eq_refl eq_refl).
  - rewrite Hrun. reflexivity.
Defined.

(** * The stylesheet of a toggle button *)

Lemma hide_rule_texts_length (names : list JSVal) :
  length (hide_rule_texts names) = (2 * length names)%nat.
Proof.
  unfold hide_rule_texts. rewrite <-(length_reverse names).
  induction (reverse names) as [|n rest IH]; [done|].
  rewrite bind_cons, length_app, IH. simpl. lia.
Qed.

(** A group of the table: the host's parser decides. *)
Lemma makeToggleAction_in_table (groups : gmap string (list ButtonSpec))
    (buttonName : string) (groupName startHidden : JSVal)
    (group : list ButtonSpec) (w : World) :
  groups !! to_string groupName = Some group →
  if rules_accepted (acceptsRule w) group
  then ∃ sheet,
         makeToggleAction groups buttonName groupName startHidden w
         = (set_toggles (toggles w ++ [mkToggle (truthy startHidden) sheet]) w,
            Ok (ToggleAction (length (toggles w))))
         ∧ disabled sheet = negb (truthy startHidden)
         ∧ cssRules sheet = hide_rule_texts (member_names group)
  else ∃ rule spec,
         makeToggleAction groups buttonName groupName startHidden w
         = (w, Throw (SyntaxError rule))
         ∧ acceptsRule w rule = false
         ∧ spec ∈ group
         ∧ (rule = class_rule (of_option (name spec))
            ∨ rule = data_name_rule (of_option (name spec))).
Proof.
  intros Hgroup. unfold makeToggleAction, bind, get, iterated_names.
  rewrite Hgroup, rules_accepted_names. fold (member_names group).
  pose proof (insert_hide_rules_spec (acceptsRule w) (member_names group)
                (mkSheet (negb (truthy startHidden)) [])) as Hloop.
  destruct (names_accepted (acceptsRule w) (member_names group)).
  - destruct Hloop as (sheet & -> & Hd & Hr). simpl in Hr.
    rewrite app_nil_r in Hr. by exists sheet.
  - destruct Hloop as (rule & n & -> & Hrule & Hn & Hshape).
    unfold member_names in Hn.
    apply list_elem_of_fmap in Hn as (spec & -> & Hspec).
    by exists rule, spec.
Qed.

(** X10.  [makeToggleAction] either throws, and then has changed nothing
    and adopted no stylesheet, or adopts exactly one new stylesheet and
    returns the callback that refers to it; the sheet is enabled exactly
    when the translated [startHidden] is truthy.  When the named group is
    in the table and the host's CSS parser accepts the two rules of every
    member (the member's name goes into them as it is written in the
    layout), the call succeeds and the sheet holds two rules for every
    member and no others: the member's [data-name] rule followed by its
    class rule, the members in reverse order of registration.  When the
    parser refuses a rule of some member, the call throws the parser's
    [SyntaxError].  When the group is not in the table, and the code has
    put no property of that name on [Object.prototype], the call throws:
    its own "no buttons" error, or a type error for a name that
    [Object.prototype] has. *)
Theorem makeToggleAction_stylesheet (groups : gmap string (list ButtonSpec))
    (buttonName : string) (groupName startHidden : JSVal) (w : World) :
  let r := makeToggleAction groups buttonName groupName startHidden w in
  let adopts sheet :=
    r = (set_toggles (toggles w ++ [mkToggle (truthy startHidden) sheet]) w,
         Ok (ToggleAction (length (toggles w))))
    ∧ adoptedStyleSheets (fst r) = adoptedStyleSheets w ++ [sheet]
    ∧ disabled sheet = negb (truthy startHidden) in
  ((∃ e, r = (w, Throw e)) ∨ (∃ sheet, adopts sheet))
  ∧ match groups !! to_string groupName with
    | Some group =>
        if rules_accepted (acceptsRule w) group
        then ∃ sheet,
               adopts sheet
               ∧ cssRules sheet = hide_rule_texts (member_names group)
               ∧ length (cssRules sheet) = (2 * length group)%nat
        else ∃ rule spec,
               r = (w, Throw (SyntaxError rule))
               ∧ acceptsRule w rule = false
               ∧ spec ∈ group
               ∧ (rule = class_rule (of_option (name spec))
                  ∨ rule = data_name_rule (of_option (name spec)))
    | None =>
        polluted w (to_string groupName) = false →
        r = (w, Throw (if inherited (to_string groupName)
                       then TypeError "TOGGLE_GROUPS[groupName] is not iterable"
                       else NoButtonsInToggleGroup (to_string groupName)
                                                   buttonName))
    end.
Proof.
  cbn zeta. split.
  - destruct (makeToggleAction_cases groups buttonName groupName startHidden w)
      as [(e & Hrun & _)|(names & sheet & _ & _ & Hrun & Hd)].
    + left. by exists e.
    + right. exists sheet. rewrite Hrun. split_and!; [done| |done].
      unfold adoptedStyleSheets. simpl. by rewrite fmap_app.
  - destruct (groups !! to_string groupName) as [group|] eqn:Hgroup.
    + pose proof (makeToggleAction_in_table groups buttonName groupName
                    startHidden group w Hgroup) as Hrun.
      destruct (rules_accepted (acceptsRule w) group); [|exact Hrun].
      destruct Hrun as (sheet & Hrun & Hd & Hr). exists sheet. rewrite Hrun.
      split_and!; [done| |done|done|].
      * unfold adoptedStyleSheets. simpl. by rewrite fmap_app.
      * rewrite Hr, hide_rule_texts_length. unfold member_names.
        by rewrite length_fmap.
    + intros Hclean. unfold makeToggleAction, bind, get, iterated_names.
      rewrite Hgroup, (heir_unpolluted w _ Hclean).
      case_bool_decide as Hk.
      * by rewrite Hk.
      * by destruct (inherited (to_string groupName)).
Qed.

Lemma makeToggleAction_stylesheet_witness :
  let w := empty_world sample_parser [] in
  let plain : gmap string (list ButtonSpec) :=
    {[ "g" := [mkButtonSpec (Some "bold") None (Some "g")] ]} in
  let odd : gmap string (list ButtonSpec) :=
    {[ "g" := [mkButtonSpec (Some "c++") None (Some "g")] ]} in
  (∃ sheet, makeToggleAction plain "more" (JStr "g") (JBool false) w
            = (set_toggles [mkToggle false sheet] w, Ok (ToggleAction 0))
            ∧ length (cssRules sheet) = 2%nat)
  ∧ (∃ rule, makeToggleAction odd "more" (JStr "g") (JBool false) w
             = (w, Throw (SyntaxError rule)))
  ∧ polluted w "h" = false
  ∧ makeToggleAction plain "more" (JStr "h") (JBool false) w
    = (w, Throw (NoButtonsInToggleGroup "h" "more")).
Proof.
  cbn zeta. split_and!.
  - destruct (makeToggleAction_stylesheet
                {[ "g" := [mkButtonSpec (Some "bold") None (Some "g")] ]}
                "more" (JStr "g") (JBool false) (empty_world sample_parser []))
      as [_ Hgroup].
    cbn zeta in Hgroup. rewrite lookup_singleton_eq in Hgroup.
    change (rules_accepted (acceptsRule (empty_world sample_parser []))
              [mkButtonSpec (Some "bold") None (Some "g")])
      with true in Hgroup.
    destruct Hgroup as (sheet & (Hrun & _) & _ & Hlen).
    exists sheet. split; [exact Hrun|exact Hlen].
  - destruct (makeToggleAction_stylesheet
                {[ "g" := [mkButtonSpec (Some "c++") None (Some "g")] ]}
                "more" (JStr "g") (JBool false) (empty_world sample_parser []))
      as [_ Hgroup].
    cbn zeta in Hgroup. rewrite lookup_singleton_eq in Hgroup.
    change (rules_accepted (acceptsRule (empty_world sample_parser []))
              [mkButtonSpec (Some "c++") None (Some "g")])
      with false in Hgroup.
    destruct Hgroup as (rule & spec & Hrun & _).
    exists rule. exact Hrun.
  - reflexivity.
  - destruct (makeToggleAction_stylesheet
                {[ "g" := [mkButtonSpec (Some "bold") None (Some "g")] ]}
                "more" (JStr "h") (JBool false) (empty_world sample_parser []))
      as [_ Hgroup].
    cbn zeta in Hgroup.
    rewrite lookup_singleton_ne in Hgroup by done.
    exact (Hgroup eq_refl).
Defined.

(** X11.  Two toggle callbacks never share their state: each call of
    [makeToggleAction] creates a closure of its own, and running one
    callback leaves the [isHidden] flag and the stylesheet of the other as
    they are, leaves the number of adopted stylesheets as it is, and does
    not touch the event it is given. *)
Theorem toggle_callbacks_independent (groups : gmap string (list ButtonSpec))
    (name1 name2 : string) (group1 hidden1 group2 hidden2 : JSVal)
    (w0 w1 w2 : World) (callback1 callback2 : Callback) :
  makeToggleAction groups name1 group1 hidden1 w0 = (w1, Ok callback1) →
  makeToggleAction groups name2 group2 hidden2 w1 = (w2, Ok callback2) →
  ∃ n1 n2,
    callback1 = ToggleAction n1 ∧ callback2 = ToggleAction n2 ∧ n1 ≠ n2
    ∧ is_Some (toggles w2 !! n1) ∧ is_Some (toggles w2 !! n2)
    ∧ ∀ ev w,
        toggles (snd (perform callback1 ev w)) !! n2 = toggles w !! n2
        ∧ toggles (snd (perform callback2 ev w)) !! n1 = toggles w !! n1
        ∧ length (toggles (snd (perform callback1 ev w))) = length (toggles w)
        ∧ fst (perform callback1 ev w) = ev.
Proof.
  intros H1 H2.
  destruct (makeToggleAction_cases groups name1 group1 hidden1 w0)
    as [(e & S1 & _)|(names1 & sheet1 & _ & _ & S1 & _)];
    rewrite S1 in H1; [done|]. injection H1 as <- <-.
  destruct (makeToggleAction_cases groups name2 group2 hidden2
              (set_toggles (toggles w0 ++ [mkToggle (truthy hidden1) sheet1]) w0))
    as [(e & S2 & _)|(names2 & sheet2 & _ & _ & S2 & _)];
    rewrite S2 in H2; [done|]. injection H2 as <- <-.
  exists (length (toggles w0)),
    (length (toggles (set_toggles (toggles w0 ++ [mkToggle (truthy hidden1) sheet1]) w0))).
  simpl. rewrite !length_app. simpl. split_and!; [done|done|lia| | |].
  - rewrite lookup_app_l by (rewrite length_app; simpl; lia).
    rewrite lookup_app_r, Nat.sub_diag by done. by eexists.
  - rewrite lookup_app_r by (rewrite length_app; simpl; lia).
    rewrite length_app. simpl.
    replace (length (toggles w0) + 1 - (length (toggles w0) + 1))%nat
      with 0%nat by lia. by eexists.
  - intros ev w. split_and!.
    + apply list_lookup_alter_ne. lia.
    + apply list_lookup_alter_ne. lia.
    + apply length_alter.
    + done.
Qed.

Lemma toggle_callbacks_independent_witness :
  let groups : gmap string (list ButtonSpec) :=
    {[ "more" := [mkButtonSpec (Some "bold") None (Some "more")] ]} in
  let first := makeToggleAction groups "a" (JStr "more") (JBool true)
                                (empty_world sample_parser []) in
  let second := makeToggleAction groups "b" (JStr "more") (JBool true) (fst first) in
  snd first = Ok (ToggleAction 0)
  ∧ snd second = Ok (ToggleAction 1)
  ∧ ∀ ev w, toggles (snd (perform (ToggleAction 0) ev w)) !! 1%nat
            = toggles w !! 1%nat.
Proof.
  cbn zeta.
  set (groups := ({[ "more" := [mkButtonSpec (Some "bold") None (Some "more")] ]}
                  : gmap string (list ButtonSpec))).
  set (first := makeToggleAction groups "a" (JStr "more") (JBool true)
                                 (empty_world sample_parser [])).
  set (second := makeToggleAction groups "b" (JStr "more") (JBool true) (fst first)).
  assert (first = (fst first, Ok (ToggleAction 0))) as H1 by (vm_compute; reflexivity).
  assert (second = (fst second, Ok (ToggleAction 1))) as H2 by (vm_compute; reflexivity).
  destruct (toggle_callbacks_independent groups "a" "b" (JStr "more") (JBool true)
              (JStr "more") (JBool true) (empty_world sample_parser [])
              (fst first) (fst second)
              (ToggleAction 0) (ToggleAction 1) H1 H2)
    as (n1 & n2 & [= <-] & [= <-] & _ & _ & _ & Hrun).
  split; [by rewrite H1|]. split; [by rewrite H2|].
  intros ev w. by destruct (Hrun ev w) as (? & _).
Defined.

(** * Registration only appends *)

Lemma onToolbarCreate_keeps_closures (c : Component) (isDesktop : bool)
    (w : World) :
  toggles w `prefix_of` toggles (fst (onToolbarCreate c isDesktop w)).
Proof.
  unfold onToolbarCreate. generalize (toolbar (comp_layout c)) as plan.
  intros plan. revert w. induction plan as [|t rest IH]; intros w; [done|].
  rewrite for_of_cons.
  destruct (_ || _).
  - apply IH.
  - rewrite try_catch_eq.
    destruct (addToolbarButton_cases (comp_BUTTONS c) (comp_TRANSLATIONS c)
                (comp_TOGGLE_GROUPS c) (section t) (buttonSpec (placed t)) w)
      as (w1 & r & -> & _ & _ & _ & Hpre & _).
    destruct r as [[]|e].
    + etransitivity; [exact Hpre|apply IH].
    + rewrite modify_eq. etransitivity; [exact Hpre|].
      apply (IH (log_error (None, e) w1)).
Qed.

Lemma register_popups_keeps_closures (c : Component) (w : World) :
  toggles w `prefix_of` toggles (fst (register_popups c w)).
Proof.
  unfold register_popups. generalize (gearmenu (comp_layout c)) as plan.
  intros plan. revert w. induction plan as [|e rest IH]; intros w; [done|].
  rewrite for_of_cons, try_catch_eq.
  destruct (addPopupMenuButtonWithCondition_cases (comp_BUTTONS c)
              (comp_TRANSLATIONS c) (comp_TOGGLE_GROUPS c) (comp_name c)
              (buttonSpec e) (allowDesktop e) (allowMobile e) w)
    as (w1 & r & -> & _ & _ & _ & Hpre & _).
  destruct r as [[]|err].
  - etransitivity; [exact Hpre|apply IH].
  - rewrite modify_eq. etransitivity; [exact Hpre|].
    apply (IH (log_error (None, err) w1)).
Qed.

(** X12.  Building buttons never disturbs the toggle closures that exist
    already: after the toolbar callback, and after the popup registration
    loop, the closures there were before are still there, at the same
    positions and with the same flag and stylesheet; new ones come after
    them.  So a callback handed out earlier keeps referring to its own
    closure. *)
Theorem registration_keeps_closures (c : Component) (isDesktop : bool) (w : World) :
  toggles w `prefix_of` toggles (fst (onToolbarCreate c isDesktop w))
  ∧ toggles w `prefix_of` toggles (fst (register_popups c w))
  ∧ ∀ n closure,
      toggles w !! n = Some closure →
      toggles (fst (onToolbarCreate c isDesktop w)) !! n = Some closure
      ∧ toggles (fst (register_popups c w)) !! n = Some closure.
Proof.
  pose proof (onToolbarCreate_keeps_closures c isDesktop w) as Htoolbar.
  pose proof (register_popups_keeps_closures c w) as Hpopups.
  split_and!; [done..|].
  intros n closure Hn. split; by eapply prefix_lookup_Some.
Qed.

Lemma registration_keeps_closures_witness :
  let settings :=
    mkSettings [sample_surround "bold"; sample_toggle "more" "extra"] []
               "bold,,extra|more" in
  let c := fst (initialize settings sample_host) in
  let w := snd (initialize settings sample_host) in
  let closure := mkToggle true (mkSheet false []) in
  let before := set_toggles [closure] w in
  toggles before !! 0%nat = Some closure
  ∧ toggles (fst (onToolbarCreate c true before)) !! 0%nat = Some closure
  ∧ length (toggles (fst (onToolbarCreate c true before))) = 2%nat.
Proof.
  cbn zeta.
  set (settings := mkSettings [sample_surround "bold"; sample_toggle "more" "extra"]
                              [] "bold,,extra|more").
  set (c := fst (initialize settings sample_host)).
  set (closure := mkToggle true (mkSheet false [])).
  set (before := set_toggles [closure] (snd (initialize settings sample_host))).
  assert (toggles before !! 0%nat = Some closure) as H0 by reflexivity.
  split; [exact H0|]. split.
  - destruct (registration_keeps_closures c true before) as (_ & _ & Hkeep).
    exact (proj1 (Hkeep 0%nat closure H0)).
  - vm_compute. reflexivity.
Defined.

Lemma onToolbarCreate_accounts (c : Component) (isDesktop : bool) (w : World) :
  let w' := fst (onToolbarCreate c isDesktop w) in
  ∃ added logged,
    toolbarButtons w' = toolbarButtons w ++ added
    ∧ consoleLog w' = consoleLog w ++ logged
    ∧ (length added + length logged
       = length (filter (λ t, viewport_allows isDesktop (placed t) = true)
                        (toolbar (comp_layout c))))%nat.
Proof.
  unfold onToolbarCreate. generalize (toolbar (comp_layout c)) as plan.
  intros plan. revert w. induction plan as [|t rest IH]; intros w; cbn zeta.
  { exists [], []. by rewrite !app_nil_r. }
  rewrite for_of_cons, skip_test, filter_cons.
  destruct (viewport_allows isDesktop (placed t)); cbn [negb].
  - rewrite try_catch_eq, decide_True by done.
    destruct (addToolbarButton_cases (comp_BUTTONS c) (comp_TRANSLATIONS c)
                (comp_TOGGLE_GROUPS c) (section t) (buttonSpec (placed t)) w)
      as (w1 & r & -> & _ & Hl & _ & _ & _ & Hr).
    destruct Hr as [(o & w0 & _ & -> & b & Hb & _)|((e & _ & ->) & Hb)].
    + cbn beta iota.
      destruct (IH w1) as (added & logged & Hadd & Hlog & Hcount).
      exists (b :: added), logged. rewrite Hadd, Hlog, Hb, Hl, <-app_assoc.
      split_and!; [done..|]. simpl. lia.
    + rewrite modify_eq.
      destruct (IH (log_error (None, e) w1))
        as (added & logged & Hadd & Hlog & Hcount).
      exists added, ((None, e) :: logged). rewrite Hadd, Hlog. simpl.
      rewrite Hb, Hl, <-app_assoc. split_and!; [done..|]. simpl. lia.
  - unfold ret. cbn beta iota. rewrite decide_False by done. apply IH.
Qed.

Lemma register_popups_accounts (c : Component) (w : World) :
  let w' := fst (register_popups c w) in
  ∃ added logged,
    popupMenuOptions w' = popupMenuOptions w ++ added
    ∧ consoleLog w' = consoleLog w ++ logged
    ∧ (length added + length logged = length (gearmenu (comp_layout c)))%nat.
Proof.
  unfold register_popups. generalize (gearmenu (comp_layout c)) as plan.
  intros plan. revert w. induction plan as [|e rest IH]; intros w; cbn zeta.
  { exists [], []. by rewrite !app_nil_r. }
  rewrite for_of_cons, try_catch_eq.
  destruct (addPopupMenuButtonWithCondition_cases (comp_BUTTONS c)
              (comp_TRANSLATIONS c) (comp_TOGGLE_GROUPS c) (comp_name c)
              (buttonSpec e) (allowDesktop e) (allowMobile e) w)
    as (w1 & r & -> & _ & Hl & _ & _ & _ & Hr).
  destruct Hr as [(-> & o & common & w0 & _ & Hp & _)|((err & ->) & Hp)].
  - cbn beta iota.
    destruct (IH w1) as (added & logged & Hadd & Hlog & Hcount).
    exists (o :: added), logged. rewrite Hadd, Hlog, Hp, Hl, <-app_assoc.
    split_and!; [done..|]. simpl. lia.
  - rewrite modify_eq.
    destruct (IH (log_error (None, err) w1))
      as (added & logged & Hadd & Hlog & Hcount).
    exists added, ((None, err) :: logged). rewrite Hadd, Hlog. simpl.
    rewrite Hp, Hl, <-app_assoc. split_and!; [done..|]. simpl. lia.
Qed.

(** X13.  The two registration loops account for every planned entry and
    only ever append.  The toolbar callback adds buttons after those the
    toolbar has and lines after those the log has, and the buttons it adds
    plus the lines it logs are as many as the planned toolbar entries that
    the viewport allows; the popup loop likewise, for all planned popup
    entries.  No entry is dropped without a trace, and none is both
    registered and logged. *)
Theorem registration_accounts_for_every_entry (c : Component) (isDesktop : bool)
    (w : World) :
  (∃ added logged,
     toolbarButtons (fst (onToolbarCreate c isDesktop w))
     = toolbarButtons w ++ added
     ∧ consoleLog (fst (onToolbarCreate c isDesktop w)) = consoleLog w ++ logged
     ∧ (length added + length logged
        = length (filter (λ t, viewport_allows isDesktop (placed t) = true)
                         (toolbar (comp_layout c))))%nat)
  ∧ (∃ added logged,
       popupMenuOptions (fst (register_popups c w)) = popupMenuOptions w ++ added
       ∧ consoleLog (fst (register_popups c w)) = consoleLog w ++ logged
       ∧ (length added + length logged = length (gearmenu (comp_layout c)))%nat).
Proof.
  split; [apply onToolbarCreate_accounts|apply register_popups_accounts].
Qed.

(** * What a registered button is given *)

Lemma own_or_inherited_same (w w' : World) (p : PropName) (v : JSVal) :
  proto_value w' p = proto_value w p →
  own_or_inherited w' p v = own_or_inherited w p v.
Proof. intros Hp. by destruct v. Qed.

(** A call of [setI18nProperty] leaves every other entry of the table and
    every other property of [Object.prototype] as they are. *)
Lemma setI18nProperty_keeps (b : string) (p : PropName) (v : JSVal) (w : World) :
  let w' := fst (setI18nProperty b p v w) in
  (∀ b' p', (b', p') ≠ (b, prop_name p) →
            i18n_lookup w' b' p' = i18n_lookup w b' p')
  ∧ (∀ q, q ≠ p → proto_value w' q = proto_value w q).
Proof.
  cbn zeta. destruct (truthy v) eqn:Hv.
  2:{ by rewrite setI18nProperty_falsy. }
  pose proof (setI18nProperty_effect b p v w Hv) as Heffect.
  cbn zeta in Heffect. unfold proto_value, i18n_lookup in *.
  destruct (write_target w b) as [props| | |k|].
  - destruct Heffect as (_ & _ & Hkeep & -> & _). by split.
  - destruct Heffect as (_ & _ & Hkeep & -> & _). by split.
  - destruct Heffect as (_ & _ & -> & -> & _). split; [done|].
    intros q Hq. by rewrite lookup_insert_ne.
  - destruct Heffect as (_ & _ & _ & _ & -> & ->). by split.
  - by rewrite Heffect.
Qed.

(** When the call returns, it returns the key of a truthy value, and the
    value can be read back under a name that [Object.prototype] does not
    have. *)
Lemma setI18nProperty_ok (b : string) (p : PropName) (v : JSVal) (w w' : World)
    (k : option string) :
  setI18nProperty b p v w = (w', Ok k) →
  k = (if truthy v then Some (i18n_key b (prop_name p)) else None)
  ∧ (truthy v = true → inherited b = false →
     i18n_lookup w' b (prop_name p) = Some v).
Proof.
  intros Hrun. split.
  - destruct (setI18nProperty_frame b p v w) as (w1 & r & Heq & _ & _ & Hr).
    rewrite Hrun in Heq. injection Heq as <- <-.
    by destruct Hr as [[= ->]|((e & [=]) & _)].
  - intros Hv Hinh.
    pose proof (setI18nProperty_effect b p v w Hv) as Heffect.
    cbn zeta in Heffect. rewrite Hrun in Heffect. simpl in Heffect.
    destruct (write_target_record w b Hinh) as [Hproto Hmember].
    destruct (write_target w b) as [props| | |m|];
      [by destruct Heffect as (_ & Hread & _)
      |by destruct Heffect as (_ & Hread & _)
      |done|by destruct (Hmember m)|done].
Qed.

Section ButtonOptions.

Context (BUTTONS : gmap string ButtonDefinition)
        (TRANSLATIONS : option (list TranslationEntry))
        (groups : gmap string (list ButtonSpec))
        (global_name : string).

Lemma makeAction_keeps (buttonName : string)
    (definition : JSProp ButtonDefinition) (w : World) :
  let w' := fst (makeAction TRANSLATIONS groups buttonName definition w) in
  (∀ b' p', (b', p') ≠ (buttonName, "exampleText") →
            i18n_lookup w' b' p' = i18n_lookup w b' p')
  ∧ (∀ q, q ≠ PropExampleText → proto_value w' q = proto_value w q).
Proof.
  cbn zeta.
  assert (definition = Missing ∨ definition ≠ Missing) as [->|Hfound]
    by (destruct definition; [by right|by right|by left]).
  { by rewrite makeAction_missing. }
  rewrite makeAction_found by done. cbn zeta.
  case_bool_decide; [done|].
  case_bool_decide.
  { unfold makeSurroundAction, bind.
    match goal with
    | |- context [setI18nProperty ?b ?p ?v w] =>
        pose proof (setI18nProperty_keeps b p v w) as Hkeep;
        destruct (setI18nProperty b p v w) as [w1 [k|e]]
    end; exact Hkeep. }
  case_bool_decide.
  { unfold makeListAction, bind.
    match goal with
    | |- context [setI18nProperty ?b ?p ?v w] =>
        pose proof (setI18nProperty_keeps b p v w) as Hkeep;
        destruct (setI18nProperty b p v w) as [w1 [k|e]]
    end; exact Hkeep. }
  case_bool_decide; [|done].
  match goal with
  | |- context [makeToggleAction groups ?b ?g ?h w] =>
      destruct (makeToggleAction_cases groups b g h w)
        as [(e & -> & _)|(names & sheet & _ & _ & -> & _)]
  end; done.
Qed.

(** The options [makeCommonButtonOptions] returns, field by field, and what
    it has registered by then. *)
Lemma makeCommonButtonOptions_fields (spec : ButtonSpec) (w w' : World)
    (o : CommonButtonOptions) :
  let buttonName := to_string (of_option (name spec)) in
  makeCommonButtonOptions BUTTONS TRANSLATIONS groups spec w = (w', Ok o) →
  ∃ d,
    let title :=
      applyTranslation TRANSLATIONS
        (own_or_inherited w PropTitle (def_title d)) buttonName "title" in
    let nonIcon :=
      applyTranslation TRANSLATIONS
        (own_or_inherited w PropNonIcon (def_nonIcon d)) buttonName "nonIcon" in
    BUTTONS !! buttonName = Some d
    ∧ co_icon o = def_svg_icon d
    ∧ co_nonIconKey o
      = (if truthy nonIcon
         then Some ("composer." +:+ i18n_key buttonName "nonIcon") else None)
    ∧ co_titleKey o
      = (if truthy title
         then "composer." +:+ i18n_key buttonName "title" else "composer.null")
    ∧ co_elementId o = makeButtonIdentifier (of_option (name spec))
    ∧ co_buttonName o = buttonName
    ∧ co_definition o = Own d
    ∧ toolbarButtons w' = toolbarButtons w
    ∧ popupMenuOptions w' = popupMenuOptions w
    ∧ (inherited buttonName = false →
       (truthy title = true → i18n_lookup w' buttonName "title" = Some title)
       ∧ (truthy nonIcon = true →
          i18n_lookup w' buttonName "nonIcon" = Some nonIcon)).
Proof.
  cbn zeta. intros Hrun.
  pose proof (makeCommonButtonOptions_frame BUTTONS TRANSLATIONS groups spec w)
    as (Hp & Hb & _). rewrite Hrun in Hp, Hb. simpl in Hp, Hb.
  destruct (makeCommonButtonOptions_ok _ _ _ _ _ _ _ Hrun)
    as (_ & _ & d & Hd & _).
  exists d. cbn zeta.
  rewrite makeCommonButtonOptions_unfold in Hrun. cbn zeta in Hrun.
  set (buttonName := to_string (of_option (name spec))) in *.
  unfold js_get_in in Hrun. rewrite Hd in Hrun.
  cbn [definition_prop field] in Hrun.
  set (title := applyTranslation TRANSLATIONS
                  (own_or_inherited w PropTitle (def_title d))
                  buttonName "title") in *.
  pose proof (setI18nProperty_keeps buttonName PropTitle title w) as Hkeep1.
  cbn zeta in Hkeep1.
  destruct (setI18nProperty buttonName PropTitle title w)
    as [w1 [titleKey|e]] eqn:Hrun1; [|done].
  destruct (setI18nProperty_ok _ _ _ _ _ _ Hrun1) as (-> & Hread1).
  simpl in Hkeep1. destruct Hkeep1 as [_ Hproto1].
  pose proof (makeAction_keeps buttonName (Own d) w1) as [Hkeep2 Hproto2].
  destruct (makeAction TRANSLATIONS groups buttonName (Own d) w1)
    as [w2 [action|e]]; [|done].
  simpl in Hkeep2, Hproto2.
  assert (own_or_inherited w2 PropNonIcon (def_nonIcon d)
          = own_or_inherited w PropNonIcon (def_nonIcon d)) as Hsame.
  { apply own_or_inherited_same.
    by rewrite Hproto2, Hproto1. }
  rewrite Hsame in Hrun.
  set (nonIcon := applyTranslation TRANSLATIONS
                    (own_or_inherited w PropNonIcon (def_nonIcon d))
                    buttonName "nonIcon") in *.
  pose proof (setI18nProperty_keeps buttonName PropNonIcon nonIcon w2)
    as [Hkeep3 _].
  destruct (setI18nProperty buttonName PropNonIcon nonIcon w2)
    as [w3 [nonIconKey|e]] eqn:Hrun3; [|done].
  destruct (setI18nProperty_ok _ _ _ _ _ _ Hrun3) as (-> & Hread3).
  simpl in Hkeep3. injection Hrun as <- <-. simpl.
  split_and!; try done.
  - by destruct (truthy nonIcon).
  - by destruct (truthy title).
  - intros Hinh. split; [|by auto].
    intros Ht. rewrite Hkeep3 by (simpl; congruence).
    rewrite Hkeep2 by congruence. by apply Hread1.
Qed.

End ButtonOptions.

(** X14.  What a toolbar button is registered with.  When [addToolbarButton]
    returns, the button's name is an own key of the [buttons] table and the
    toolbar has one more button, at its end.  The button carries the
    identifier, the zone and the shortcut of the entry, and always prevents
    focus and trims the selection.  It has a label or an icon, never both:
    when the button's [nonIcon] text (after translation) is truthy the label
    is the key [composer.ComposerButtonBonanza.<name>.nonIcon] and the icon
    is [null]; otherwise there is no label and the icon is the definition's
    [svg_icon].  Its title is the key
    [composer.ComposerButtonBonanza.<name>.title], or the key
    [composer.null] when the title text is falsy.  The title and [nonIcon]
    texts are the definition's; a definition without the field reads what
    [Object.prototype] has under that name, which is nothing unless the
    code has put it there.  For a name that [Object.prototype] does not
    have, the title and label texts can be read back from [i18nProperties]
    under the button's name. *)
Theorem toolbar_button_options (BUTTONS : gmap string ButtonDefinition)
    (TRANSLATIONS : option (list TranslationEntry))
    (groups : gmap string (list ButtonSpec)) (zone : option string)
    (spec : ButtonSpec) (w w' : World) :
  addToolbarButton BUTTONS TRANSLATIONS groups zone spec w = (w', Ok tt) →
  let buttonName := to_string (of_option (name spec)) in
  ∃ d b,
    let title :=
      applyTranslation TRANSLATIONS
        (own_or_inherited w PropTitle (def_title d)) buttonName "title" in
    let nonIcon :=
      applyTranslation TRANSLATIONS
        (own_or_inherited w PropNonIcon (def_nonIcon d)) buttonName "nonIcon" in
    BUTTONS !! buttonName = Some d
    ∧ toolbarButtons w' = toolbarButtons w ++ [b]
    ∧ tb_id b = makeButtonIdentifier (of_option (name spec))
    ∧ tb_group b = zone
    ∧ tb_shortcut b = shortcut spec
    ∧ tb_preventFocus b = true
    ∧ tb_trimLeading b = true
    ∧ tb_title b
      = (if truthy title
         then "composer." +:+ i18n_key buttonName "title" else "composer.null")
    ∧ (if truthy nonIcon
       then tb_label b = Some ("composer." +:+ i18n_key buttonName "nonIcon")
            ∧ tb_icon b = JNull
       else tb_label b = None ∧ tb_icon b = def_svg_icon d)
    ∧ (inherited buttonName = false →
       (truthy title = true → i18n_lookup w' buttonName "title" = Some title)
       ∧ (truthy nonIcon = true →
          i18n_lookup w' buttonName "nonIcon" = Some nonIcon))
    ∧ (pristine w →
       title = applyTranslation TRANSLATIONS (def_title d) buttonName "title"
       ∧ nonIcon
         = applyTranslation TRANSLATIONS (def_nonIcon d) buttonName "nonIcon").
Proof.
  unfold addToolbarButton. unfold bind at 1.
  destruct (makeCommonButtonOptions BUTTONS TRANSLATIONS groups spec w)
    as [w1 [o|e]] eqn:Hmake; [|done].
  rewrite modify_eq. intros [= <-]. cbn zeta.
  destruct (makeCommonButtonOptions_fields _ _ _ _ _ _ _ Hmake)
    as (d & Hd & Hicon & Hnon & Htitle & Hid & _ & _ & Hb & _ & Hread).
  eexists d, _. simpl. split; [exact Hd|].
  split; [by rewrite Hb|]. split_and!; try done.
  - rewrite Hnon. by destruct (truthy _).
  - intros Hw. by rewrite !own_or_inherited_pristine.
Qed.

Lemma toolbar_button_options_witness :
  let BUTTONS := buttons_table [sample_surround "bold"] in
  let spec := mkButtonSpec (Some "bold") (Some "ctrl+b") None in
  let w' := fst (addToolbarButton BUTTONS None ∅ (Some "fontStyles") spec
                   (empty_world sample_parser [])) in
  addToolbarButton BUTTONS None ∅ (Some "fontStyles") spec
    (empty_world sample_parser [])
  = (w', Ok tt)
  ∧ ∃ b, toolbarButtons w' = [b]
         ∧ tb_title b = "composer.ComposerButtonBonanza.bold.title"
         ∧ tb_label b = None
         ∧ tb_icon b = JStr "icon"
         ∧ i18n_lookup w' "bold" "title" = Some (JStr "bold").
Proof.
  cbn zeta.
  set (BUTTONS := buttons_table [sample_surround "bold"]).
  set (spec := mkButtonSpec (Some "bold") (Some "ctrl+b") None).
  set (w' := fst (addToolbarButton BUTTONS None ∅ (Some "fontStyles") spec
                    (empty_world sample_parser []))).
  assert (addToolbarButton BUTTONS None ∅ (Some "fontStyles") spec
            (empty_world sample_parser [])
          = (w', Ok tt)) as Hrun by (vm_compute; reflexivity).
  split; [exact Hrun|].
  destruct (toolbar_button_options BUTTONS None ∅ (Some "fontStyles") spec
              (empty_world sample_parser []) w' Hrun)
    as (d & b & Hd & Hb & _ & _ & _ & _ & _ & Htitle & Hlabel & Hread & _).
  assert (d = sample_surround "bold") as ->.
  { assert (BUTTONS !! "bold" = Some (sample_surround "bold")) as Hs
      by (vm_compute; reflexivity).
    simpl in Hd. congruence. }
  exists b. simpl in Hb, Htitle, Hlabel, Hread.
  destruct Hlabel as [Hlabel Hicon].
  split_and!; try done.
Defined.

(** X15.  What a popup menu option is registered with.  When
    [addPopupMenuButtonWithCondition] returns, the button's name is an own
    key of the [buttons] table and the popup menu has one more option, at
    its end.  Its icon is the definition's [svg_icon] whether or not the
    button has a [nonIcon] text; its label is the button's title key; its
    hover title is the key [composer.ComposerButtonBonanza.<name>.hover]
    when the [popupHover] text (after translation) is truthy and the label
    otherwise.  It carries the entry's shortcut and the two viewport flags.
    The title text is the definition's; a definition without a title reads
    what [Object.prototype] has under that name, which is nothing unless
    the code has put it there.  For a name that [Object.prototype] does not
    have, the title and hover texts can be read back from [i18nProperties]
    under the button's name. *)
Theorem popup_option_fields (BUTTONS : gmap string ButtonDefinition)
    (TRANSLATIONS : option (list TranslationEntry))
    (groups : gmap string (list ButtonSpec)) (global_name : string)
    (spec : ButtonSpec) (allowDesktop allowMobile : bool) (w w' : World) :
  addPopupMenuButtonWithCondition BUTTONS TRANSLATIONS groups global_name spec
    allowDesktop allowMobile w = (w', Ok tt) →
  let buttonName := to_string (of_option (name spec)) in
  ∃ d o,
    let title :=
      applyTranslation TRANSLATIONS
        (own_or_inherited w PropTitle (def_title d)) buttonName "title" in
    let hover :=
      applyTranslation TRANSLATIONS (def_popupHover d) buttonName "popupHover" in
    BUTTONS !! buttonName = Some d
    ∧ popupMenuOptions w' = popupMenuOptions w ++ [o]
    ∧ pm_icon o = def_svg_icon d
    ∧ pm_label o
      = (if truthy title
         then "composer." +:+ i18n_key buttonName "title" else "composer.null")
    ∧ pm_title o
      = (if truthy hover
         then "composer." +:+ i18n_key buttonName "hover" else pm_label o)
    ∧ pm_shortcut o = shortcut spec
    ∧ pm_condition o = ViewportCondition allowDesktop allowMobile
    ∧ (inherited buttonName = false →
       (truthy title = true → i18n_lookup w' buttonName "title" = Some title)
       ∧ (truthy hover = true →
          i18n_lookup w' buttonName "hover" = Some hover))
    ∧ (pristine w →
       title = applyTranslation TRANSLATIONS (def_title d) buttonName "title").
Proof.
  unfold addPopupMenuButtonWithCondition. unfold bind at 1.
  destruct (makeCommonButtonOptions BUTTONS TRANSLATIONS groups spec w)
    as [w1 [common|e]] eqn:Hmake; [|done].
  destruct (makeCommonButtonOptions_fields _ _ _ _ _ _ _ Hmake)
    as (d & Hd & Hicon & _ & Htitle & _ & -> & -> & _ & Hp & Hread).
  unfold bind at 1. cbn [field].
  set (buttonName := to_string (of_option (name spec))) in *.
  set (hover := applyTranslation TRANSLATIONS (def_popupHover d)
                  buttonName "popupHover").
  pose proof (setI18nProperty_keeps buttonName PropHover hover w1)
    as [Hkeep2 _].
  pose proof (setI18nProperty_frame buttonName PropHover hover w1)
    as (w2' & r' & Heq & (Hp2 & _) & _).
  destruct (setI18nProperty buttonName PropHover hover w1)
    as [w2 [hoverKey|e]] eqn:Hrun2; [|done].
  injection Heq as <- <-.
  destruct (setI18nProperty_ok _ _ _ _ _ _ Hrun2) as (-> & Hread2).
  simpl in Hkeep2.
  rewrite modify_eq. intros [= <-]. cbn zeta.
  eexists d, _. simpl. split; [exact Hd|].
  split; [by rewrite Hp2, Hp|]. split_and!; try done.
  - fold hover. by destruct (truthy hover).
  - intros Hinh. unfold i18n_lookup in *. simpl. split; [|by auto].
    intros Ht. rewrite Hkeep2 by congruence. by apply Hread.
  - intros Hw. by rewrite own_or_inherited_pristine.
Qed.

Lemma popup_option_fields_witness :
  let BUTTONS := buttons_table [sample_surround "bold"] in
  let spec := mkButtonSpec (Some "bold") None None in
  let w' := fst (addPopupMenuButtonWithCondition BUTTONS None ∅ "" spec true false
                   (empty_world sample_parser [])) in
  addPopupMenuButtonWithCondition BUTTONS None ∅ "" spec true false
    (empty_world sample_parser []) = (w', Ok tt)
  ∧ ∃ o, popupMenuOptions w' = [o]
         ∧ pm_label o = "composer.ComposerButtonBonanza.bold.title"
         ∧ pm_title o = pm_label o
         ∧ pm_icon o = JStr "icon".
Proof.
  cbn zeta.
  set (BUTTONS := buttons_table [sample_surround "bold"]).
  set (spec := mkButtonSpec (Some "bold") None None).
  set (w' := fst (addPopupMenuButtonWithCondition BUTTONS None ∅ "" spec true false
                    (empty_world sample_parser []))).
  assert (addPopupMenuButtonWithCondition BUTTONS None ∅ "" spec true false
            (empty_world sample_parser []) = (w', Ok tt)) as Hrun
    by (vm_compute; reflexivity).
  split; [exact Hrun|].
  destruct (popup_option_fields BUTTONS None ∅ "" spec true false
              (empty_world sample_parser []) w' Hrun)
    as (d & o & Hd & Hp & Hicon & Hlabel & Htitle & _).
  assert (d = sample_surround "bold") as ->.
  { assert (BUTTONS !! "bold" = Some (sample_surround "bold")) as Hs
      by (vm_compute; reflexivity).
    simpl in Hd. congruence. }
  exists o. simpl in Hp, Hicon, Hlabel, Htitle.
  split_and!; done.
Defined.

(** * The selection a popup button works on *)

(** X16.  [trimLeading] loses no characters and keeps the end of the
    selection where it was: the trimmed text is a suffix of the text, the
    start only moves forward, by as many code units as the text got
    shorter.  The selection is left exactly as it was if and only if its
    text does not begin with whitespace. *)
Theorem trimLeading_keeps_end (selection : Selection) :
  let trimmed := trimLeading selection in
  sel_value trimmed `suffix_of` sel_value selection
  ∧ (start selection ≤ start trimmed)%Z
  ∧ (start trimmed + Z.of_nat (length (sel_value trimmed))
     = start selection + Z.of_nat (length (sel_value selection)))%Z
  ∧ (trimmed = selection
     ↔ ∀ c, head (sel_value selection) = Some c → is_whitespace c = false).
Proof.
  cbn zeta. rewrite trimLeading_unfold. simpl.
  pose proof (leading_whitespace_split (sel_value selection)) as Hsplit.
  split_and!.
  - exists (leading_whitespace (sel_value selection)). exact Hsplit.
  - lia.
  - apply (f_equal length) in Hsplit. rewrite length_app in Hsplit. lia.
  - destruct selection as [s v]. simpl. clear Hsplit. split.
    + intros [= Hs Hv] c Hc. destruct v as [|a rest]; [done|].
      injection Hc as ->. simpl in Hs.
      destruct (is_whitespace c); [simpl in Hs; lia|done].
    + intros Hhead. destruct v as [|a rest]; simpl.
      * f_equal. lia.
      * rewrite (Hhead a eq_refl). simpl. f_equal. lia.
Qed.

(** * The tables the initializer builds *)

Lemma buttons_table_last (bs : list ButtonDefinition) (n : string) :
  buttons_table bs !! n = last_named n bs.
Proof.
  induction bs as [|d bs IH] using rev_ind; [done|].
  unfold buttons_table, last_named in *.
  rewrite foldl_app, filter_app, filter_cons, filter_nil. simpl.
  destruct (decide (def_name d = n)) as [<-|Hne].
  - by rewrite lookup_insert_eq, last_snoc.
  - by rewrite lookup_insert_ne, app_nil_r.
Qed.

Lemma locale_table_first (ts : list LocaleTranslations) (loc : string) :
  locale_table ts loc
  = translations <$> head (filter (λ t, locale t = loc) ts).
Proof.
  unfold locale_table. induction ts as [|t ts IH]; [done|].
  rewrite filter_cons. simpl.
  destruct (String.eqb_spec (locale t) loc) as [Heq|Hne].
  - by rewrite decide_True.
  - by rewrite decide_False.
Qed.

(** X17.  The tables the initializer builds from the settings.  A button
    name finds the last definition of that name in the [buttons] setting,
    so a later definition replaces an earlier one of the same name, and
    every definition in the table is one of the setting and is stored
    under its own name.  The translations in force are those of the first
    entry of the [translations] setting whose locale is the current one,
    and there are none when no entry has that locale.  The layout is
    parsed against that button table, and no toolbar button exists when
    the initializer is done. *)
Theorem initialize_tables (settings : Settings) (host : Host) :
  let c := fst (initialize settings host) in
  (∀ n, comp_BUTTONS c !! n = last_named n (buttons settings))
  ∧ (∀ n d, comp_BUTTONS c !! n = Some d →
            def_name d = n ∧ d ∈ buttons settings)
  ∧ comp_TRANSLATIONS c
    = translations
      <$> head (filter (λ t, locale t = currentLocale host)
                       (translations_setting settings))
  ∧ comp_layout c
    = result (parseLayout (comp_BUTTONS c) (layout settings) ∅ [])
  ∧ comp_TOGGLE_GROUPS c
    = TOGGLE_GROUPS (parseLayout (comp_BUTTONS c) (layout settings) ∅ [])
  ∧ toolbarButtons (snd (initialize settings host)) = [].
Proof.
  cbn zeta. unfold initialize. simpl. split_and!.
  - intros n. apply buttons_table_last.
  - intros n d. rewrite buttons_table_last. unfold last_named.
    intros Hlast. apply last_Some in Hlast as (l' & Hl').
    assert (d ∈ filter (λ d0, def_name d0 = n) (buttons settings)) as Hin.
    { rewrite Hl'. apply elem_of_app. right. by apply list_elem_of_singleton. }
    apply list_elem_of_filter in Hin. by destruct Hin.
  - apply locale_table_first.
  - done.
  - done.
  - match goal with
    | |- context [register_popups ?c ?w] =>
        by destruct (register_popups_returns c w) as (_ & -> & _)
    end.
Qed.

(** X18.  A translation takes the place of a toggle button's [startHidden]
    setting as text, whatever the setting is: when the group's stylesheet
    can be built (the host's parser accepts the rules of its members), the
    group starts hidden when the translated text is not empty (also when it
    reads [false]) and starts shown when it is empty.  When a rule is
    refused the button is not built, whatever the text. *)
Theorem translated_startHidden_is_text (table : list TranslationEntry)
    (groups : gmap string (list ButtonSpec)) (buttonName : string)
    (d : ButtonDefinition) (e : TranslationEntry) (group : list ButtonSpec)
    (w : World) :
  def_action d = JStr Action.toggleGroup →
  List.find (λ e, String.eqb (key e) (buttonName +:+ ".startHidden")) table
  = Some e →
  groups !! to_string (applyTranslation (Some table) (def_groupName d)
                                        buttonName "groupName") = Some group →
  if rules_accepted (acceptsRule w) group
  then ∃ sheet,
         makeAction (Some table) groups buttonName (Own d) w
         = (set_toggles
              (toggles w ++ [mkToggle (negb (String.eqb (value e) "")) sheet]) w,
            Ok (ToggleAction (length (toggles w))))
         ∧ disabled sheet = String.eqb (value e) ""
  else ∃ rule,
         makeAction (Some table) groups buttonName (Own d) w
         = (w, Throw (SyntaxError rule)).
Proof.
  intros Hkind Hfind Hgroup. rewrite makeAction_found by done.
  cbn zeta. cbn [field]. rewrite Hkind.
  rewrite !bool_decide_eq_false_2 by discriminate.
  rewrite bool_decide_eq_true_2 by done.
  match goal with
  | |- context [makeToggleAction groups ?b ?g ?h w] =>
      pose proof (makeToggleAction_in_table groups b g h group w Hgroup)
        as Htoggle;
      assert (truthy h = negb (String.eqb (value e) "")) as Hhidden
  end.
  { unfold applyTranslation. cbn zeta.
    change ("." +:+ "startHidden") with ".startHidden". by rewrite Hfind. }
  destruct (rules_accepted (acceptsRule w) group).
  - destruct Htoggle as (sheet & Hrun & Hdisabled & _).
    exists sheet. rewrite Hrun, Hdisabled, Hhidden. by rewrite negb_involutive.
  - destruct Htoggle as (rule & spec & Hrun & _). by exists rule.
Qed.

Lemma translated_startHidden_is_text_witness :
  let table := [mkTranslation "more.startHidden" "false"] in
  let groups : gmap string (list ButtonSpec) := {[ "extra" := [] ]} in
  def_action (sample_toggle "more" "extra") = JStr Action.toggleGroup
  ∧ def_startHidden (sample_toggle "more" "extra") = JBool false
  ∧ ∃ sheet,
      makeAction (Some table) groups "more" (Own (sample_toggle "more" "extra"))
        (empty_world sample_parser [])
      = (set_toggles [mkToggle true sheet] (empty_world sample_parser []),
         Ok (ToggleAction 0))
      ∧ disabled sheet = false.
Proof.
  cbn zeta. split; [reflexivity|]. split; [reflexivity|].
  exact (translated_startHidden_is_text
           [mkTranslation "more.startHidden" "false"] {[ "extra" := [] ]} "more"
           (sample_toggle "more" "extra")
           (mkTranslation "more.startHidden" "false") []
           (empty_world sample_parser [])
           eq_refl eq_refl eq_refl).
Defined.

(** * A write onto Object.prototype *)

Lemma prop_of_name_prop_name (p : PropName) : prop_of_name (prop_name p) = Some p.
Proof. by destruct p. Qed.

Lemma heir_of_written (w : World) (p : PropName) (v : JSVal) :
  prototypeProperties w !! p = Some v →
  heir w (prop_name p) = Some (ProtoValue v).
Proof.
  intros Hp. unfold heir.
  rewrite bool_decide_eq_false_2 by (by destruct p).
  replace (inherited (prop_name p)) with false by (by destruct p).
  rewrite prop_of_name_prop_name. simpl. by rewrite Hp.
Qed.

Lemma names_accepted_replicate (accepts : string → bool) (n : nat) (name : JSVal) :
  accepts (class_rule name) = true →
  accepts (data_name_rule name) = true →
  names_accepted accepts (replicate n name) = true.
Proof.
  intros Hclass Hdata. unfold names_accepted.
  induction n as [|n IH]; simpl; [done|]. by rewrite Hclass, Hdata, IH.
Qed.

(** X19.  What a button named [__proto__] does to later toggle buttons.
    [i18nProperties["__proto__"]] is [Object.prototype], so registering a
    text for that button writes it onto [Object.prototype] under the
    property's name ([title], [exampleText], [nonIcon] or [hover]).  From
    then on [TOGGLE_GROUPS] finds that text under that name although no
    entry of the layout declared such a group: resolving a toggle button
    whose group has that name no longer throws "No buttons are assigned".
    The loop goes through the text character by character, a character
    has no [name], and the stylesheet gets the two rules of the button
    [undefined] once for every character. *)
Theorem prototype_write_reaches_toggle_groups
    (groups : gmap string (list ButtonSpec)) (buttonName : string)
    (p : PropName) (s : string) (startHidden : JSVal) (w : World) :
  truthy (JStr s) = true →
  i18nProperties w !! "__proto__" = None →
  groups !! prop_name p = None →
  acceptsRule w (class_rule JUndefined) = true →
  acceptsRule w (data_name_rule JUndefined) = true →
  let written := setI18nProperty "__proto__" p (JStr s) w in
  let w1 := fst written in
  snd written = Ok (Some (i18n_key "__proto__" (prop_name p)))
  ∧ i18nProperties w1 = i18nProperties w
  ∧ proto_value w1 p = JStr s
  ∧ js_get groups (prop_name p) = Missing
  ∧ ∃ sheet,
      makeToggleAction groups buttonName (JStr (prop_name p)) startHidden w1
      = (set_toggles (toggles w1 ++ [mkToggle (truthy startHidden) sheet]) w1,
         Ok (ToggleAction (length (toggles w1))))
      ∧ cssRules sheet
        = hide_rule_texts (replicate (code_points s) JUndefined)
      ∧ length (cssRules sheet) = (2 * code_points s)%nat.
Proof.
  intros Hs Hown Hgroup Hclass Hdata. cbn zeta.
  pose proof (setI18nProperty_effect "__proto__" p (JStr s) w Hs) as Heffect.
  cbn zeta in Heffect.
  assert (write_target w "__proto__" = ThePrototype) as Htarget.
  { unfold write_target, heir. by rewrite Hown. }
  rewrite Htarget in Heffect.
  destruct Heffect as (_ & Hkey & Hproto & Htable & _).
  destruct (setI18nProperty_frame "__proto__" p (JStr s) w)
    as (w1 & r & Hrun & (_ & _ & _ & Haccepts & _) & _).
  rewrite Hrun in Hkey, Hproto, Htable |- *. simpl in Hkey, Hproto, Htable |- *.
  assert (prototypeProperties w1 !! p = Some (JStr s)) as Hp
    by (by rewrite Hproto, lookup_insert_eq).
  split_and!; [done|done| | |].
  - unfold proto_value. by rewrite Hp.
  - unfold js_get. rewrite Hgroup. by destruct p.
  - unfold makeToggleAction, bind, get, iterated_names. cbn [to_string].
    rewrite Hgroup, (heir_of_written w1 p (JStr s) Hp), Hs.
    pose proof (insert_hide_rules_spec (acceptsRule w1)
                  (replicate (code_points s) JUndefined)
                  (mkSheet (negb (truthy startHidden)) [])) as Hloop.
    rewrite names_accepted_replicate in Hloop by (by rewrite Haccepts).
    destruct Hloop as (sheet & -> & _ & Hrules). simpl in Hrules.
    rewrite app_nil_r in Hrules. exists sheet. split_and!; [done|done|].
    by rewrite Hrules, hide_rule_texts_length, length_replicate.
Qed.

Lemma prototype_write_reaches_toggle_groups_witness :
  let w := empty_world sample_parser [] in
  let w1 := fst (setI18nProperty "__proto__" PropTitle (JStr "Bold") w) in
  truthy (JStr "Bold") = true
  ∧ i18nProperties w !! "__proto__" = None
  ∧ (∅ : gmap string (list ButtonSpec)) !! "title" = None
  ∧ acceptsRule w (class_rule JUndefined) = true
  ∧ acceptsRule w (data_name_rule JUndefined) = true
  ∧ (∃ e, makeToggleAction ∅ "more" (JStr "title") JUndefined w = (w, Throw e))
  ∧ ∃ sheet,
      makeToggleAction ∅ "more" (JStr "title") JUndefined w1
      = (set_toggles [mkToggle false sheet] w1, Ok (ToggleAction 0))
      ∧ length (cssRules sheet) = 8%nat.
Proof.
  cbn zeta.
  assert (i18nProperties (empty_world sample_parser []) !! "__proto__" = None)
    as Hown by apply lookup_empty.
  assert ((∅ : gmap string (list ButtonSpec)) !! "title" = None)
    as Hgroup by apply lookup_empty.
  destruct (prototype_write_reaches_toggle_groups ∅ "more" PropTitle "Bold"
              JUndefined (empty_world sample_parser [])
              eq_refl Hown Hgroup eq_refl eq_refl)
    as (_ & _ & _ & _ & sheet & Hrun & _ & Hlen).
  split_and!; [reflexivity|exact Hown|exact Hgroup|reflexivity|reflexivity| |].
  - eexists. vm_compute. reflexivity.
  - exists sheet. split; [exact Hrun|exact Hlen].
Defined.

(** The same through the initializer and the toolbar callback: the button
    [__proto__] registers its title on [Object.prototype], and the button
    [more], whose group [title] no entry declares, is then built. *)
Lemma prototype_write_scenario :
  let settings :=
    mkSettings [sample_surround "__proto__"; sample_toggle "more" "title"] []
               "__proto__,|more" in
  let c := fst (initialize settings sample_host) in
  let w := snd (initialize settings sample_host) in
  let shown := fst (onToolbarCreate c true w) in
  pristine w
  ∧ members (comp_TOGGLE_GROUPS c) "title" = []
  ∧ constructible (acceptsRule w) (comp_BUTTONS c) (comp_TRANSLATIONS c)
      (comp_TOGGLE_GROUPS c) (mkButtonSpec (Some "more") None None) = false
  ∧ proto_value shown PropTitle = JStr "__proto__"
  ∧ tb_id <$> toolbarButtons shown
    = ["ComposerButtonBonanza-btn-__proto__"; "ComposerButtonBonanza-btn-more"]
  ∧ consoleLog shown = [].
Proof. cbn zeta. split_and!; vm_compute; reflexivity. Qed.
